(** * Laptop form "full name" derivation: a shallow embedding

    The reactive script of the laptop form (an IIFE holding [utils] and
    [reactiveLogic]) reads the component fields of the form, builds a list of
    tokens and writes their [cleanJoin] into the "Nombre completo" field of the
    component.  The Icecat importer ([IcecatScanner.populateForm]) assembles
    the same names from the product record returned by the server.

    The file first settles what the specification says of the names, and
    then follows the two scripts on the page: [init] and the events of the
    form script, the blocks of [populateForm] with the change events they
    dispatch, [fetchData] and its loading indicator, [loadImages] and the
    gallery, and the camera scanner.

    Conventions of the embedding.
    - A JavaScript string is a [string]; each character stands for one code
      unit in the range U+0000..U+00FF.
    - A JavaScript number that holds an integer is a [Z]; [NaN] is [None].  The
      embedding is exact for safe integers (absolute value below 2^53).
    - [null] and [undefined] are [None] in an [option].
    - A computation that can throw lives in [completion].
    - The form is a finite map from the ids of its fields to their [value]
      and [checked]; an element of the page that is not there is [None]. *)

From Stdlib Require Import ZArith Ascii Lia Bool.
From stdpp Require Import base option list strings gmap.

Local Open Scope Z_scope.

(** ** Completions: normal return or a thrown [TypeError] *)

Inductive completion (A : Type) : Type :=
  | Normal (a : A)
  | Throw.
Arguments Normal {A} a.
Arguments Throw {A}.

#[global] Instance completion_ret : MRet completion := fun A a => Normal a.
#[global] Instance completion_bind : MBind completion := fun A B f m =>
  match m with
  | Normal a => f a
  | Throw => Throw
  end.

(** [o.method()] where [o] may be [undefined] or [null]: a [TypeError]. *)
Definition method_call {A B : Type} (o : option A) (f : A -> B) : completion B :=
  match o with
  | Some a => Normal (f a)
  | None => Throw
  end.

(** [xs.forEach(f)] for a callback that updates a captured variable. *)
Fixpoint forEach {A S : Type} (f : S -> A -> completion S) (xs : list A) (st : S)
  : completion S :=
  match xs with
  | [] => Normal st
  | x :: xs' => st' ← f st x; forEach f xs' st'
  end.

(** ** The parts of the JavaScript string and number library that the code uses *)

Module JS.

Definition code (c : ascii) : Z := Z.of_N (N_of_ascii c).

Definition between (lo hi : Z) (c : ascii) : bool :=
  (lo <=? code c) && (code c <=? hi).

(** WhiteSpace and LineTerminator code units below U+0100:
    TAB, LF, VT, FF, CR, SP and NBSP. *)
Definition isWhiteSpace (c : ascii) : bool :=
  between 9 13 c || (code c =? 32) || (code c =? 160).

(** [\d] of a regular expression without the unicode-sets flag. *)
Definition isDigit (c : ascii) : bool := between 48 57 c.

(** Boolean(s) for a string: only the empty string is falsy. *)
Definition truthy (s : string) : bool :=
  match s with
  | EmptyString => false
  | String _ _ => true
  end.

(** Boolean(v) for a value that is a string, [null] or [undefined]. *)
Definition truthy_opt (v : option string) : bool :=
  match v with
  | Some s => truthy s
  | None => false
  end.

(** Boolean(v) for a value that is a number, [null] or [undefined]:
    [0] is falsy. *)
Definition truthy_num (v : option Z) : bool :=
  match v with
  | Some n => negb (n =? 0)
  | None => false
  end.

Fixpoint trimStart (s : string) : string :=
  match s with
  | EmptyString => EmptyString
  | String c s' => if isWhiteSpace c then trimStart s' else s
  end.

Fixpoint trimEnd (s : string) : string :=
  match s with
  | EmptyString => EmptyString
  | String c s' =>
      match trimEnd s' with
      | EmptyString => if isWhiteSpace c then EmptyString else String c EmptyString
      | t => String c t
      end
  end.

Definition trim (s : string) : string := trimEnd (trimStart s).

(** Code units with a lower-case partner below U+0100: A-Z, and
    U+00C0..U+00DE except the multiplication sign U+00D7. *)
Definition toLowerCase_char (c : ascii) : ascii :=
  if between 65 90 c || (between 192 222 c && negb (code c =? 215))
  then ascii_of_N (N_of_ascii c + 32)
  else c.

Fixpoint toLowerCase (s : string) : string :=
  match s with
  | EmptyString => EmptyString
  | String c s' => String (toLowerCase_char c) (toLowerCase s')
  end.

(** [s.includes(sub)] *)
Fixpoint includes (s sub : string) : bool :=
  String.prefix sub s ||
  match s with
  | EmptyString => false
  | String _ s' => includes s' sub
  end.

Fixpoint drop (n : nat) (s : string) : string :=
  match n, s with
  | S n', String _ s' => drop n' s'
  | _, _ => s
  end.

(** [s.replace(pat, rep)] with a string pattern: the first occurrence only. *)
Fixpoint replace (pat rep s : string) : string :=
  if String.prefix pat s then rep +:+ drop (String.length pat) s
  else match s with
       | EmptyString => EmptyString
       | String c s' => String c (replace pat rep s')
       end.

(** [s.replace(/pat/g, rep)] for a regular expression that is the literal,
    non-empty text [pat]: every occurrence, scanning from the left; [skip]
    counts the characters of the current occurrence still to be passed. *)
Fixpoint replace_g_from (skip : nat) (pat rep s : string) : string :=
  match s with
  | EmptyString => EmptyString
  | String c s' =>
      match skip with
      | S k => replace_g_from k pat rep s'
      | O =>
          if String.prefix pat s
          then rep +:+ replace_g_from (String.length pat - 1) pat rep s'
          else String c (replace_g_from O pat rep s')
      end
  end.

Definition replace_g (pat rep s : string) : string := replace_g_from O pat rep s.

(** The greedy quantifier [\d{0,max}] applied at the start of [s]. *)
Fixpoint take_digits (max : nat) (s : string) : string :=
  match max, s with
  | S m, String c s' => if isDigit c then String c (take_digits m s') else EmptyString
  | _, _ => EmptyString
  end.

(** [s.match(/(\d{lo,hi})/)]: the capture of the leftmost match, or [None]
    for [null].  At each start position the quantifier takes as many digits
    as it can, up to [hi]; the position matches when it took at least [lo]. *)
Fixpoint match_digits (lo hi : nat) (s : string) : option string :=
  let m := take_digits hi s in
  if (lo <=? String.length m)%nat then Some m
  else match s with
       | EmptyString => None
       | String _ s' => match_digits lo hi s'
       end.

(** [xs.join(sep)] on an array of strings. *)
Fixpoint join (sep : string) (xs : list string) : string :=
  match xs with
  | [] => EmptyString
  | [x] => x
  | x :: xs' => x +:+ sep +:+ join sep xs'
  end.

(** Value of a digit in the given radix, for [parseInt]. *)
Definition digitValue (radix : Z) (c : ascii) : option Z :=
  let v := if between 48 57 c then Some (code c - 48)
           else if between 97 122 c then Some (code c - 87)
           else if between 65 90 c then Some (code c - 55)
           else None in
  match v with
  | Some d => if d <? radix then Some d else None
  | None => None
  end.

(** The longest prefix of [s] made of digits of the radix, read as a number;
    [acc] is [None] until the first digit has been read. *)
Fixpoint parseDigits (radix : Z) (acc : option Z) (s : string) : option Z :=
  match s with
  | EmptyString => acc
  | String c s' =>
      match digitValue radix c with
      | Some d => parseDigits radix (Some (default 0 acc * radix + d)) s'
      | None => acc
      end
  end.

(** The sign that [parseInt] reads off, and the rest of the text. *)
Definition strip_sign (s : string) : Z * string :=
  match s with
  | String c r =>
      if Ascii.eqb c "-" then (-1, r)
      else if Ascii.eqb c "+" then (1, r)
      else (1, s)
  | EmptyString => (1, s)
  end.

(** The radix that [parseInt] chooses when it is given none: 16 after a
    [0x] or [0X] prefix, which it removes, and 10 otherwise. *)
Definition strip_radix (s : string) : Z * string :=
  match s with
  | String c0 (String c1 r) =>
      if Ascii.eqb c0 "0" && (Ascii.eqb c1 "x" || Ascii.eqb c1 "X")
      then (16, r) else (10, s)
  | _ => (10, s)
  end.

(** [parseInt(s)] without a radix argument: leading white space, an optional
    sign, an optional [0x] prefix, then the longest prefix of digits;
    [None] is [NaN]. *)
Definition parseInt (s : string) : option Z :=
  let '(sign, s2) := strip_sign (trimStart s) in
  let '(radix, s3) := strip_radix s2 in
  Z.mul sign <$> parseDigits radix None s3.

(** [a > b], [a >= b] and [a <= b] where [a] may be [NaN]. *)
Definition gt (a : option Z) (b : Z) : bool :=
  match a with Some x => b <? x | None => false end.
Definition ge (a : option Z) (b : Z) : bool :=
  match a with Some x => b <=? x | None => false end.
Definition le (a : option Z) (b : Z) : bool :=
  match a with Some x => x <=? b | None => false end.

Definition digitChar (d : Z) : ascii := ascii_of_N (48 + Z.to_N d).

(** Decimal digits of a non-negative integer, most significant first. *)
Fixpoint digits (fuel : nat) (n : Z) : string :=
  match fuel with
  | O => EmptyString
  | S f =>
      if n <? 10 then String (digitChar n) EmptyString
      else digits f (n / 10) +:+ String (digitChar (n mod 10)) EmptyString
  end.

Definition digits_of (n : Z) : string := digits (S (Z.to_nat (Z.log2 n))) n.

(** [String(n)] and the template-literal conversion of an integer [n]
    (decimal notation, which JavaScript uses below 10^21). *)
Definition Number_toString (n : Z) : string :=
  if n <? 0 then String "-" (digits_of (- n)) else digits_of n.

Fixpoint repeat0 (k : nat) : string :=
  match k with
  | O => EmptyString
  | S k' => String "0" (repeat0 k')
  end.

(** [(num / den).toFixed(f)] for integers [num] and [den > 0]
    (Number.prototype.toFixed, for values below 10^21): [n] is the integer
    nearest to [x * 10^f], the larger one on a tie; its decimal digits are
    padded to [f + 1] characters and the point is put before the last [f]. *)
Definition toFixed (num den : Z) (f : nat) : string :=
  let s := if num <? 0 then "-" else "" in
  let x := Z.abs num in
  let n := (2 * x * 10 ^ Z.of_nat f + den) / (2 * den) in
  let m := digits_of n in
  let m := if f is O then m
           else
             let k := String.length m in
             let m := if (k <=? f)%nat then repeat0 (f + 1 - k) +:+ m else m in
             let k := String.length m in
             String.substring 0 (k - f) m +:+ "." +:+ String.substring (k - f) f m in
  s +:+ m.

End JS.

(** ** The reactive script of the laptop form *)

(** *** [utils] *)

Module utils.

(** [parts.filter(Boolean)] on an array of strings, [null]s and [undefined]s. *)
Fixpoint filter_Boolean (parts : list (option string)) : list string :=
  match parts with
  | [] => []
  | Some p :: parts' =>
      if JS.truthy p then p :: filter_Boolean parts' else filter_Boolean parts'
  | None :: parts' => filter_Boolean parts'
  end.

(** The callback of the [forEach] in [cleanJoin]; [cleanParts] is the array
    it pushes to.  [cleanParts[cleanParts.length - 1]] is a list lookup, and
    [.toLowerCase()] on its result throws if the lookup finds nothing. *)
Definition cleanJoin_each (cleanParts : list string) (p : string)
  : completion (list string) :=
  let part := JS.trim p in
  if negb (JS.truthy part) then Normal cleanParts
  else
    keep ← (if (length cleanParts =? 0)%nat then Normal true
            else
              prev ← method_call (cleanParts !! (length cleanParts - 1)%nat)
                                 JS.toLowerCase;
              Normal (negb (String.eqb (JS.toLowerCase part) prev)));
    Normal (if keep : bool then cleanParts ++ [part] else cleanParts).

Definition cleanJoin (parts : list (option string)) : completion string :=
  cleanParts ← forEach cleanJoin_each (filter_Boolean parts) [];
  Normal (JS.join " " cleanParts).

(** The chain of range tests on [hRes]. *)
Definition resolution_label (hRes : option Z) : option string :=
  if JS.ge hRes 1800 && JS.le hRes 2000 then Some "FHD"
  else if JS.gt hRes 2000 && JS.le hRes 2600 then Some "2K"
  else if JS.gt hRes 2600 && JS.le hRes 2900 then Some "2.5K"
  else if JS.gt hRes 2900 && JS.le hRes 3400 then Some "3K"
  else if JS.gt hRes 3400 && JS.le hRes 4500 then Some "4K"
  else if JS.gt hRes 7000 && JS.le hRes 8500 then Some "8K"
  else None.

(** Past the first test [res] is a non-empty string, and [String(res)] is
    that string. *)
Definition mapResolution (res : option string) : option string :=
  if negb (JS.truthy_opt res) then None
  else
    match JS.match_digits 3 4 (default "" res) with
    | None => None
    | Some m1 => resolution_label (JS.parseInt m1)
    end.

End utils.

(** *** The form fields

    [document.getElementById(id)] looks an element up by its id; the form
    fields are input elements, which carry a string [value] and a boolean
    [checked]. *)

Record element : Type := { value : string; checked : bool }.

Abbreviation document := (gmap string element).

(** [document.getElementById(id)?.value || ''] *)
Definition field_value (doc : document) (id : string) : string :=
  match value <$> doc !! id with
  | Some v => if JS.truthy v then v else ""
  | None => ""
  end.

(** [document.getElementById(id)?.checked], taken as a condition. *)
Definition field_checked (doc : document) (id : string) : bool :=
  match checked <$> doc !! id with
  | Some b => b
  | None => false
  end.

(** [const target = document.getElementById(id); if (target) target.value = v;] *)
Definition set_target (doc : document) (id : string) (v : string) : document :=
  match doc !! id with
  | Some target => <[id := {| value := v; checked := checked target |}]> doc
  | None => doc
  end.

(** The inch mark, U+0022. *)
Definition inch_mark : string := String (ascii_of_N 34) EmptyString.

(** [parts.push(x)] *)
Definition push (parts : list (option string)) (x : string) : list (option string) :=
  parts ++ [Some x].

(** *** [reactiveLogic]

    Each [updateX] reads its fields, computes [fullName] and writes it to the
    name field.  The computation between the reads and the write is [formatX];
    the array it hands to [cleanJoin] is [X_parts]. *)

Module reactiveLogic.

(** Processor *)

Definition processor_parts (family generation model : string) : list (option string) :=
  let parts := [] in
  let parts := if JS.truthy generation then push parts generation else parts in
  let parts :=
    if JS.truthy family &&
       negb (JS.includes (JS.toLowerCase generation) (JS.toLowerCase family))
    then push parts family else parts in
  push parts model.

Definition formatProcessor (family generation model : string) : completion string :=
  utils.cleanJoin (processor_parts family generation model).

Definition updateProcessor (doc : document) : completion document :=
  let family := field_value doc "processor_family" in
  let generation := field_value doc "processor_generation" in
  let model := field_value doc "processor_model" in
  fullName ← formatProcessor family generation model;
  Normal (set_target doc "processor_full_name" fullName).

(** Screen *)

(** [!resLabel || hdType.toLowerCase() !== resLabel.toLowerCase()] *)
Definition hdType_differs (resLabel : option string) (hdType : string)
  : completion bool :=
  if negb (JS.truthy_opt resLabel) then Normal true
  else
    label ← method_call resLabel JS.toLowerCase;
    Normal (negb (String.eqb (JS.toLowerCase hdType) label)).

Definition screen_parts (diagonal resolution hdType panel refresh : string)
    (touch : bool) : completion (list (option string)) :=
  let resLabel := utils.mapResolution (Some resolution) in
  let parts := [] in
  let parts := if JS.truthy diagonal then push parts (diagonal +:+ inch_mark) else parts in
  let parts := if JS.truthy_opt resLabel then parts ++ [resLabel] else parts in
  parts ← (if JS.truthy hdType then
             differs ← hdType_differs resLabel hdType;
             Normal (if differs : bool then push parts hdType else parts)
           else Normal parts);
  let parts := if JS.truthy panel
               then push parts (JS.replace_g "-Level" "" panel) else parts in
  let parts := if JS.truthy refresh && JS.gt (JS.parseInt refresh) 60
               then push parts (refresh +:+ "Hz") else parts in
  let parts := if touch then push parts "Touch" else parts in
  Normal parts.

Definition formatScreen (diagonal resolution hdType panel refresh : string)
    (touch : bool) : completion string :=
  parts ← screen_parts diagonal resolution hdType panel refresh touch;
  utils.cleanJoin parts.

Definition updateScreen (doc : document) : completion document :=
  let diagonal := field_value doc "screen_diagonal_inches" in
  let resolution := field_value doc "screen_resolution" in
  let hdType := field_value doc "screen_hd_type" in
  let panel := field_value doc "screen_panel_type" in
  let refresh := field_value doc "screen_refresh_rate" in
  let touch := field_checked doc "screen_touchscreen_override" in
  fullName ← formatScreen diagonal resolution hdType panel refresh touch;
  Normal (set_target doc "screen_full_name" fullName).

(** Discrete GPU *)

Definition discreteGpu_parts (brand model memory type : string) : list (option string) :=
  let parts := [] in
  let parts :=
    if JS.truthy brand &&
       negb (JS.includes (JS.toLowerCase model) (JS.toLowerCase brand))
    then push parts brand else parts in
  let parts := push parts model in
  let parts := if JS.truthy memory then push parts (memory +:+ "GB") else parts in
  if JS.truthy type then push parts type else parts.

Definition formatDiscreteGpu (hasDiscrete : bool) (brand model memory type : string)
  : completion string :=
  if negb hasDiscrete then Normal ""
  else utils.cleanJoin (discreteGpu_parts brand model memory type).

Definition updateDiscreteGPU (doc : document) : completion document :=
  let hasDiscrete := field_checked doc "has_discrete_gpu" in
  if negb hasDiscrete then Normal (set_target doc "discrete_gpu_full_name" "")
  else
    let brand := field_value doc "discrete_gpu_brand" in
    let model := field_value doc "discrete_gpu_model" in
    let memory := field_value doc "discrete_gpu_memory_gb" in
    let type := field_value doc "discrete_gpu_memory_type" in
    fullName ← utils.cleanJoin (discreteGpu_parts brand model memory type);
    Normal (set_target doc "discrete_gpu_full_name" fullName).

(** Onboard GPU *)

Definition onboardGpu_parts (brand model family memory : string) : list (option string) :=
  let parts := [] in
  let parts :=
    if JS.truthy brand &&
       negb (JS.includes (JS.toLowerCase model) (JS.toLowerCase brand))
    then push parts brand else parts in
  let parts := push parts model in
  let parts :=
    if JS.truthy family &&
       negb (JS.includes (JS.toLowerCase model) (JS.toLowerCase family))
    then push parts family else parts in
  if JS.truthy memory then push parts (memory +:+ "GB") else parts.

Definition formatIntegratedGpu (brand model family memory : string) : completion string :=
  utils.cleanJoin (onboardGpu_parts brand model family memory).

Definition updateOnboardGPU (doc : document) : completion document :=
  let brand := field_value doc "onboard_gpu_brand" in
  let model := field_value doc "onboard_gpu_model" in
  let family := field_value doc "onboard_gpu_family" in
  let memory := field_value doc "onboard_gpu_memory_gb" in
  fullName ← formatIntegratedGpu brand model family memory;
  Normal (set_target doc "onboard_gpu_full_name" fullName).

(** Storage *)

(** [(parseInt(capacity) / 1024).toFixed(1)]; [NaN.toFixed(1)] is ["NaN"]. *)
Definition capacity_toFixed (n : option Z) : string :=
  match n with
  | Some n => JS.toFixed n 1024 1
  | None => "NaN"
  end.

Definition storage_capStr (capacity : string) : string :=
  if JS.truthy capacity && JS.ge (JS.parseInt capacity) 1024
  then JS.replace ".0" "" (capacity_toFixed (JS.parseInt capacity) +:+ "TB")
  else if JS.truthy capacity then capacity +:+ "GB"
  else capacity.

Definition storage_parts (capacity media : string) (nvme : bool) (formFactor : string)
  : list (option string) :=
  [Some (storage_capStr capacity); Some media;
   Some (if nvme then "NVMe" else ""); Some formFactor].

Definition formatStorage (capacity media : string) (nvme : bool) (formFactor : string)
  : completion string :=
  utils.cleanJoin (storage_parts capacity media nvme formFactor).

Definition updateStorage (doc : document) : completion document :=
  let capacity := field_value doc "storage_capacity" in
  let media := field_value doc "storage_media" in
  let nvme := field_checked doc "storage_nvme" in
  let formFactor := field_value doc "storage_form_factor" in
  fullName ← formatStorage capacity media nvme formFactor;
  Normal (set_target doc "storage_full_name" fullName).

(** RAM *)

Definition ram_parts (capacity type speed transfer : string) : list (option string) :=
  let parts := [] in
  let parts := if JS.truthy capacity then push parts (capacity +:+ "GB") else parts in
  let parts := if JS.truthy type then push parts type else parts in
  let parts := if JS.truthy speed then push parts (speed +:+ "MHz") else parts in
  if JS.truthy transfer then push parts (transfer +:+ "MT/s") else parts.

Definition formatRam (capacity type speed transfer : string) : completion string :=
  utils.cleanJoin (ram_parts capacity type speed transfer).

Definition updateRAM (doc : document) : completion document :=
  let capacity := field_value doc "ram_capacity" in
  let type := field_value doc "ram_type_detailed" in
  let speed := field_value doc "ram_speed_mhz" in
  let transfer := field_value doc "ram_transfer_rate" in
  fullName ← formatRam capacity type speed transfer;
  Normal (set_target doc "ram_full_name" fullName).

End reactiveLogic.

(** ** The Icecat importer

    [IcecatScanner.populateForm(product)] copies the product record into the
    form and assembles the component names itself.  The record comes from the
    server as JSON: text fields are strings or [null], numeric fields are
    numbers or [null], flags are booleans.  Only the name computations are
    embedded; each function is the block of [populateForm] that computes the
    value handed to [setVal] for the name field. *)

Module IcecatScanner.

Record pantalla : Type := {
  resolucion : option string;
  tipo_hd : option string;
  diagonal_pulgadas : option Z;
  tipo : option string;
  tasa_refresco_hz : option Z;
  tactil : bool
}.

Record tarjeta_grafica : Type := {
  tiene_dedicada : bool;
  marca_dedicada : option string;
  modelo_dedicado : option string;
  memoria_dedicada_gb : option Z;
  tipo_memoria_dedicada : option string;
  marca_integrada : option string;
  modelo_integrado : option string;
  familia_integrada : option string;
  memoria_integrada_gb : option Z
}.

Record almacenamiento : Type := {
  capacidad_total_gb : option Z;
  tipo_media : option string;
  nvme : bool;
  factor_forma_ssd : option string
}.

Record memoria_ram : Type := {
  capacidad_gb : option Z;
  ram_tipo : option string;
  velocidad_mhz : option Z;
  tasa_transferencia : option Z
}.

(** [v || ""] *)
Definition or_empty (v : option string) : string :=
  match v with
  | Some s => s
  | None => ""
  end.

(** A template literal around a number that the guard found truthy. *)
Definition number_text (v : option Z) : string :=
  match v with
  | Some n => JS.Number_toString n
  | None => "null"
  end.

(** The arrow function [mapResolution] local to [populateForm]. *)
Definition mapResolution (res : option string) : completion (option string) :=
  if negb (JS.truthy_opt res) then Normal None
  else
    m ← method_call res (JS.match_digits 3 4);
    match m with
    | None => Normal None
    | Some m1 => Normal (utils.resolution_label (JS.parseInt m1))
    end.

Definition screenFullName (p : pantalla) : completion string :=
  resLabel ← mapResolution (resolucion p);
  let parts :=
    [Some (if JS.truthy_num (diagonal_pulgadas p)
           then number_text (diagonal_pulgadas p) +:+ inch_mark else "")] in
  let parts := if JS.truthy_opt resLabel then parts ++ [resLabel] else parts in
  parts ← (if JS.truthy_opt (tipo_hd p) then
             differs ←
               (if negb (JS.truthy_opt resLabel) then Normal true
                else
                  hd ← method_call (tipo_hd p) JS.toLowerCase;
                  label ← method_call resLabel JS.toLowerCase;
                  Normal (negb (String.eqb hd label)));
             Normal (if differs : bool then parts ++ [tipo_hd p] else parts)
           else Normal parts);
  parts ← (if JS.truthy_opt (tipo p) then
             panel ← method_call (tipo p) (JS.replace_g "-Level" "");
             Normal (push parts panel)
           else Normal parts);
  let parts := if JS.truthy_num (tasa_refresco_hz p)
               then push parts (number_text (tasa_refresco_hz p) +:+ "Hz")
               else parts in
  Normal (JS.join " " (utils.filter_Boolean parts)).

(** The callback of the de-duplicating [forEach] written out in the GPU
    blocks: [cleanJoin]'s callback without the [trim]. *)
Definition dedup_each (cleanParts : list string) (p : string)
  : completion (list string) :=
  keep ← (if (length cleanParts =? 0)%nat then Normal true
          else
            prev ← method_call (cleanParts !! (length cleanParts - 1)%nat)
                               JS.toLowerCase;
            Normal (negb (String.eqb (JS.toLowerCase p) prev)));
  Normal (if keep : bool then cleanParts ++ [p] else cleanParts).

Definition dedup_join (parts : list (option string)) : completion string :=
  cleanParts ← forEach dedup_each (utils.filter_Boolean parts) [];
  Normal (JS.join " " cleanParts).

Definition discrete_parts (g : tarjeta_grafica) : list (option string) :=
  let brand := or_empty (marca_dedicada g) in
  let model := or_empty (modelo_dedicado g) in
  let parts := [] in
  let parts :=
    if JS.truthy brand &&
       negb (JS.includes (JS.toLowerCase model) (JS.toLowerCase brand))
    then push parts brand else parts in
  let parts := push parts model in
  let parts := push parts (if JS.truthy_num (memoria_dedicada_gb g)
                           then number_text (memoria_dedicada_gb g) +:+ "GB"
                           else "") in
  parts ++ [tipo_memoria_dedicada g].

(** [None]: the name field of the discrete GPU is not written. *)
Definition discreteFullName (g : tarjeta_grafica) : completion (option string) :=
  if tiene_dedicada g then
    name ← dedup_join (discrete_parts g);
    Normal (Some name)
  else Normal None.

Definition integrated_parts (g : tarjeta_grafica) : list (option string) :=
  let iBrand := or_empty (marca_integrada g) in
  let iModel := or_empty (modelo_integrado g) in
  let iFamily := or_empty (familia_integrada g) in
  let iParts := [] in
  let iParts :=
    if JS.truthy iBrand &&
       negb (JS.includes (JS.toLowerCase iModel) (JS.toLowerCase iBrand))
    then push iParts iBrand else iParts in
  let iParts := push iParts iModel in
  let iParts :=
    if JS.truthy iFamily &&
       negb (JS.includes (JS.toLowerCase iModel) (JS.toLowerCase iFamily))
    then push iParts iFamily else iParts in
  push iParts (if JS.truthy_num (memoria_integrada_gb g)
               then number_text (memoria_integrada_gb g) +:+ "GB"
               else "").

Definition integratedFullName (g : tarjeta_grafica) : completion string :=
  dedup_join (integrated_parts g).

Definition capacityStr (a : almacenamiento) : string :=
  if JS.truthy_num (capacidad_total_gb a) then
    if JS.ge (capacidad_total_gb a) 1024
    then JS.replace ".0" ""
           (reactiveLogic.capacity_toFixed (capacidad_total_gb a) +:+ "TB")
    else number_text (capacidad_total_gb a) +:+ "GB"
  else "".

Definition storageFullName (a : almacenamiento) : string :=
  JS.join " "
    (utils.filter_Boolean
       [Some (capacityStr a); tipo_media a;
        Some (if nvme a then "NVMe" else ""); factor_forma_ssd a]).

Definition ramFullName (r : memoria_ram) : string :=
  JS.join " "
    (utils.filter_Boolean
       [Some (if JS.truthy_num (capacidad_gb r)
              then number_text (capacidad_gb r) +:+ "GB" else "");
        ram_tipo r;
        Some (if JS.truthy_num (velocidad_mhz r)
              then number_text (velocidad_mhz r) +:+ "MHz" else "");
        Some (if JS.truthy_num (tasa_transferencia r)
              then number_text (tasa_transferencia r) +:+ "MT/s" else "")]).

End IcecatScanner.

(** ** The specification, by its own words

    These definitions follow the text of the specification; the theorems
    below compare the code with them. *)

Module Spec.

(** Number.MAX_SAFE_INTEGER: up to here every integer is a JavaScript number. *)
Definition MAX_SAFE_INTEGER : Z := 9007199254740991.

Definition ci_equal (a b : string) : bool :=
  String.eqb (JS.toLowerCase a) (JS.toLowerCase b).

(** [sub] occurs in [s], letter case aside. *)
Definition ci_substring (sub s : string) : bool :=
  JS.includes (JS.toLowerCase s) (JS.toLowerCase sub).

Definition blank (t : option string) : Prop :=
  match t with
  | Some s => JS.trim s = ""
  | None => True
  end.

(** 4.1, first step: the entries that are not null, undefined or empty
    after trim, in their order and without the surrounding white space. *)
Fixpoint present (tokens : list (option string)) : list string :=
  match tokens with
  | [] => []
  | None :: rest => present rest
  | Some t :: rest =>
      if String.eqb (JS.trim t) "" then present rest
      else JS.trim t :: present rest
  end.

(** 4.1, second step: a token is kept unless it is case-insensitively
    equal to [prev], the token kept immediately before it. *)
Fixpoint dedup_adjacent (prev : option string) (tokens : list string) : list string :=
  match tokens with
  | [] => []
  | t :: rest =>
      match prev with
      | Some p =>
          if ci_equal t p then dedup_adjacent prev rest
          else t :: dedup_adjacent (Some t) rest
      | None => t :: dedup_adjacent (Some t) rest
      end
  end.

Definition cleanJoin (tokens : list (option string)) : string :=
  JS.join " " (dedup_adjacent None (present tokens)).

(** 4.2: the text [s] starts with three digits. *)
Definition digits3 (s : string) : bool :=
  match s with
  | String a (String b (String c _)) => JS.isDigit a && JS.isDigit b && JS.isDigit c
  | _ => false
  end.

Definition starts_with_digit (s : string) : bool :=
  match s with
  | String c _ => JS.isDigit c
  | EmptyString => false
  end.

Fixpoint all_digits (s : string) : bool :=
  match s with
  | EmptyString => true
  | String c s' => JS.isDigit c && all_digits s'
  end.

Fixpoint no_digit (s : string) : bool :=
  match s with
  | EmptyString => true
  | String c s' => negb (JS.isDigit c) && no_digit s'
  end.

(** No three consecutive digits anywhere in [s]. *)
Definition no_run (s : string) : Prop :=
  forall p q, s = p +:+ q -> digits3 q = false.

(** [m] is the first run of three or four consecutive digits of [s]: it
    stands between [pre] and [post], no three digits start at an earlier
    place, and it stops after three digits only where no fourth follows. *)
Definition first_run (s pre m post : string) : Prop :=
  s = pre +:+ m +:+ post /\
  all_digits m = true /\
  (String.length m = 4%nat \/
   String.length m = 3%nat /\ starts_with_digit post = false) /\
  (forall p q, pre = p +:+ q -> q <> "" -> digits3 (q +:+ m +:+ post) = false).

(** The integer a string of decimal digits denotes. *)
Fixpoint decimal_from (acc : Z) (s : string) : Z :=
  match s with
  | EmptyString => acc
  | String c s' => decimal_from (acc * 10 + (JS.code c - 48)) s'
  end.

Definition decimal (s : string) : Z := decimal_from 0 s.

(** 4.2: the table of ranges. *)
Definition bucket (h : Z) : option string :=
  if (1800 <=? h) && (h <=? 2000) then Some "FHD"
  else if (2000 <? h) && (h <=? 2600) then Some "2K"
  else if (2600 <? h) && (h <=? 2900) then Some "2.5K"
  else if (2900 <? h) && (h <=? 3400) then Some "3K"
  else if (3400 <? h) && (h <=? 4500) then Some "4K"
  else if (7000 <? h) && (h <=? 8500) then Some "8K"
  else None.

(** 4.6: [num / den] to one decimal place: the nearest tenth (the upper one
    when two are equally near), written as integer part, point, tenth. *)
Definition nearest_tenth (num den : Z) : Z := (20 * num + den) / (2 * den).

Definition one_decimal (num den : Z) : string :=
  let t := nearest_tenth num den in
  JS.Number_toString (t / 10) +:+ "." +:+ JS.Number_toString (t mod 10).

(** [s] without its ending [suffix], if it ends with it. *)
Fixpoint strip_suffix (suffix s : string) : string :=
  if String.eqb s suffix then ""
  else match s with
       | EmptyString => EmptyString
       | String c s' => String c (strip_suffix suffix s')
       end.

(** [token] is the first of the tokens of [name], which single spaces
    separate. *)
Definition leads (token name : string) : Prop :=
  name = token \/ exists rest, name = token +:+ " " +:+ rest.

Definition tb_token (capacityGb : Z) : string :=
  strip_suffix ".0" (one_decimal capacityGb 1024) +:+ "TB".

Definition gb_token (capacityGb : Z) : string :=
  JS.Number_toString capacityGb +:+ "GB".

(** The token a text field contributes, with its unit: none when the
    field is empty. *)
Definition token (text suffix : string) : list string :=
  if JS.truthy text then [text +:+ suffix] else [].

(** The same for a field that is used as it stands. *)
Definition plain (text : string) : list string :=
  if JS.truthy text then [text] else [].

(** A fixed token that a flag switches on. *)
Definition flag (b : bool) (text : string) : list string :=
  if b then [text] else [].

(** A token that is left out when it already occurs in [within]. *)
Definition token_unless_in (text within : string) : list string :=
  if JS.truthy text && negb (ci_substring text within) then [text] else [].

(** 4.3 *)
Definition processor_tokens (family generation model : string) : list string :=
  plain generation ++ token_unless_in family generation ++ plain model.

(** 4.4 *)
Definition label_tokens (label : option string) : list string :=
  match label with
  | Some l => [l]
  | None => []
  end.

Definition hdType_tokens (hdType : string) (label : option string) : list string :=
  let same := match label with
              | Some l => ci_equal hdType l
              | None => false
              end in
  if JS.truthy hdType && negb same then [hdType] else [].

Definition panel_tokens (panelType : string) : list string :=
  plain (JS.replace_g "-Level" "" panelType).

Definition refresh_tokens (refresh : string) : list string :=
  if JS.gt (JS.parseInt refresh) 60 then token refresh "Hz" else [].

Definition screen_tokens (diagonal resolution hdType panelType refresh : string)
    (isTouch : bool) : list string :=
  let label := utils.mapResolution (Some resolution) in
  token diagonal inch_mark ++ label_tokens label ++ hdType_tokens hdType label ++
  panel_tokens panelType ++ refresh_tokens refresh ++ flag isTouch "Touch".

(** 4.5 *)
Definition discrete_tokens (brand model memory memoryType : string) : list string :=
  token_unless_in brand model ++ plain model ++ token memory "GB" ++ plain memoryType.

Definition integrated_tokens (brand model family memory : string) : list string :=
  token_unless_in brand model ++ plain model ++
  token_unless_in family model ++ token memory "GB".

(** 4.6, with the capacity token as the code computes it from the text. *)
Definition storage_tokens (capacity media : string) (isNvme : bool)
    (formFactor : string) : list string :=
  plain (reactiveLogic.storage_capStr capacity) ++ plain media ++
  flag isNvme "NVMe" ++ plain formFactor.

(** 4.7 *)
Definition ram_tokens (capacity typeDetailed speed transfer : string) : list string :=
  token capacity "GB" ++ plain typeDetailed ++ token speed "MHz" ++
  token transfer "MT/s".

End Spec.

(** ** The form script: [init] and its listeners

    [init] registers the [updateX] as listeners of their fields and then
    fills the name fields that are empty.  Whether a field is a checkbox
    ([el.type === 'checkbox']) is a matter of the page's markup, which is not
    part of the script: it is the parameter [is_checkbox]. *)

Module LaptopReactiveNames.

Inductive event : Type := input | change.

Definition event_eqb (a b : event) : bool :=
  match a, b with
  | input, input | change, change => true
  | _, _ => false
  end.

(** One [el.addEventListener(type, callback)], with the id of [el]. *)
Record listener : Type := {
  listener_id : string;
  listener_type : event;
  listener_callback : document -> completion document
}.

(** The array [listeners] of [init]: the ids of a group and its callback. *)
Definition listeners : list (list string * (document -> completion document)) :=
  [ (["processor_family"; "processor_generation"; "processor_model"],
     reactiveLogic.updateProcessor);
    (["screen_diagonal_inches"; "screen_resolution"; "screen_hd_type";
      "screen_panel_type"; "screen_refresh_rate"; "screen_touchscreen_override"],
     reactiveLogic.updateScreen);
    (["has_discrete_gpu"; "discrete_gpu_brand"; "discrete_gpu_model";
      "discrete_gpu_memory_gb"; "discrete_gpu_memory_type"],
     reactiveLogic.updateDiscreteGPU);
    (["onboard_gpu_brand"; "onboard_gpu_model"; "onboard_gpu_family";
      "onboard_gpu_memory_gb"],
     reactiveLogic.updateOnboardGPU);
    (["storage_capacity"; "storage_media"; "storage_nvme"; "storage_form_factor"],
     reactiveLogic.updateStorage);
    (["ram_capacity"; "ram_type_detailed"; "ram_speed_mhz"; "ram_transfer_rate"],
     reactiveLogic.updateRAM) ].

(** The callback of [group.ids.forEach]; [registered] is what has been
    registered so far.  An element that is not there gets no listener. *)
Definition register_id (is_checkbox : string -> bool) (doc : document)
    (callback : document -> completion document)
    (registered : list listener) (id : string) : list listener :=
  match doc !! id with
  | Some el =>
      let eventType := if is_checkbox id then change else input in
      let registered :=
        registered ++ [{| listener_id := id; listener_type := eventType;
                          listener_callback := callback |}] in
      if negb (event_eqb eventType change)
      then registered ++ [{| listener_id := id; listener_type := change;
                             listener_callback := callback |}]
      else registered
  | None => registered
  end.

(** [listeners.forEach(group => group.ids.forEach(...))] *)
Definition register_all (is_checkbox : string -> bool) (doc : document)
  : list listener :=
  fold_left
    (fun registered group =>
       fold_left (register_id is_checkbox doc (snd group)) (fst group) registered)
    listeners [].

(** [if (!document.getElementById(id)?.value) update();] *)
Definition run_if_empty (id : string) (update : document -> completion document)
    (doc : document) : completion document :=
  if negb (JS.truthy_opt (value <$> doc !! id)) then update doc else Normal doc.

(** The initial run at the end of [init]. *)
Definition initial_run (doc : document) : completion document :=
  doc ← run_if_empty "processor_full_name" reactiveLogic.updateProcessor doc;
  doc ← run_if_empty "screen_full_name" reactiveLogic.updateScreen doc;
  doc ← run_if_empty "discrete_gpu_full_name" reactiveLogic.updateDiscreteGPU doc;
  doc ← run_if_empty "onboard_gpu_full_name" reactiveLogic.updateOnboardGPU doc;
  doc ← run_if_empty "storage_full_name" reactiveLogic.updateStorage doc;
  run_if_empty "ram_full_name" reactiveLogic.updateRAM doc.

(** [init]: the listeners it has registered and the form it leaves. *)
Definition init (is_checkbox : string -> bool) (doc : document)
  : completion (list listener * document) :=
  let registered := register_all is_checkbox doc in
  doc' ← initial_run doc;
  Normal (registered, doc').

(** [el.dispatchEvent(new Event(type))] on the element with the given id: the
    listeners registered on it for the type run in the order of their
    registration.  What a listener throws is reported, not passed on to the
    dispatcher. *)
Definition dispatchEvent (registered : list listener) (id : string) (type : event)
    (doc : document) : document :=
  fold_left
    (fun doc l =>
       if String.eqb (listener_id l) id && event_eqb (listener_type l) type
       then match listener_callback l doc with
            | Normal doc' => doc'
            | Throw => doc
            end
       else doc)
    registered doc.

End LaptopReactiveNames.

(** ** The importer: [populateForm] writing the form

    [populateForm] writes the product into the form through its two helpers
    [setVal] and [setCheck], which dispatch a change event on the field they
    have written, so that the listeners of the form script run in between.
    [registered] is what has been registered on the page by
    [addEventListener]; [window.jQuery(el).trigger('change')] runs handlers
    bound through jQuery, of which the form script has none.

    Each [if (product.x) { ... }] of [populateForm] is one function here,
    named after the property [x]. *)

Module populateForm.

Section page.

Context (registered : list LaptopReactiveNames.listener).

(** [setVal(id, val)]: the form it leaves and what it returns. *)
Definition setVal (id : string) (val : option string) (doc : document)
  : document * bool :=
  match doc !! id with
  | Some el =>
      let doc :=
        <[id := {| value := IcecatScanner.or_empty val; checked := checked el |}]> doc in
      (LaptopReactiveNames.dispatchEvent registered id LaptopReactiveNames.change doc,
       true)
  | None => (doc, false)
  end.

(** [setCheck(id, val)], for [val] with Boolean(val) = [b]. *)
Definition setCheck (id : string) (b : bool) (doc : document) : document * bool :=
  match doc !! id with
  | Some el =>
      let doc := <[id := {| value := value el; checked := b |}]> doc in
      (LaptopReactiveNames.dispatchEvent registered id LaptopReactiveNames.change doc,
       true)
  | None => (doc, false)
  end.

(** A number assigned to [el.value] is converted to its text. *)
Definition number_value (v : option Z) : option string := JS.Number_toString <$> v.




(** [modelo_dedicado || modelo_integrado] *)
Definition gpuModel (g : IcecatScanner.tarjeta_grafica) : option string :=
  if JS.truthy_opt (IcecatScanner.modelo_dedicado g)
  then IcecatScanner.modelo_dedicado g
  else IcecatScanner.modelo_integrado g.

Definition tarjeta_grafica_block (g : option IcecatScanner.tarjeta_grafica)
    (doc : document) : completion document :=
  match g with
  | None => Normal doc
  | Some g =>
      let doc := (setVal "graphics_card_id" (gpuModel g) doc).1 in
      let doc := (setCheck "has_discrete_gpu" (IcecatScanner.tiene_dedicada g) doc).1 in
      let doc := (setVal "discrete_gpu_brand" (IcecatScanner.marca_dedicada g) doc).1 in
      let doc := (setVal "discrete_gpu_model" (IcecatScanner.modelo_dedicado g) doc).1 in
      let doc := (setVal "discrete_gpu_memory_gb"
                    (number_value (IcecatScanner.memoria_dedicada_gb g)) doc).1 in
      let doc := (setVal "discrete_gpu_memory_type"
                    (IcecatScanner.tipo_memoria_dedicada g) doc).1 in
      discrete ← IcecatScanner.discreteFullName g;
      let doc := match discrete with
                 | Some name => (setVal "discrete_gpu_full_name" (Some name) doc).1
                 | None => doc
                 end in
      let doc := (setVal "onboard_gpu_brand" (IcecatScanner.marca_integrada g) doc).1 in
      let doc := (setVal "onboard_gpu_model" (IcecatScanner.modelo_integrado g) doc).1 in
      let doc := (setVal "onboard_gpu_family" (IcecatScanner.familia_integrada g) doc).1 in
      let doc := (setVal "onboard_gpu_memory_gb"
                    (number_value (IcecatScanner.memoria_integrada_gb g)) doc).1 in
      integrated ← IcecatScanner.integratedFullName g;
      Normal (setVal "onboard_gpu_full_name" (Some integrated) doc).1
  end.

(** The capacity text of the storage block, [`${(capacidad_total_gb /
    1024).toFixed(1)}TB`.replace('.0', '')], for a capacity of at least 1024
    that is the fraction [num / den], with [den > 0]: the importer divides
    the number as it comes. *)
Definition capacityStr_terabytes (num den : Z) : string :=
  JS.replace ".0" "" (JS.toFixed num (den * 1024) 1 +:+ "TB").


(** [ampliable] is the property of that name of [product.memoria_ram]. *)
Definition memoria_ram_block (r : option IcecatScanner.memoria_ram)
    (ampliable : bool) (doc : document) : document :=
  match r with
  | None => doc
  | Some r =>
      let doc := (setVal "ram_id" (IcecatScanner.ram_tipo r) doc).1 in
      let doc := (setVal "ram_capacity"
                    (number_value (IcecatScanner.capacidad_gb r)) doc).1 in
      let doc := (setVal "ram_type_detailed" (IcecatScanner.ram_tipo r) doc).1 in
      let doc := (setVal "ram_speed_mhz"
                    (number_value (IcecatScanner.velocidad_mhz r)) doc).1 in
      let doc := (setVal "ram_transfer_rate"
                    (number_value (IcecatScanner.tasa_transferencia r)) doc).1 in
      let doc := (setCheck "ram_upgradeable" ampliable doc).1 in
      (setVal "ram_full_name" (Some (IcecatScanner.ramFullName r)) doc).1
  end.

End page.

End populateForm.

(** ** The importer: the page around the form

    The methods of [IcecatScanner] that do not compose names work on the
    page: the elements the constructor has looked up, the two elements of
    the loading indicator, the gallery, and what the user is told.  A call is
    followed from its start to its end, the page being left alone by
    everything else while it awaits. *)

(** A computation on a state [S] that returns or throws; what it has done
    before it throws stays done. *)
Definition action (S A : Type) : Type := S -> completion A * S.

#[global] Instance action_ret {S : Type} : MRet (action S) :=
  fun A a s => (Normal a, s).
#[global] Instance action_bind {S : Type} : MBind (action S) :=
  fun A B f m s =>
    match m s with
    | (Normal a, s') => f a s'
    | (Throw, s') => (Throw, s')
    end.

(** [throw] *)
Definition throw {S A : Type} : action S A := fun s => (Throw, s).

(** [try { body } catch (err) { handler }] *)
Definition try_catch {S A : Type} (body handler : action S A) : action S A :=
  fun s =>
    match body s with
    | (Normal a, s') => (Normal a, s')
    | (Throw, s') => handler s'
    end.

(** [try { body } finally { final }] *)
Definition try_finally {S A : Type} (body : action S A) (final : action S unit)
  : action S A :=
  fun s =>
    match body s with
    | (r, s') =>
        match final s' with
        | (Normal _, s'') => (r, s'')
        | (Throw, s'') => (Throw, s'')
        end
    end.

Module IcecatScannerPage.

(** An element of the page, as far as the scanner uses it; [classList] is
    taken as the set of its tokens. *)
Record node : Type := {
  classList : gset string;
  disabled : bool;
  textContent : string
}.

(** What leaves the page. *)
Inductive io : Type :=
  | alert (message : string)
  | showNotification (message type : string)
  | fetch (url : string)
  | addImagesFromUrls (imageUrls : list string).

(** A card of the gallery: its [data-index] and the [src] of its image. *)
Record card : Type := {
  data_index : string;
  src : string
}.

(** The page.  An element that is not there is [None]; [gtinInput] is the
    value of the input, [form] the fields that are found by their id. *)
Record page : Type := {
  gtinInput : option string;
  btnFetchIcecat : option node;
  fetch_text : option node;
  fetch_spinner : option node;
  has_showNotification : bool;
  form : document;
  laptop_form : bool;
  images_container : option (list card);
  has_LaptopGalleryHybrid : bool;
  output : list io
}.

Definition classList_add (token : string) (el : node) : node :=
  {| classList := {[token]} ∪ classList el;
     disabled := disabled el; textContent := textContent el |}.

Definition classList_remove (token : string) (el : node) : node :=
  {| classList := classList el ∖ {[token]};
     disabled := disabled el; textContent := textContent el |}.

Definition set_disabled (b : bool) (el : node) : node :=
  {| classList := classList el; disabled := b; textContent := textContent el |}.

Definition set_fetch_text (el : option node) (s : page) : page :=
  {| gtinInput := gtinInput s; btnFetchIcecat := btnFetchIcecat s;
     fetch_text := el; fetch_spinner := fetch_spinner s;
     has_showNotification := has_showNotification s; form := form s;
     laptop_form := laptop_form s; images_container := images_container s;
     has_LaptopGalleryHybrid := has_LaptopGalleryHybrid s; output := output s |}.

Definition set_fetch_spinner (el : option node) (s : page) : page :=
  {| gtinInput := gtinInput s; btnFetchIcecat := btnFetchIcecat s;
     fetch_text := fetch_text s; fetch_spinner := el;
     has_showNotification := has_showNotification s; form := form s;
     laptop_form := laptop_form s; images_container := images_container s;
     has_LaptopGalleryHybrid := has_LaptopGalleryHybrid s; output := output s |}.

Definition set_btnFetchIcecat (el : option node) (s : page) : page :=
  {| gtinInput := gtinInput s; btnFetchIcecat := el;
     fetch_text := fetch_text s; fetch_spinner := fetch_spinner s;
     has_showNotification := has_showNotification s; form := form s;
     laptop_form := laptop_form s; images_container := images_container s;
     has_LaptopGalleryHybrid := has_LaptopGalleryHybrid s; output := output s |}.

Definition set_form (doc : document) (s : page) : page :=
  {| gtinInput := gtinInput s; btnFetchIcecat := btnFetchIcecat s;
     fetch_text := fetch_text s; fetch_spinner := fetch_spinner s;
     has_showNotification := has_showNotification s; form := doc;
     laptop_form := laptop_form s; images_container := images_container s;
     has_LaptopGalleryHybrid := has_LaptopGalleryHybrid s; output := output s |}.

Definition set_images_container (cards : option (list card)) (s : page) : page :=
  {| gtinInput := gtinInput s; btnFetchIcecat := btnFetchIcecat s;
     fetch_text := fetch_text s; fetch_spinner := fetch_spinner s;
     has_showNotification := has_showNotification s; form := form s;
     laptop_form := laptop_form s; images_container := cards;
     has_LaptopGalleryHybrid := has_LaptopGalleryHybrid s; output := output s |}.

(** One more thing leaves the page. *)
Definition emit (e : io) : action page unit :=
  fun s =>
    (Normal tt,
     {| gtinInput := gtinInput s; btnFetchIcecat := btnFetchIcecat s;
        fetch_text := fetch_text s; fetch_spinner := fetch_spinner s;
        has_showNotification := has_showNotification s; form := form s;
        laptop_form := laptop_form s; images_container := images_container s;
        has_LaptopGalleryHybrid := has_LaptopGalleryHybrid s;
        output := output s ++ [e] |}).

(** [el.m(...)] or [el.p = ...] on one of the three elements of the loading
    indicator: a TypeError when the element is not there. *)
Definition on_fetch_text (f : node -> node) : action page unit :=
  fun s =>
    match fetch_text s with
    | Some el => (Normal tt, set_fetch_text (Some (f el)) s)
    | None => (Throw, s)
    end.

Definition on_fetch_spinner (f : node -> node) : action page unit :=
  fun s =>
    match fetch_spinner s with
    | Some el => (Normal tt, set_fetch_spinner (Some (f el)) s)
    | None => (Throw, s)
    end.

Definition on_btnFetchIcecat (f : node -> node) : action page unit :=
  fun s =>
    match btnFetchIcecat s with
    | Some el => (Normal tt, set_btnFetchIcecat (Some (f el)) s)
    | None => (Throw, s)
    end.

Definition setLoading (isLoading : bool) : action page unit :=
  if isLoading then
    on_fetch_text (classList_add "hidden");;
    on_fetch_spinner (classList_remove "hidden");;
    on_btnFetchIcecat (set_disabled true);;
    on_btnFetchIcecat (classList_add "opacity-70")
  else
    on_fetch_text (classList_remove "hidden");;
    on_fetch_spinner (classList_add "hidden");;
    on_btnFetchIcecat (set_disabled false);;
    on_btnFetchIcecat (classList_remove "opacity-70").

(** The texts shown to the user; the letter o with an acute accent is the
    code unit 243. *)
Definition o_acute : string := String (ascii_of_N 243) EmptyString.

Definition msg_gtin : string :=
  "Por favor ingresa un c" +:+ o_acute +:+ "digo GTIN (UPC/EAN)".

Definition msg_connection : string :=
  "Error de conexi" +:+ o_acute +:+ "n al servidor".

Definition msg_not_found : string :=
  "No se encontr" +:+ o_acute +:+ " el producto en Icecat".

(** [if (window.showNotification) { ... } else { alert(...) }] *)
Definition notify_loaded : action page unit :=
  fun s =>
    if has_showNotification s
    then emit (showNotification "Datos cargados desde Icecat exitosamente"
                                "success") s
    else emit (alert "Datos cargados exitosamente") s.

Section fetchData.

(** What the server sends is not in the repository, nor is the whole of
    [populateForm] modelled: the product is of any type, and [populateForm]
    is any computation on the page. *)
Context {Product : Type}.

(** The JSON value of the response, as far as [fetchData] looks at it:
    [data.success] is truthy and [data.product] is the product, or
    [data.success] is falsy and [data.message] is a text or missing. *)
Inductive data : Type :=
  | succeeded (product : Product)
  | failed (message : option string).

(** What [await fetch(url)] followed by [await response.json()] gives: one
    of the two rejects, or the JSON value is [null], or it is a [data]. *)
Inductive response : Type :=
  | rejects
  | resolves (json : option data).

Context (server : string -> response).
Context (populateForm : Product -> action page unit).

Definition fetchData : action page unit :=
  fun s =>
    match gtinInput s with
    | None => (Throw, s)
    | Some v =>
        let gtin := JS.trim v in
        if negb (JS.truthy gtin) then emit (alert msg_gtin) s
        else
          (setLoading true;;
           try_finally
             (try_catch
                (let url := "/api/icecat/fetch/" +:+ gtin in
                 emit (fetch url);;
                 match server url with
                 | rejects => throw
                 | resolves None => throw
                 | resolves (Some (succeeded product)) =>
                     populateForm product;;
                     notify_loaded
                 | resolves (Some (failed message)) =>
                     emit (alert ("Error: " +:+
                                  (if JS.truthy_opt message
                                   then IcecatScanner.or_empty message
                                   else msg_not_found)))
                 end)
                (emit (alert msg_connection)))
             (setLoading false)) s
    end.

End fetchData.

(** [xs.forEach((x, index) => ...)], from the index [index] on. *)
Fixpoint forEach_from {A : Type} (f : A -> nat -> action page unit)
    (index : nat) (xs : list A) : action page unit :=
  match xs with
  | [] => mret tt
  | x :: xs' => f x index;; forEach_from f (S index) xs'
  end.

(** [`image_${slotIndex}_url`] *)
Definition image_url_id (slotIndex : Z) : string :=
  "image_" +:+ JS.Number_toString slotIndex +:+ "_url".

(** The cards of [images_container] are the elements below the container
    that carry a [data-index]; [src] is the url as it is put into the
    markup of the new card. *)
Definition addGalleryPreview (url : string) (index : Z) : action page unit :=
  fun s =>
    match images_container s with
    | None => (Normal tt, s)
    | Some cards =>
        let existingCard :=
          List.find (fun c => String.eqb (data_index c) (JS.Number_toString index))
                    cards in
        match existingCard with
        | Some _ => (Normal tt, s)
        | None =>
            let card := {| data_index := JS.Number_toString index; src := url |} in
            (Normal tt, set_images_container (Some (cards ++ [card])) s)
        end
    end.

(** The callback of [imageUrls.forEach] in the fallback of [loadImages]. *)
Definition loadImages_each (url : string) (index : nat) : action page unit :=
  let slotIndex := Z.of_nat index + 1 in
  let id := image_url_id slotIndex in
  (fun s =>
     match form s !! id with
     | Some urlInput => (Normal tt, s)
     | None =>
         if laptop_form s
         then (Normal tt,
               set_form (<[id := {| value := ""; checked := false |}]> (form s)) s)
         else (Throw, s)
     end);;
  (fun s => (Normal tt, set_form (set_target (form s) id url) s));;
  addGalleryPreview url slotIndex.

Definition loadImages (imageUrls : list string) : action page unit :=
  fun s =>
    match images_container s with
    | None => (Normal tt, s)
    | Some _ =>
        if has_LaptopGalleryHybrid s
        then emit (addImagesFromUrls imageUrls) s
        else forEach_from loadImages_each 0 imageUrls s
    end.

End IcecatScannerPage.

(** ** The importer: the camera scanner

    [startScanner], [stopScanner] and [toggleScanner] work on the scanner
    object and three elements of the page.  The camera library, the browser
    and the user are outside the repository: whether the context is secure,
    whether there is a camera interface, whether [new Html5Qrcode] returns,
    and how the promises of [start] and [stop] settle are parameters.  The
    callback that [start] is given for a decoded text is not followed. *)

Module IcecatScannerCamera.

Import IcecatScannerPage.

Record scanner : Type := {
  html5QrCode : bool;
  isScannerRunning : bool;
  scannerContainer : option node;
  scannerPlaceholder : option node;
  btnToggleScanner : option node;
  alerts : list string
}.

(** [el.classList.replace(oldToken, newToken)] *)
Definition classList_replace (oldToken newToken : string) (el : node) : node :=
  if bool_decide (oldToken ∈ classList el)
  then {| classList := {[newToken]} ∪ (classList el ∖ {[oldToken]});
          disabled := disabled el; textContent := textContent el |}
  else el.

Definition set_textContent (text : string) (el : node) : node :=
  {| classList := classList el; disabled := disabled el; textContent := text |}.

(** [this.html5QrCode = ...]: [true] for an object, [false] for [null]. *)
Definition set_html5QrCode (b : bool) : action scanner unit :=
  fun s =>
    (Normal tt,
     {| html5QrCode := b; isScannerRunning := isScannerRunning s;
        scannerContainer := scannerContainer s;
        scannerPlaceholder := scannerPlaceholder s;
        btnToggleScanner := btnToggleScanner s; alerts := alerts s |}).

Definition set_isScannerRunning (b : bool) : action scanner unit :=
  fun s =>
    (Normal tt,
     {| html5QrCode := html5QrCode s; isScannerRunning := b;
        scannerContainer := scannerContainer s;
        scannerPlaceholder := scannerPlaceholder s;
        btnToggleScanner := btnToggleScanner s; alerts := alerts s |}).

(** [alert(message)] *)
Definition show_alert (message : string) : action scanner unit :=
  fun s =>
    (Normal tt,
     {| html5QrCode := html5QrCode s; isScannerRunning := isScannerRunning s;
        scannerContainer := scannerContainer s;
        scannerPlaceholder := scannerPlaceholder s;
        btnToggleScanner := btnToggleScanner s;
        alerts := alerts s ++ [message] |}).

(** A method call or an assignment on one of the three elements: a
    TypeError when the element is not there. *)
Definition on_scannerContainer (f : node -> node) : action scanner unit :=
  fun s =>
    match scannerContainer s with
    | Some el =>
        (Normal tt,
         {| html5QrCode := html5QrCode s; isScannerRunning := isScannerRunning s;
            scannerContainer := Some (f el);
            scannerPlaceholder := scannerPlaceholder s;
            btnToggleScanner := btnToggleScanner s; alerts := alerts s |})
    | None => (Throw, s)
    end.

Definition on_scannerPlaceholder (f : node -> node) : action scanner unit :=
  fun s =>
    match scannerPlaceholder s with
    | Some el =>
        (Normal tt,
         {| html5QrCode := html5QrCode s; isScannerRunning := isScannerRunning s;
            scannerContainer := scannerContainer s;
            scannerPlaceholder := Some (f el);
            btnToggleScanner := btnToggleScanner s; alerts := alerts s |})
    | None => (Throw, s)
    end.

Definition on_btnToggleScanner (f : node -> node) : action scanner unit :=
  fun s =>
    match btnToggleScanner s with
    | Some el =>
        (Normal tt,
         {| html5QrCode := html5QrCode s; isScannerRunning := isScannerRunning s;
            scannerContainer := scannerContainer s;
            scannerPlaceholder := scannerPlaceholder s;
            btnToggleScanner := Some (f el); alerts := alerts s |})
    | None => (Throw, s)
    end.

(** A call of an async method that is not awaited: what it throws does not
    reach the caller. *)
Definition detached (m : action scanner unit) : action scanner unit :=
  fun s => (Normal tt, (m s).2).

(** The letters with an acute accent of the texts, as code units. *)
Definition a_acute : string := String (ascii_of_N 225) EmptyString.
Definition i_acute : string := String (ascii_of_N 237) EmptyString.
Definition u_acute : string := String (ascii_of_N 250) EmptyString.

Definition msg_secure : string :=
  "Error: El scanner de c" +:+ a_acute +:+ "mara requiere una conexi" +:+ o_acute
  +:+ "n segura (HTTPS) para funcionar en este navegador. Si est" +:+ a_acute
  +:+ "s en una red local, usa 'localhost' o configura un certificado SSL.".

Definition msg_unsupported : string :=
  "Error: Tu navegador no soporta el acceso a la c" +:+ a_acute
  +:+ "mara o est" +:+ a_acute +:+ " bloqueado por pol" +:+ i_acute
  +:+ "ticas de seguridad.".

(** What [start] rejects with: [err.name] and [err.message], each possibly
    undefined. *)
Record error : Type := {
  name : option string;
  message : option string
}.

(** [err.name === a || err.name === b] *)
Definition named (err : error) (a b : string) : bool :=
  match name err with
  | Some n => String.eqb n a || String.eqb n b
  | None => false
  end.

(** The text of the alert in the [catch] of [startScanner]. *)
Definition start_message (err : error) : string :=
  let message := "No se pudo iniciar la c" +:+ a_acute +:+ "mara." in
  if named err "NotAllowedError" "PermissionDeniedError" then
    message +:+ " El acceso fue denegado. Por favor, concede permisos de c"
    +:+ a_acute +:+ "mara en los ajustes de tu navegador/iPhone."
  else if named err "NotFoundError" "DevicesNotFoundError" then
    message +:+ " No se encontr" +:+ o_acute +:+ " ninguna c" +:+ a_acute
    +:+ "mara disponible en este dispositivo."
  else if named err "NotReadableError" "TrackStartError" then
    message +:+ " La c" +:+ a_acute +:+ "mara ya est" +:+ a_acute
    +:+ " siendo usada por otra aplicaci" +:+ o_acute
    +:+ "n o hay un error de hardware."
  else
    message +:+ " Aseg" +:+ u_acute
    +:+ "rate de dar permisos y de que ninguna otra app use la c" +:+ a_acute
    +:+ "mara. Detalle: "
    +:+ match IcecatScannerCamera.message err with
        | Some m => m
        | None => "undefined"
        end.

Section camera.

Context (isSecureContext : bool).
(** [navigator.mediaDevices && navigator.mediaDevices.getUserMedia] *)
Context (getUserMedia : bool).
(** [new Html5Qrcode("reader")] returns. *)
Context (Html5Qrcode : bool).
(** The promise of [start]: resolved, or rejected with an error. *)
Context (start : option error).
(** The promise of [stop] resolves. *)
Context (stop : bool).

Definition stopScanner : action scanner unit :=
  (fun s =>
     if html5QrCode s then
       (try_catch (if stop then mret tt else throw) (mret tt);;
        set_html5QrCode false) s
     else (Normal tt, s));;
  set_isScannerRunning false;;
  on_scannerContainer (classList_add "hidden");;
  on_scannerPlaceholder (classList_remove "hidden");;
  on_btnToggleScanner
    (set_textContent ("Iniciar C" +:+ a_acute +:+ "mara Scanner"));;
  on_btnToggleScanner (classList_replace "bg-red-500" "bg-indigo-500");;
  on_btnToggleScanner (classList_replace "hover:bg-red-400" "hover:bg-indigo-400").

Definition startScanner : action scanner unit :=
  if negb isSecureContext then show_alert msg_secure
  else if negb getUserMedia then show_alert msg_unsupported
  else
    on_scannerContainer (classList_remove "hidden");;
    on_scannerPlaceholder (classList_add "hidden");;
    on_btnToggleScanner (set_textContent "Detener Scanner");;
    on_btnToggleScanner (classList_replace "bg-indigo-500" "bg-red-500");;
    on_btnToggleScanner (classList_replace "hover:bg-indigo-400" "hover:bg-red-400");;
    (if Html5Qrcode then set_html5QrCode true else throw);;
    try_catch
      ((match start with
        | None => mret tt
        | Some err => throw
        end);;
       set_isScannerRunning true)
      (match start with
       | Some err => show_alert (start_message err);; detached stopScanner
       | None => mret tt
       end).

Definition toggleScanner : action scanner unit :=
  fun s =>
    if isScannerRunning s then stopScanner s
    else detached startScanner s.

End camera.

End IcecatScannerCamera.

(** ** Notions used in the proofs *)

(** [f] is enough fuel for [JS.digits] to write [n] out. *)
Definition enough (f : nat) (n : Z) : Prop := (0 < f)%nat /\ 0 <= n < 2 ^ Z.of_nat f.

(** Text made of white space only. *)
Fixpoint all_space (s : string) : bool :=
  match s with
  | EmptyString => true
  | String c s' => JS.isWhiteSpace c && all_space s'
  end.

(** ** Notions of the form and the page used in the proofs *)

(** The six name fields, each with the [updateX] that writes it. *)
Definition updates : list (string * (document -> completion document)) :=
  [ ("processor_full_name", reactiveLogic.updateProcessor);
    ("screen_full_name", reactiveLogic.updateScreen);
    ("discrete_gpu_full_name", reactiveLogic.updateDiscreteGPU);
    ("onboard_gpu_full_name", reactiveLogic.updateOnboardGPU);
    ("storage_full_name", reactiveLogic.updateStorage);
    ("ram_full_name", reactiveLogic.updateRAM) ].

Definition name_fields : list string := fst <$> updates.

(** Text that does not start with white space. *)
Definition head_ok (s : string) : bool :=
  match s with
  | EmptyString => true
  | String c _ => negb (JS.isWhiteSpace c)
  end.

(** Text that does not end with white space. *)
Fixpoint last_ok (s : string) : bool :=
  match s with
  | EmptyString => true
  | String c s' =>
      match s' with
      | EmptyString => negb (JS.isWhiteSpace c)
      | String _ _ => last_ok s'
      end
  end.

(** The six conditional runs of [initial_run], as a loop over a list. *)
Fixpoint run_each (us : list (string * (document -> completion document)))
    (doc : document) : completion document :=
  match us with
  | [] => Normal doc
  | (t, u) :: us' =>
      doc' ← LaptopReactiveNames.run_if_empty t u doc; run_each us' doc'
  end.

(** The fields [init] listens to, each with the callback of its group. *)
Definition listened : list (string * (document -> completion document)) :=
  group ← LaptopReactiveNames.listeners;
  (fun id => (id, snd group)) <$> fst group.

(** What running a listener leaves: a listener that throws leaves the form
    as it found it. *)
Definition run_listener (callback : document -> completion document)
    (doc : document) : document :=
  match callback doc with
  | Normal doc' => doc'
  | Throw => doc
  end.

(** [doc'] has the elements of [doc], and differs from it at most at [ids]. *)
Definition touches (ids : list string) (doc doc' : document) : Prop :=
  dom doc' = dom doc /\ forall id, id ∉ ids -> doc' !! id = doc !! id.

(** [const el = document.getElementById(id); if (el) el.checked = b;] *)
Definition set_checked (doc : document) (id : string) (b : bool) : document :=
  match doc !! id with
  | Some el => <[id := {| value := value el; checked := b |}]> doc
  | None => doc
  end.

(** The discrete GPU is not ticked and, if [cleared], its name is empty. *)
Definition no_discrete (cleared : bool) (d : document) : Prop :=
  field_checked d "has_discrete_gpu" = false /\
  (cleared = true -> value <$> d !! "discrete_gpu_full_name" = Some "").

(** The three elements of the loading indicator. *)
Definition indicator (s : IcecatScannerPage.page)
  : option IcecatScannerPage.node * option IcecatScannerPage.node *
    option IcecatScannerPage.node :=
  (IcecatScannerPage.fetch_text s, IcecatScannerPage.fetch_spinner s,
   IcecatScannerPage.btnFetchIcecat s).

(** The card [addGalleryPreview] makes for the image of index [k]. *)
Definition preview (k : nat) (url : string) : IcecatScannerPage.card :=
  {| IcecatScannerPage.data_index := JS.Number_toString (Z.of_nat k + 1);
     IcecatScannerPage.src := url |}.

(** [classList.replace] on the set of tokens. *)
Definition replace_token (oldToken newToken : string) (tokens : gset string)
  : gset string :=
  if bool_decide (oldToken ∈ tokens)
  then {[newToken]} ∪ (tokens ∖ {[oldToken]})
  else tokens.

(** * Properties of the library functions *)

Section strings.

Lemma str_app_nil_l (s : string) : "" +:+ s = s.
Proof. reflexivity. Qed.

Lemma str_app_cons (c : ascii) (s t : string) : String c s +:+ t = String c (s +:+ t).
Proof. reflexivity. Qed.

Lemma str_app_nil_r (s : string) : s +:+ "" = s.
Proof. induction s as [|c s IH]; [done|]. by rewrite str_app_cons, IH. Qed.

Lemma str_app_assoc (s t u : string) : (s +:+ t) +:+ u = s +:+ t +:+ u.
Proof. induction s as [|c s IH]; [done|]. by rewrite !str_app_cons, IH. Qed.

Lemma str_length_app (s t : string) :
  String.length (s +:+ t) = (String.length s + String.length t)%nat.
Proof. induction s as [|c s IH]; [done|]. rewrite str_app_cons. simpl. by rewrite IH. Qed.

Lemma str_app_eq_nil (s t : string) : s +:+ t = "" -> s = "" /\ t = "".
Proof. destruct s; [done|]. rewrite str_app_cons. discriminate. Qed.

Lemma truthy_true (s : string) : JS.truthy s = true <-> s <> "".
Proof. destruct s; simpl; split; congruence. Qed.

Lemma truthy_false (s : string) : JS.truthy s = false <-> s = "".
Proof. destruct s; simpl; split; congruence. Qed.

Lemma truthy_app (s t : string) : JS.truthy s = true -> JS.truthy (s +:+ t) = true.
Proof. by destruct s. Qed.

Lemma prefix_nil (s : string) : String.prefix "" s = true.
Proof. by destruct s. Qed.

End strings.

(** Characters by their code. *)

Section characters.

Lemma between_spec (lo hi : Z) (c : ascii) :
  JS.between lo hi c = true <-> lo <= JS.code c <= hi.
Proof. unfold JS.between. rewrite andb_true_iff, !Z.leb_le. tauto. Qed.

Lemma isDigit_spec (c : ascii) : JS.isDigit c = true <-> 48 <= JS.code c <= 57.
Proof. apply between_spec. Qed.

Lemma eqb_by_code (c d : ascii) : JS.code c <> JS.code d -> Ascii.eqb c d = false.
Proof. intros H. apply Ascii.eqb_neq. intros ->. by apply H. Qed.

Lemma digit_not_space (c : ascii) : JS.isDigit c = true -> JS.isWhiteSpace c = false.
Proof.
  rewrite isDigit_spec. intros H. unfold JS.isWhiteSpace, JS.between.
  repeat match goal with
         | |- context [?a <=? ?b] => destruct (Z.leb_spec a b)
         | |- context [?a =? ?b] => destruct (Z.eqb_spec a b)
         end; simpl; try reflexivity; lia.
Qed.

Lemma code_digitChar (d : Z) : 0 <= d < 10 -> JS.code (JS.digitChar d) = 48 + d.
Proof.
  intros H. unfold JS.code, JS.digitChar.
  rewrite N_ascii_embedding; lia.
Qed.

Lemma isDigit_digitChar (d : Z) : 0 <= d < 10 -> JS.isDigit (JS.digitChar d) = true.
Proof. intros H. apply isDigit_spec. rewrite code_digitChar; lia. Qed.

Lemma digitValue_digit (c : ascii) :
  JS.isDigit c = true -> JS.digitValue 10 c = Some (JS.code c - 48).
Proof.
  intros H. unfold JS.digitValue. fold (JS.isDigit c). rewrite H.
  apply isDigit_spec in H.
  destruct (Z.ltb_spec (JS.code c - 48) 10); [done | lia].
Qed.

End characters.

(** Decimal digits: [Number_toString] and [parseInt] are inverse. *)

Section decimal.

Lemma decimal_from_snoc (a : Z) (s : string) (c : ascii) :
  Spec.decimal_from a (s +:+ String c "") = Spec.decimal_from a s * 10 + (JS.code c - 48).
Proof.
  revert a. induction s as [|c' s IH]; intros a; [done|].
  rewrite str_app_cons. simpl. apply IH.
Qed.

Lemma all_digits_app (s t : string) :
  Spec.all_digits (s +:+ t) = Spec.all_digits s && Spec.all_digits t.
Proof.
  induction s as [|c s IH]; [done|].
  rewrite str_app_cons. simpl. by rewrite IH, andb_assoc.
Qed.

Lemma enough_step (f : nat) (n : Z) : enough (S f) n -> 10 <= n -> enough f (n / 10).
Proof.
  intros [_ [H0 H]] Hn.
  rewrite Nat2Z.inj_succ, Z.pow_succ_r in H by lia.
  assert (n / 10 < 2 ^ Z.of_nat f) by (apply Z.div_lt_upper_bound; lia).
  assert (1 <= n / 10) by (apply Z.div_le_lower_bound; lia).
  split; [|lia].
  destruct f; [|lia]. simpl in *. lia.
Qed.

Lemma enough_digits_of (n : Z) : 0 <= n -> enough (S (Z.to_nat (Z.log2 n))) n.
Proof.
  intros H. split; [lia|]. split; [done|].
  rewrite Nat2Z.inj_succ, Z2Nat.id by apply Z.log2_nonneg.
  destruct (Z.eq_dec n 0) as [->|]; [done|].
  apply Z.log2_spec. lia.
Qed.

Lemma digits_enough (f1 f2 : nat) (n : Z) :
  enough f1 n -> enough f2 n -> JS.digits f1 n = JS.digits f2 n.
Proof.
  revert f2 n. induction f1 as [|f1 IH]; intros f2 n H1 H2.
  { destruct H1; lia. }
  destruct f2 as [|f2]; [destruct H2; lia|].
  simpl. destruct (Z.ltb_spec n 10); [done|].
  f_equal. apply IH; by apply enough_step.
Qed.

(** The recursion that [digits_of] solves. *)
Lemma digits_of_eq (n : Z) :
  0 <= n ->
  JS.digits_of n =
    if n <? 10 then String (JS.digitChar n) ""
    else JS.digits_of (n / 10) +:+ String (JS.digitChar (n mod 10)) "".
Proof.
  intros H. unfold JS.digits_of at 1. simpl.
  destruct (Z.ltb_spec n 10); [done|].
  f_equal. apply digits_enough.
  - apply enough_step; [by apply enough_digits_of | done].
  - apply enough_digits_of. apply Z.div_pos; lia.
Qed.

(** Induction on a non-negative integer by its decimal digits. *)
Lemma decimal_ind (P : Z -> Prop) :
  (forall n, 0 <= n < 10 -> P n) ->
  (forall n, 10 <= n -> P (n / 10) -> P n) ->
  forall n, 0 <= n -> P n.
Proof.
  intros Hbase Hstep n Hn. generalize Hn. pattern n.
  apply Z_lt_induction; [|done]. clear n Hn. intros m IHm Hm.
  destruct (Z_lt_dec m 10); [apply Hbase; lia|].
  assert (0 <= m / 10 < m) by (split; [apply Z.div_pos; lia | apply Z.div_lt; lia]).
  apply Hstep; [lia|]. apply IHm; lia.
Qed.

Lemma digits_of_all_digits (n : Z) : 0 <= n -> Spec.all_digits (JS.digits_of n) = true.
Proof.
  intros Hn. pattern n. apply decimal_ind; [| |done]; clear n Hn.
  - intros n Hn. rewrite digits_of_eq by lia.
    destruct (Z.ltb_spec n 10); [|lia]. simpl. by rewrite isDigit_digitChar.
  - intros n Hn IH. rewrite digits_of_eq by lia.
    destruct (Z.ltb_spec n 10); [lia|].
    rewrite all_digits_app, IH. simpl.
    rewrite isDigit_digitChar; [done|]. apply Z.mod_pos_bound. lia.
Qed.

Lemma digits_of_nonempty (n : Z) : 0 <= n -> JS.truthy (JS.digits_of n) = true.
Proof.
  intros Hn. rewrite digits_of_eq by done.
  destruct (n <? 10); [done|].
  destruct (JS.digits_of (n / 10)); done.
Qed.

Lemma decimal_digits_of (n : Z) : 0 <= n -> Spec.decimal (JS.digits_of n) = n.
Proof.
  intros Hn. pattern n. apply decimal_ind; [| |done]; clear n Hn.
  - intros n Hn. rewrite digits_of_eq by lia.
    destruct (Z.ltb_spec n 10); [|lia].
    unfold Spec.decimal. simpl. rewrite code_digitChar; lia.
  - intros n Hn IH. rewrite digits_of_eq by lia.
    destruct (Z.ltb_spec n 10); [lia|].
    unfold Spec.decimal in *. rewrite decimal_from_snoc, IH.
    rewrite code_digitChar by (apply Z.mod_pos_bound; lia).
    pose proof (Z.div_mod n 10). lia.
Qed.

End decimal.

(** [parseInt] on decimal text. *)

(** Arithmetic on character codes, with the codes of literals computed. *)
Ltac code_lia :=
  unfold JS.code in *;
  repeat match goal with
         | |- context [N_of_ascii (Ascii ?a ?b ?c ?d ?e ?f ?g ?h)] =>
             let v := eval vm_compute in (N_of_ascii (Ascii a b c d e f g h)) in
             change (N_of_ascii (Ascii a b c d e f g h)) with v
         end;
  lia.

Section parseInt.

Lemma parseDigits_digits (a : Z) (s : string) :
  Spec.all_digits s = true ->
  JS.parseDigits 10 (Some a) s = Some (Spec.decimal_from a s).
Proof.
  revert a. induction s as [|c s IH]; intros a H; [done|].
  simpl in H. apply andb_true_iff in H as [Hc Hs].
  simpl. rewrite (digitValue_digit c Hc). simpl. by apply IH.
Qed.

Lemma trimStart_digit (c : ascii) (s : string) :
  JS.isDigit c = true -> JS.trimStart (String c s) = String c s.
Proof. intros H. simpl. by rewrite (digit_not_space c H). Qed.

Lemma strip_sign_digit (c : ascii) (s : string) :
  JS.isDigit c = true -> JS.strip_sign (String c s) = (1, String c s).
Proof.
  intros H. apply isDigit_spec in H. unfold JS.strip_sign.
  rewrite !eqb_by_code; [done | |]; code_lia.
Qed.

Lemma strip_radix_digits (s : string) :
  Spec.all_digits s = true -> JS.strip_radix s = (10, s).
Proof.
  destruct s as [|c0 [|c1 s]]; [done..|]. simpl.
  intros H. apply andb_true_iff in H as [_ H]. apply andb_true_iff in H as [H _].
  apply isDigit_spec in H.
  rewrite (eqb_by_code c1 "x"), (eqb_by_code c1 "X"), andb_false_r; [done | |];
    code_lia.
Qed.

Lemma parseInt_digits (s : string) :
  Spec.all_digits s = true -> JS.truthy s = true ->
  JS.parseInt s = Some (Spec.decimal s).
Proof.
  intros Hs Hne. destruct s as [|c s]; [done|].
  pose proof Hs as Hc. simpl in Hc. apply andb_true_iff in Hc as [Hc Hs'].
  unfold JS.parseInt. rewrite (trimStart_digit c s Hc), (strip_sign_digit c s Hc).
  rewrite (strip_radix_digits _ Hs). simpl.
  rewrite (digitValue_digit c Hc). simpl.
  rewrite (parseDigits_digits _ _ Hs'). simpl. unfold Spec.decimal. simpl.
  f_equal. destruct (Spec.decimal_from _ s); done.
Qed.

Lemma Number_toString_truthy (n : Z) : JS.truthy (JS.Number_toString n) = true.
Proof.
  unfold JS.Number_toString. destruct (Z.ltb_spec n 0); [done|].
  by apply digits_of_nonempty.
Qed.

(** Reading back what [String(n)] wrote gives [n]. *)
Lemma parseInt_Number_toString (n : Z) : JS.parseInt (JS.Number_toString n) = Some n.
Proof.
  unfold JS.Number_toString. destruct (Z.ltb_spec n 0) as [Hn|Hn].
  - assert (Hd : Spec.all_digits (JS.digits_of (- n)) = true)
      by (apply digits_of_all_digits; lia).
    assert (Hne : JS.truthy (JS.digits_of (- n)) = true)
      by (apply digits_of_nonempty; lia).
    pose proof (decimal_digits_of (- n) ltac:(lia)) as Hv.
    destruct (JS.digits_of (- n)) as [|c s] eqn:E; [done|].
    pose proof Hd as Hc. simpl in Hc. apply andb_true_iff in Hc as [Hc Hs'].
    unfold JS.parseInt. cbn [JS.trimStart].
    replace (JS.isWhiteSpace "-") with false by (by vm_compute).
    cbn [JS.strip_sign]. replace (Ascii.eqb "-" "-") with true by (by vm_compute).
    rewrite (strip_radix_digits _ Hd). simpl.
    rewrite (digitValue_digit c Hc). simpl.
    rewrite (parseDigits_digits _ _ Hs'). simpl.
    unfold Spec.decimal in Hv. simpl in Hv. f_equal.
    destruct (Spec.decimal_from _ s); lia.
  - rewrite parseInt_digits.
    + by rewrite decimal_digits_of.
    + by apply digits_of_all_digits.
    + by apply digits_of_nonempty.
Qed.

End parseInt.

(** [toFixed(1)] and the removal of [.0]. *)

Section toFixed.

Lemma substring_0_app (a b : string) :
  String.substring 0 (String.length a) (a +:+ b) = a.
Proof.
  induction a as [|c a IH]; [by destruct b|].
  rewrite str_app_cons. simpl. by rewrite IH.
Qed.

Lemma substring_skip_app (a b : string) (n : nat) :
  String.substring (String.length a) n (a +:+ b) = String.substring 0 n b.
Proof. induction a as [|c a IH]; [done|]. by rewrite str_app_cons. Qed.

(** The digits of [n], padded and cut by [toFixed(1)], are the digits of
    [n / 10], the point, and the last digit. *)
Lemma toFixed1_digits (num den : Z) :
  0 <= num -> 0 < den ->
  JS.toFixed num den 1 = Spec.one_decimal num den.
Proof.
  intros Hnum Hden. unfold JS.toFixed, Spec.one_decimal, Spec.nearest_tenth.
  destruct (Z.ltb_spec num 0); [lia|]. rewrite str_app_nil_l.
  rewrite Z.abs_eq by done.
  replace (2 * num * 10 ^ Z.of_nat 1) with (20 * num) by (simpl; lia).
  set (n := (20 * num + den) / (2 * den)).
  assert (Hn : 0 <= n) by (apply Z.div_pos; lia).
  assert (H10 : 0 <= n mod 10 < 10) by (apply Z.mod_pos_bound; lia).
  unfold JS.Number_toString.
  destruct (Z.ltb_spec (n / 10) 0) as [Hq|Hq];
    [pose proof (Z.div_pos n 10 Hn ltac:(lia)); lia|].
  destruct (Z.ltb_spec (n mod 10) 0); [lia|].
  rewrite (digits_of_eq (n mod 10)) by lia.
  destruct (Z.ltb_spec (n mod 10) 10); [|lia].
  rewrite (digits_of_eq n Hn).
  destruct (Z.ltb_spec n 10) as [Hlt|Hge].
  - rewrite Z.div_small, Z.mod_small by lia. by vm_compute (JS.digits_of 0).
  - pose proof (digits_of_nonempty (n / 10) Hq) as Hne.
    set (a := JS.digits_of (n / 10)) in *.
    set (c := JS.digitChar (n mod 10)).
    rewrite str_length_app. simpl String.length.
    assert (Hlen : (0 < String.length a)%nat) by (destruct a; [done | simpl; lia]).
    destruct (Nat.leb_spec (String.length a + 1) 1); [lia|].
    rewrite !str_length_app. simpl String.length.
    replace (String.length a + 1 - 1)%nat with (String.length a) by lia.
    by rewrite substring_0_app, substring_skip_app.
Qed.

(** The tenth that [toFixed(1)] prints is within one twentieth of the number. *)
Lemma nearest_tenth_near (num den : Z) :
  0 < den ->
  let t := Spec.nearest_tenth num den in
  2 * den * t <= 20 * num + den < 2 * den * (t + 1).
Proof.
  intros Hden t. unfold t, Spec.nearest_tenth.
  pose proof (Z.div_mod (20 * num + den) (2 * den) ltac:(lia)).
  pose proof (Z.mod_pos_bound (20 * num + den) (2 * den) ltac:(lia)).
  lia.
Qed.

Lemma prefix_cons_ne (p c : ascii) (ps s : string) :
  c <> p -> String.prefix (String p ps) (String c s) = false.
Proof. intros H. simpl. destruct (ascii_dec p c); [congruence | done]. Qed.

Lemma prefix_cons_eq (c : ascii) (ps s : string) :
  String.prefix (String c ps) (String c s) = String.prefix ps s.
Proof. simpl. destruct (ascii_dec c c); [done | congruence]. Qed.

Lemma digit_not_point (c : ascii) : JS.isDigit c = true -> c <> "."%char.
Proof. intros H ->. by vm_compute in H. Qed.

Lemma replace_cons (pat rep : string) (c : ascii) (s : string) :
  JS.replace pat rep (String c s) =
    if String.prefix pat (String c s)
    then rep +:+ JS.drop (String.length pat) (String c s)
    else String c (JS.replace pat rep s).
Proof. done. Qed.

Lemma strip_suffix_cons (suffix : string) (c : ascii) (s : string) :
  Spec.strip_suffix suffix (String c s) =
    if String.eqb (String c s) suffix then ""
    else String c (Spec.strip_suffix suffix s).
Proof. done. Qed.

(** In text made of digits, a point, one digit and then letters, the first
    [.0] can only be the point with a zero after it. *)
Lemma replace_point_zero (a : string) (d : ascii) :
  Spec.all_digits a = true -> JS.isDigit d = true ->
  JS.replace ".0" "" (a +:+ String "." (String d "TB")) =
    Spec.strip_suffix ".0" (a +:+ String "." (String d "")) +:+ "TB".
Proof.
  intros Ha Hd. induction a as [|c a IH].
  - rewrite !str_app_nil_l.
    destruct (Ascii.eqb_spec d "0") as [->|Hne]; [done|].
    rewrite replace_cons, prefix_cons_eq, (prefix_cons_ne "0" d) by done.
    rewrite replace_cons, (prefix_cons_ne "." d) by (by apply digit_not_point).
    rewrite !strip_suffix_cons.
    assert (Heq : String.eqb (String "." (String d "")) ".0" = false).
    { apply String.eqb_neq. congruence. }
    rewrite Heq.
    assert (Heq' : String.eqb (String d "") ".0" = false).
    { apply String.eqb_neq. intros H. by inversion H. }
    rewrite Heq'. done.
  - simpl in Ha. apply andb_true_iff in Ha as [Hc Ha].
    rewrite !(str_app_cons c a).
    rewrite replace_cons, (prefix_cons_ne "." c) by (by apply digit_not_point).
    rewrite strip_suffix_cons.
    assert (Heq : String.eqb (String c (a +:+ String "." (String d ""))) ".0" = false).
    { apply String.eqb_neq. intros [=]. by apply (digit_not_point c). }
    rewrite Heq, str_app_cons. f_equal. by apply IH.
Qed.

End toFixed.

(** * [cleanJoin] against 4.1 *)

Section cleanJoin.

Lemma present_filter_Boolean (parts : list (option string)) :
  Spec.present (Some <$> utils.filter_Boolean parts) = Spec.present parts.
Proof.
  induction parts as [|[p|] parts IH]; [done| |done].
  destruct p as [|c p]; [done|].
  cbn [utils.filter_Boolean JS.truthy]. rewrite fmap_cons.
  cbn [Spec.present]. by rewrite IH.
Qed.

Lemma lookup_last (l : list string) : l !! (length l - 1)%nat = last l.
Proof. rewrite last_lookup. f_equal. lia. Qed.

(** The loop invariant of [cleanJoin]: what has been pushed stays, and the
    rest is filtered against the last token pushed. *)
Lemma forEach_cleanJoin_each (toks cleanParts : list string) :
  forEach utils.cleanJoin_each toks cleanParts =
    Normal (cleanParts ++
            Spec.dedup_adjacent (last cleanParts) (Spec.present (Some <$> toks))).
Proof.
  revert cleanParts. induction toks as [|p toks IH]; intros cleanParts.
  { simpl. by rewrite List.app_nil_r. }
  rewrite fmap_cons. cbn [forEach Spec.present]. unfold utils.cleanJoin_each.
  destruct (JS.trim p) as [|c part] eqn:Etrim.
  { simpl. apply IH. }
  cbn [JS.truthy negb String.eqb].
  destruct cleanParts as [|x xs _] using rev_ind.
  - simpl. rewrite IH. simpl. done.
  - rewrite lookup_last, last_snoc.
    assert (Hlen : (length (xs ++ [x]) =? 0)%nat = false).
    { rewrite length_app. simpl. apply Nat.eqb_neq. lia. }
    rewrite Hlen. cbn [method_call mbind completion_bind Spec.dedup_adjacent].
    unfold Spec.ci_equal.
    destruct (String.eqb (JS.toLowerCase (String c part)) (JS.toLowerCase x)); simpl.
    + rewrite IH. by rewrite last_snoc.
    + rewrite IH. rewrite last_snoc, <- List.app_assoc. done.
Qed.

Lemma cleanJoin_refines (parts : list (option string)) :
  utils.cleanJoin parts = Normal (Spec.cleanJoin parts).
Proof.
  unfold utils.cleanJoin, Spec.cleanJoin.
  rewrite forEach_cleanJoin_each. simpl. by rewrite present_filter_Boolean.
Qed.

Lemma present_app (l1 l2 : list (option string)) :
  Spec.present (l1 ++ l2) = Spec.present l1 ++ Spec.present l2.
Proof.
  induction l1 as [|[t|] l1 IH]; simpl; [done| |done].
  destruct (String.eqb (JS.trim t) ""); [done|]. simpl. by rewrite IH.
Qed.


Lemma present_all_blank (parts : list (option string)) :
  Forall Spec.blank parts <-> Spec.present parts = [].
Proof.
  induction parts as [|t parts IH]; [done|]. rewrite Forall_cons, IH.
  destruct t as [t|]; simpl; [|tauto].
  destruct (String.eqb_spec (JS.trim t) ""); [tauto|].
  split; [tauto | discriminate].
Qed.


Lemma join_leads (x : string) (xs : list string) :
  Spec.leads x (JS.join " " (x :: xs)).
Proof.
  destruct xs as [|y ys]; [by left|].
  right. by exists (JS.join " " (y :: ys)).
Qed.

Lemma join_empty (xs : list string) :
  Forall (fun x => x <> "") xs -> JS.join " " xs = "" -> xs = [].
Proof.
  destruct xs as [|x [|y ys]]; [done| |].
  - simpl. intros H%Forall_cons. tauto.
  - intros H%Forall_cons. cbn [JS.join]. intros [Hx _]%str_app_eq_nil. tauto.
Qed.

Lemma present_nonempty (parts : list (option string)) :
  Forall (fun x => x <> "") (Spec.present parts).
Proof.
  induction parts as [|[t|] parts IH]; simpl; [done| |done].
  destruct (String.eqb_spec (JS.trim t) ""); [done|]. by constructor.
Qed.

Lemma dedup_adjacent_sub (prev : option string) (toks : list string) :
  Forall (fun x => x <> "") toks ->
  Forall (fun x => x <> "") (Spec.dedup_adjacent prev toks).
Proof.
  revert prev. induction toks as [|t toks IH]; intros prev H; [done|].
  apply Forall_cons in H as [Ht H]. simpl.
  destruct prev as [p|]; [destruct (Spec.ci_equal t p)|]; auto.
Qed.

(** The output is empty exactly when every token is blank. *)
Lemma cleanJoin_empty_iff (parts : list (option string)) :
  Spec.cleanJoin parts = "" <-> Forall Spec.blank parts.
Proof.
  rewrite present_all_blank. unfold Spec.cleanJoin. split.
  - intros H. apply join_empty in H; [|apply dedup_adjacent_sub, present_nonempty].
    destruct (Spec.present parts); [done | discriminate].
  - by intros ->.
Qed.

(** The first token, when it is not blank, starts the output. *)
Lemma cleanJoin_first (t : string) (rest : list (option string)) :
  JS.trim t <> "" -> Spec.leads (JS.trim t) (Spec.cleanJoin (Some t :: rest)).
Proof.
  intros Ht. unfold Spec.cleanJoin. simpl.
  destruct (String.eqb_spec (JS.trim t) ""); [done|]. simpl. apply join_leads.
Qed.

End cleanJoin.

(** * The regular expression of [mapResolution] *)

Section match_digits.

Lemma take_digits_split (n : nat) (s : string) :
  exists post,
    s = JS.take_digits n s +:+ post /\
    Spec.all_digits (JS.take_digits n s) = true /\
    (String.length (JS.take_digits n s) = n \/ Spec.starts_with_digit post = false).
Proof.
  revert s. induction n as [|n IH]; intros s.
  { exists s. destruct s; auto. }
  destruct s as [|c s]; [exists ""; auto|].
  simpl. destruct (JS.isDigit c) eqn:Hc.
  - destruct (IH s) as (post & Hs & Hd & Hlen). exists post.
    rewrite str_app_cons, <- Hs. simpl. rewrite Hc, Hd.
    split; [done|]. split; [done|]. destruct Hlen; auto.
  - exists (String c s). simpl. rewrite Hc. auto.
Qed.

Lemma take_digits_all (n : nat) (m post : string) :
  Spec.all_digits m = true ->
  String.length m = n \/ Spec.starts_with_digit post = false ->
  (String.length m <= n)%nat ->
  JS.take_digits n (m +:+ post) = m.
Proof.
  revert m. induction n as [|n IH]; intros m Hm Hend Hlen.
  { destruct m; [|simpl in Hlen; lia]. by destruct post. }
  destruct m as [|c m].
  - destruct Hend as [|Hpost]; [done|]. rewrite str_app_nil_l.
    destruct post as [|c post]; [done|]. simpl in *. by rewrite Hpost.
  - simpl in Hm. apply andb_true_iff in Hm as [Hc Hm].
    rewrite str_app_cons. simpl. rewrite Hc. f_equal.
    apply IH; [done| |simpl in Hlen; lia].
    destruct Hend as [Hl|]; [left; simpl in Hl; lia | by right].
Qed.

Lemma take_digits_3 (s : string) :
  (3 <=? String.length (JS.take_digits 4 s))%nat = Spec.digits3 s.
Proof.
  destruct s as [|a [|b [|c s]]]; simpl; try done.
  - by destruct (JS.isDigit a).
  - destruct (JS.isDigit a); [|done]. by destruct (JS.isDigit b).
  - destruct (JS.isDigit a); [|done]. destruct (JS.isDigit b); [|done].
    destruct (JS.isDigit c); [|done]. simpl.
    destruct s as [|d s]; [done|]. by destruct (JS.isDigit d).
Qed.

Lemma match_digits_cons (c : ascii) (s : string) :
  JS.match_digits 3 4 (String c s) =
    if Spec.digits3 (String c s) then Some (JS.take_digits 4 (String c s))
    else JS.match_digits 3 4 s.
Proof.
  rewrite <- take_digits_3. cbn [JS.match_digits].
  by destruct (3 <=? String.length (JS.take_digits 4 (String c s)))%nat.
Qed.

Lemma digits3_app (m post : string) :
  Spec.all_digits m = true -> (3 <= String.length m)%nat ->
  Spec.digits3 (m +:+ post) = true.
Proof.
  destruct m as [|a [|b [|c m]]]; cbn [String.length]; try lia.
  cbn [Spec.all_digits].
  intros [Ha [Hb [Hc _]%andb_true_iff]%andb_true_iff]%andb_true_iff _.
  rewrite !str_app_cons. cbn [Spec.digits3]. by rewrite Ha, Hb, Hc.
Qed.

(** The first run of three or four digits is what the expression captures. *)
Lemma first_run_match (s pre m post : string) :
  Spec.first_run s pre m post -> JS.match_digits 3 4 s = Some m.
Proof.
  intros (-> & Hm & Hlen & Hpre). induction pre as [|c pre IH].
  - rewrite str_app_nil_l.
    assert (Hd3 : Spec.digits3 (m +:+ post) = true).
    { apply digits3_app; [done|]. destruct Hlen as [->|[-> _]]; lia. }
    assert (Htake : JS.take_digits 4 (m +:+ post) = m).
    { apply take_digits_all; [done| |]; destruct Hlen as [->|[-> ?]]; auto. }
    destruct (m +:+ post) as [|c s] eqn:E; [done|].
    by rewrite match_digits_cons, Hd3, Htake.
  - rewrite str_app_cons, match_digits_cons.
    rewrite <- str_app_cons, (Hpre "" (String c pre)) by done.
    apply IH. intros p q -> Hq.
    apply (Hpre (String c p) q); by rewrite ?str_app_cons.
Qed.

Lemma no_run_match (s : string) : Spec.no_run s -> JS.match_digits 3 4 s = None.
Proof.
  induction s as [|c s IH]; intros H; [done|].
  rewrite match_digits_cons, (H "" (String c s)) by done.
  apply IH. intros p q ->. by apply (H (String c p) q).
Qed.

(** Every text has no run of three digits, or a first one. *)
Lemma run_or_not (s : string) :
  (Spec.no_run s /\ JS.match_digits 3 4 s = None) \/
  (exists pre m post, Spec.first_run s pre m post /\ JS.match_digits 3 4 s = Some m).
Proof.
  induction s as [|c s IH].
  - left. split; [|done]. intros p q H.
    symmetry in H. apply str_app_eq_nil in H as [_ ->]. done.
  - rewrite match_digits_cons. destruct (Spec.digits3 (String c s)) eqn:Hd3.
    + right. destruct (take_digits_split 4 (String c s)) as (post & Hs & Hd & Hlen).
      exists "", (JS.take_digits 4 (String c s)), post.
      split; [|done]. split; [by rewrite str_app_nil_l|]. split; [done|].
      split.
      * rewrite <- take_digits_3 in Hd3. apply Nat.leb_le in Hd3.
        destruct Hlen as [Hl|Hp]; [by left|].
        assert (String.length (JS.take_digits 4 (String c s)) <= 4)%nat.
        { clear. generalize (String c s). generalize 4%nat.
          induction n as [|n IH]; intros [|a t]; simpl; try lia.
          destruct (JS.isDigit a); simpl; [|lia]. specialize (IH t). lia. }
        destruct (decide (String.length (JS.take_digits 4 (String c s)) = 4%nat));
          [by left | right; split; [lia | done]].
      * intros p q Hpq Hq. symmetry in Hpq.
        apply str_app_eq_nil in Hpq as [_ ->]. done.
    + destruct IH as [[Hno Hm]|(pre & m & post & Hrun & Hm)].
      * left. split; [|done]. intros [|a p] q H.
        { rewrite str_app_nil_l in H. by subst. }
        rewrite str_app_cons in H. injection H as -> ->. by apply (Hno p q).
      * right. exists (String c pre), m, post. split; [|done].
        destruct Hrun as (-> & Hd & Hlen & Hpre).
        split; [by rewrite str_app_cons|]. split; [done|]. split; [done|].
        intros [|a p] q H Hq.
        { rewrite str_app_nil_l in H. subst q. by rewrite str_app_cons. }
        rewrite str_app_cons in H. injection H as -> ->. by apply (Hpre p q).
Qed.

Lemma resolution_label_bucket (h : Z) :
  utils.resolution_label (Some h) = Spec.bucket h.
Proof. done. Qed.

(** The chain of tests read as a table of ranges. *)
Lemma resolution_label_table (h : Z) :
  (1800 <= h <= 2000 -> utils.resolution_label (Some h) = Some "FHD") /\
  (2000 < h <= 2600 -> utils.resolution_label (Some h) = Some "2K") /\
  (2600 < h <= 2900 -> utils.resolution_label (Some h) = Some "2.5K") /\
  (2900 < h <= 3400 -> utils.resolution_label (Some h) = Some "3K") /\
  (3400 < h <= 4500 -> utils.resolution_label (Some h) = Some "4K") /\
  (7000 < h <= 8500 -> utils.resolution_label (Some h) = Some "8K") /\
  (h < 1800 \/ 4500 < h <= 7000 \/ 8500 < h ->
   utils.resolution_label (Some h) = None).
Proof.
  unfold utils.resolution_label, JS.ge, JS.gt, JS.le.
  repeat split; intros H;
    repeat match goal with
           | |- context [?a <=? ?b] => destruct (Z.leb_spec a b)
           | |- context [?a <? ?b] => destruct (Z.ltb_spec a b)
           end; simpl; try reflexivity; lia.
Qed.

Lemma truthy_app_r (s t : string) : JS.truthy t = true -> JS.truthy (s +:+ t) = true.
Proof. destruct s; [by rewrite str_app_nil_l | done]. Qed.

Lemma mapResolution_Some (s : string) :
  utils.mapResolution (Some s) =
    if JS.truthy s
    then match JS.match_digits 3 4 s with
         | Some m1 => utils.resolution_label (JS.parseInt m1)
         | None => None
         end
    else None.
Proof. unfold utils.mapResolution. simpl. by destruct (JS.truthy s). Qed.

Lemma mapResolution_first_run (s pre m post : string) :
  Spec.first_run s pre m post ->
  utils.mapResolution (Some s) = Spec.bucket (Spec.decimal m).
Proof.
  intros Hrun. pose proof (first_run_match _ _ _ _ Hrun) as Hm.
  destruct Hrun as (-> & Hd & Hlen & _).
  assert (Hne : JS.truthy m = true).
  { destruct m; [destruct Hlen as [|[]]; done | done]. }
  rewrite mapResolution_Some, truthy_app_r by (by apply truthy_app).
  rewrite Hm, parseInt_digits by done.
  apply resolution_label_bucket.
Qed.

Lemma mapResolution_no_run (s : string) :
  Spec.no_run s -> utils.mapResolution (Some s) = None.
Proof.
  intros H. rewrite mapResolution_Some, no_run_match by done.
  by destruct (JS.truthy s).
Qed.

End match_digits.

(** * White space and [trim] *)

Section trim.

Lemma trimStart_empty (s : string) : JS.trimStart s = "" <-> all_space s = true.
Proof.
  induction s as [|c s IH]; [done|]. simpl.
  destruct (JS.isWhiteSpace c); simpl; [done|]. split; discriminate.
Qed.

Lemma trimStart_head (s : string) :
  match JS.trimStart s with
  | String c _ => JS.isWhiteSpace c = false
  | EmptyString => True
  end.
Proof.
  induction s as [|c s IH]; [done|]. simpl.
  destruct (JS.isWhiteSpace c) eqn:Hc; [done|]. done.
Qed.

Lemma trimEnd_cons (c : ascii) (s : string) :
  JS.isWhiteSpace c = false -> JS.trimEnd (String c s) = String c (JS.trimEnd s).
Proof. intros Hc. simpl. rewrite Hc. by destruct (JS.trimEnd s). Qed.

Lemma trim_empty (s : string) : JS.trim s = "" <-> all_space s = true.
Proof.
  rewrite <- trimStart_empty. unfold JS.trim.
  pose proof (trimStart_head s) as H.
  destruct (JS.trimStart s) as [|c r]; [done|].
  rewrite (trimEnd_cons c r H). split; discriminate.
Qed.

Lemma trimEnd_snoc (s : string) (d : ascii) :
  JS.isWhiteSpace d = false -> JS.trimEnd (s +:+ String d "") = s +:+ String d "".
Proof.
  intros Hd. induction s as [|c s IH].
  - rewrite str_app_nil_l. simpl. by rewrite Hd.
  - rewrite str_app_cons. simpl. rewrite IH.
    destruct (s +:+ String d "") eqn:E; [|done].
    apply str_app_eq_nil in E as [_ ?]. done.
Qed.

(** Text that neither starts nor ends with white space is its own trim. *)
Lemma trim_id (c d : ascii) (s u : string) :
  JS.isWhiteSpace c = false -> JS.isWhiteSpace d = false ->
  String c s = u +:+ String d "" -> JS.trim (String c s) = String c s.
Proof.
  intros Hc Hd E. unfold JS.trim. simpl JS.trimStart. rewrite Hc, E.
  by apply trimEnd_snoc.
Qed.

Lemma isWhiteSpace_toLowerCase (c : ascii) :
  JS.isWhiteSpace (JS.toLowerCase_char c) = JS.isWhiteSpace c.
Proof. destruct c as [[] [] [] [] [] [] [] []]; reflexivity. Qed.

Lemma all_space_toLowerCase (s : string) :
  all_space (JS.toLowerCase s) = all_space s.
Proof.
  induction s as [|c s IH]; [done|]. simpl.
  by rewrite isWhiteSpace_toLowerCase, IH.
Qed.

Lemma all_space_prefix (sub s : string) :
  String.prefix sub s = true -> all_space s = true -> all_space sub = true.
Proof.
  revert s. induction sub as [|c sub IH]; intros s; [done|].
  destruct s as [|c' s]; [done|]. simpl.
  destruct (ascii_dec c c') as [->|]; [|done].
  intros Hp [Hc Hs]%andb_true_iff. rewrite Hc. simpl. by apply (IH s).
Qed.

Lemma all_space_includes (s sub : string) :
  JS.includes s sub = true -> all_space s = true -> all_space sub = true.
Proof.
  induction s as [|c s IH]; simpl.
  - rewrite orb_false_r. intros H _. by apply (all_space_prefix sub "").
  - intros [Hp|Hi]%orb_true_iff Hs.
    + by apply (all_space_prefix sub (String c s)).
    + apply andb_true_iff in Hs as [_ Hs]. by apply IH.
Qed.

End trim.

(** * The token lists of the formatters *)

(** Both sides are lists built under conditions: decide the conditions and
    compare. *)
Ltac tokens_step :=
  cbn [JS.truthy JS.truthy_opt andb negb app utils.filter_Boolean
       Spec.plain Spec.token Spec.flag Spec.label_tokens];
  rewrite ?str_app_cons.

Ltac tokens_eq :=
  unfold reactiveLogic.processor_parts, reactiveLogic.discreteGpu_parts,
    reactiveLogic.onboardGpu_parts, reactiveLogic.storage_parts,
    reactiveLogic.ram_parts, Spec.processor_tokens, Spec.discrete_tokens,
    Spec.integrated_tokens, Spec.storage_tokens, Spec.ram_tokens,
    Spec.token_unless_in, Spec.ci_substring, push;
  tokens_step;
  repeat (match goal with
          | |- context [if ?b then _ else _] => destruct b eqn:?
          end; tokens_step);
  try done.

Section tokens.

Lemma filter_Boolean_app (l1 l2 : list (option string)) :
  utils.filter_Boolean (l1 ++ l2) = utils.filter_Boolean l1 ++ utils.filter_Boolean l2.
Proof.
  induction l1 as [|[p|] l1 IH]; simpl; [done| |done].
  destruct (JS.truthy p); simpl; by rewrite IH.
Qed.

Lemma filter_Boolean_Some (p : string) : utils.filter_Boolean [Some p] = Spec.plain p.
Proof. unfold Spec.plain. simpl. by destruct (JS.truthy p). Qed.

Lemma filter_Boolean_idem (parts : list (option string)) :
  utils.filter_Boolean (Some <$> utils.filter_Boolean parts) = utils.filter_Boolean parts.
Proof.
  induction parts as [|[p|] parts IH]; [done| |done].
  cbn [utils.filter_Boolean]. destruct (JS.truthy p) eqn:Hp; [|done].
  rewrite fmap_cons. cbn [utils.filter_Boolean]. by rewrite Hp, IH.
Qed.

(** [cleanJoin] sees its argument through [filter(Boolean)] only. *)
Lemma cleanJoin_filter_Boolean (parts : list (option string)) :
  utils.cleanJoin parts = utils.cleanJoin (Some <$> utils.filter_Boolean parts).
Proof. unfold utils.cleanJoin. by rewrite filter_Boolean_idem. Qed.

Lemma processor_parts_tokens (family generation model : string) :
  utils.filter_Boolean (reactiveLogic.processor_parts family generation model) =
    Spec.processor_tokens family generation model.
Proof.
  destruct family, generation, model; tokens_eq.
Qed.

Lemma discreteGpu_parts_tokens (brand model memory type : string) :
  utils.filter_Boolean (reactiveLogic.discreteGpu_parts brand model memory type) =
    Spec.discrete_tokens brand model memory type.
Proof.
  destruct brand, model, memory, type; tokens_eq.
Qed.

Lemma onboardGpu_parts_tokens (brand model family memory : string) :
  utils.filter_Boolean (reactiveLogic.onboardGpu_parts brand model family memory) =
    Spec.integrated_tokens brand model family memory.
Proof.
  destruct brand, model, family, memory; tokens_eq.
Qed.

Lemma storage_parts_tokens (capacity media : string) (nvme : bool) (formFactor : string) :
  utils.filter_Boolean (reactiveLogic.storage_parts capacity media nvme formFactor) =
    Spec.storage_tokens capacity media nvme formFactor.
Proof.
  unfold reactiveLogic.storage_parts, Spec.storage_tokens.
  destruct (reactiveLogic.storage_capStr capacity), media, nvme, formFactor; tokens_eq.
Qed.

Lemma ram_parts_tokens (capacity type speed transfer : string) :
  utils.filter_Boolean (reactiveLogic.ram_parts capacity type speed transfer) =
    Spec.ram_tokens capacity type speed transfer.
Proof.
  destruct capacity, type, speed, transfer; tokens_eq.
Qed.

End tokens.

Ltac screen_step :=
  unfold push, Spec.plain, Spec.token, Spec.flag;
  try change (JS.replace_g "-Level" "" "") with "";
  tokens_step.

Ltac screen_eq :=
  screen_step;
  repeat (match goal with
          | |- context [if ?b then _ else _] => destruct b eqn:?
          end; screen_step);
  try done.

Section screen.

Lemma resolution_label_truthy (h : option Z) (l : string) :
  utils.resolution_label h = Some l -> JS.truthy l = true.
Proof.
  unfold utils.resolution_label.
  repeat match goal with
         | |- context [if ?b then _ else _] => destruct b
         end; by intros [= <-].
Qed.

Lemma mapResolution_truthy (res : option string) (l : string) :
  utils.mapResolution res = Some l -> JS.truthy l = true.
Proof.
  unfold utils.mapResolution. destruct (negb (JS.truthy_opt res)); [done|].
  destruct (JS.match_digits 3 4 (default "" res)); [|done].
  apply resolution_label_truthy.
Qed.

Lemma hdType_differs_normal (resLabel : option string) (hdType : string) :
  reactiveLogic.hdType_differs resLabel hdType =
    Normal (negb match resLabel with
                 | Some l => JS.truthy l && Spec.ci_equal hdType l
                 | None => false
                 end).
Proof.
  unfold reactiveLogic.hdType_differs. destruct resLabel as [l|]; [|done].
  simpl. by destruct (JS.truthy l).
Qed.

(** [updateScreen] builds the token list of 4.4 and cannot throw. *)
Lemma screen_parts_tokens (diagonal resolution hdType panel refresh : string)
    (touch : bool) :
  exists parts,
    reactiveLogic.screen_parts diagonal resolution hdType panel refresh touch
      = Normal parts /\
    utils.filter_Boolean parts =
      Spec.screen_tokens diagonal resolution hdType panel refresh touch.
Proof.
  unfold reactiveLogic.screen_parts, Spec.screen_tokens, Spec.hdType_tokens,
    Spec.panel_tokens, Spec.refresh_tokens.
  rewrite hdType_differs_normal.
  destruct (utils.mapResolution (Some resolution)) as [l|] eqn:El.
  - pose proof (mapResolution_truthy _ _ El) as Hl.
    destruct l as [|cl l]; [done|].
    destruct diagonal, hdType, panel, refresh, touch, (Spec.ci_equal _ (String cl l));
      cbn [mbind completion_bind negb JS.truthy JS.truthy_opt andb];
      eexists; (split; [reflexivity|]); screen_eq.
  - destruct diagonal, hdType, panel, refresh, touch;
      cbn [mbind completion_bind negb JS.truthy JS.truthy_opt andb];
      eexists; (split; [reflexivity|]); screen_eq.
Qed.

Lemma formatScreen_tokens (diagonal resolution hdType panel refresh : string)
    (touch : bool) :
  reactiveLogic.formatScreen diagonal resolution hdType panel refresh touch =
    Normal (Spec.cleanJoin
              (Some <$> Spec.screen_tokens diagonal resolution hdType panel refresh touch)).
Proof.
  unfold reactiveLogic.formatScreen.
  destruct (screen_parts_tokens diagonal resolution hdType panel refresh touch)
    as (parts & -> & <-).
  cbn [mbind completion_bind].
  by rewrite cleanJoin_filter_Boolean, cleanJoin_refines.
Qed.

End screen.

(** * The capacity token of the storage name *)

Section storage.

Lemma Number_toString_digits (n : Z) :
  0 <= n ->
  exists c s, JS.Number_toString n = String c s /\
              JS.isDigit c = true /\ Spec.all_digits s = true.
Proof.
  intros Hn. unfold JS.Number_toString. destruct (Z.ltb_spec n 0); [lia|].
  pose proof (digits_of_all_digits n Hn) as Hd.
  pose proof (digits_of_nonempty n Hn) as Hne.
  destruct (JS.digits_of n) as [|c s]; [done|].
  simpl in Hd. apply andb_true_iff in Hd as [Hc Hs]. by exists c, s.
Qed.

Lemma Number_toString_digit (d : Z) :
  0 <= d < 10 -> JS.Number_toString d = String (JS.digitChar d) "".
Proof.
  intros Hd. unfold JS.Number_toString. destruct (Z.ltb_spec d 0); [lia|].
  rewrite digits_of_eq by lia. by destruct (Z.ltb_spec d 10); [|lia].
Qed.

Lemma nearest_tenth_nonneg (num den : Z) :
  0 <= num -> 0 < den -> 0 <= Spec.nearest_tenth num den.
Proof. intros. apply Z.div_pos; lia. Qed.

(** One decimal place: digits, a point, one digit. *)
Lemma one_decimal_shape (num den : Z) :
  0 <= num -> 0 < den ->
  exists c a d,
    Spec.one_decimal num den = String c a +:+ String "." (String d "") /\
    JS.isDigit c = true /\ Spec.all_digits a = true /\ JS.isDigit d = true.
Proof.
  intros Hnum Hden. unfold Spec.one_decimal.
  pose proof (nearest_tenth_nonneg num den Hnum Hden) as Ht.
  set (t := Spec.nearest_tenth num den) in *.
  destruct (Number_toString_digits (t / 10)) as (c & a & -> & Hc & Ha).
  { apply Z.div_pos; lia. }
  assert (H10 : 0 <= t mod 10 < 10) by (apply Z.mod_pos_bound; lia).
  rewrite (Number_toString_digit _ H10).
  exists c, a, (JS.digitChar (t mod 10)).
  split; [done|]. split; [done|]. split; [done|]. by apply isDigit_digitChar.
Qed.

Lemma capStr_terabytes (n : Z) :
  1024 <= n -> reactiveLogic.storage_capStr (JS.Number_toString n) = Spec.tb_token n.
Proof.
  intros Hn. unfold reactiveLogic.storage_capStr, Spec.tb_token.
  rewrite Number_toString_truthy, parseInt_Number_toString.
  cbn [JS.ge andb reactiveLogic.capacity_toFixed].
  destruct (Z.leb_spec 1024 n); [|lia].
  rewrite toFixed1_digits by lia.
  destruct (one_decimal_shape n 1024) as (c & a & d & -> & Hc & Ha & Hd); [lia..|].
  rewrite str_app_assoc.
  change (String "." (String d "") +:+ "TB") with (String "." (String d "TB")).
  apply (replace_point_zero (String c a) d); [|done].
  simpl. by rewrite Hc, Ha.
Qed.

Lemma capStr_gigabytes (n : Z) :
  n < 1024 -> reactiveLogic.storage_capStr (JS.Number_toString n) = Spec.gb_token n.
Proof.
  intros Hn. unfold reactiveLogic.storage_capStr, Spec.gb_token.
  rewrite Number_toString_truthy, parseInt_Number_toString. cbn [JS.ge andb].
  by destruct (Z.leb_spec 1024 n); [lia|].
Qed.

Lemma importer_capacityStr (a : IcecatScanner.almacenamiento) (n : Z) :
  0 < n -> IcecatScanner.capacidad_total_gb a = Some n ->
  IcecatScanner.capacityStr a =
    reactiveLogic.storage_capStr (JS.Number_toString n).
Proof.
  intros Hn Ha. unfold IcecatScanner.capacityStr, reactiveLogic.storage_capStr.
  rewrite Ha, Number_toString_truthy, parseInt_Number_toString.
  cbn [JS.truthy_num JS.ge andb IcecatScanner.number_text].
  destruct (Z.eqb_spec n 0); [lia|]. cbn [negb].
  by destruct (Z.leb_spec 1024 n).
Qed.

(** Either capacity token starts with a digit and ends with the letter B. *)
Lemma capacity_token_shape (n : Z) :
  0 <= n ->
  let token := if 1024 <=? n then Spec.tb_token n else Spec.gb_token n in
  exists c s u, token = String c s /\ JS.isDigit c = true /\ token = u +:+ "B".
Proof.
  intros Hn. cbv zeta. destruct (Z.leb_spec 1024 n).
  - unfold Spec.tb_token.
    destruct (one_decimal_shape n 1024) as (c & a & d & -> & Hc & Ha & Hd); [lia..|].
    rewrite str_app_cons, strip_suffix_cons.
    assert (Heq : String.eqb (String c (a +:+ String "." (String d ""))) ".0" = false).
    { apply String.eqb_neq. intros [=]. by apply (digit_not_point c). }
    rewrite Heq, str_app_cons.
    eexists c, _, (String c (Spec.strip_suffix ".0" _) +:+ "T").
    split; [done|]. split; [done|]. by rewrite str_app_assoc, str_app_cons.
  - unfold Spec.gb_token.
    destruct (Number_toString_digits n Hn) as (c & s & -> & Hc & _).
    exists c, (s +:+ "GB"), (String c s +:+ "G").
    split; [done|]. split; [done|]. by rewrite str_app_assoc.
Qed.

Lemma capacity_token_trim (n : Z) :
  0 <= n ->
  let token := if 1024 <=? n then Spec.tb_token n else Spec.gb_token n in
  JS.trim token = token /\ JS.truthy token = true.
Proof.
  intros Hn token.
  destruct (capacity_token_shape n Hn) as (c & s & u & E & Hc & Eu).
  fold token in E, Eu. rewrite E. split; [|done].
  apply (trim_id c "B" s u); [by apply digit_not_space | done |].
  by rewrite <- E.
Qed.

End storage.

Section mapResolution.

Lemma importer_mapResolution (res : option string) :
  IcecatScanner.mapResolution res = Normal (utils.mapResolution res).
Proof.
  unfold IcecatScanner.mapResolution, utils.mapResolution.
  destruct res as [s|]; [|done]. simpl.
  destruct (JS.truthy s); [|done]. simpl.
  by destruct (JS.match_digits 3 4 s).
Qed.

Lemma no_digit_digits3 (q rest : string) :
  Spec.no_digit q = true -> q <> "" -> Spec.digits3 (q +:+ rest) = false.
Proof.
  destruct q as [|c q]; [done|]. cbn [Spec.no_digit].
  intros [Hc _]%andb_true_iff _. rewrite str_app_cons.
  apply negb_true_iff in Hc.
  destruct (q +:+ rest) as [|b [|d t]]; cbn [Spec.digits3]; by rewrite ?Hc.
Qed.

Lemma no_digit_app (p q : string) :
  Spec.no_digit (p +:+ q) = true -> Spec.no_digit q = true.
Proof.
  induction p as [|c p IH]; [done|]. rewrite str_app_cons. cbn [Spec.no_digit].
  intros [_ H]%andb_true_iff. by apply IH.
Qed.

Lemma substring_split (n : nat) (s : string) :
  s = String.substring 0 n s +:+ JS.drop n s.
Proof.
  revert s. induction n as [|n IH]; intros [|c s]; try done.
  simpl. rewrite str_app_cons. f_equal. apply IH.
Qed.

Lemma substring_length (n : nat) (s : string) :
  (n <= String.length s)%nat -> String.length (String.substring 0 n s) = n.
Proof.
  revert s. induction n as [|n IH]; intros [|c s]; simpl; try done; try lia.
  intros H. rewrite IH; lia.
Qed.

(** A run of more than four digits, with no digit before it, gives its first
    four digits as the first run of 4.2. *)
Lemma long_run_first_run (pre ds post : string) :
  Spec.no_digit pre = true -> Spec.all_digits ds = true ->
  (4 < String.length ds)%nat ->
  Spec.first_run (pre +:+ ds +:+ post) pre
    (String.substring 0 4 ds) (JS.drop 4 ds +:+ post).
Proof.
  intros Hpre Hds Hlen.
  pose proof (substring_split 4 ds) as Hsplit.
  assert (Hd : Spec.all_digits (String.substring 0 4 ds) = true /\
               Spec.all_digits (JS.drop 4 ds) = true).
  { rewrite Hsplit, all_digits_app in Hds. by apply andb_true_iff in Hds. }
  split.
  { by rewrite <- (str_app_assoc (String.substring 0 4 ds)), <- Hsplit. }
  split; [apply Hd|]. split.
  { left. apply substring_length. lia. }
  intros p q -> Hq. apply no_digit_digits3; [|done]. by apply (no_digit_app p).
Qed.

End mapResolution.

(** * The formatters in closed form *)

Section formatters.

Lemma cleanJoin_tokens (parts : list (option string)) (toks : list string) :
  utils.filter_Boolean parts = toks ->
  utils.cleanJoin parts = Normal (Spec.cleanJoin (Some <$> toks)).
Proof. intros <-. by rewrite cleanJoin_filter_Boolean, cleanJoin_refines. Qed.

Lemma formatProcessor_tokens (family generation model : string) :
  reactiveLogic.formatProcessor family generation model =
    Normal (Spec.cleanJoin (Some <$> Spec.processor_tokens family generation model)).
Proof. apply cleanJoin_tokens, processor_parts_tokens. Qed.

Lemma formatDiscreteGpu_tokens (brand model memory type : string) :
  reactiveLogic.formatDiscreteGpu true brand model memory type =
    Normal (Spec.cleanJoin (Some <$> Spec.discrete_tokens brand model memory type)).
Proof. apply cleanJoin_tokens, discreteGpu_parts_tokens. Qed.

Lemma formatIntegratedGpu_tokens (brand model family memory : string) :
  reactiveLogic.formatIntegratedGpu brand model family memory =
    Normal (Spec.cleanJoin (Some <$> Spec.integrated_tokens brand model family memory)).
Proof. apply cleanJoin_tokens, onboardGpu_parts_tokens. Qed.

Lemma formatStorage_tokens (capacity media : string) (nvme : bool) (formFactor : string) :
  reactiveLogic.formatStorage capacity media nvme formFactor =
    Normal (Spec.cleanJoin (Some <$> Spec.storage_tokens capacity media nvme formFactor)).
Proof. apply cleanJoin_tokens, storage_parts_tokens. Qed.

Lemma formatRam_tokens (capacity type speed transfer : string) :
  reactiveLogic.formatRam capacity type speed transfer =
    Normal (Spec.cleanJoin (Some <$> Spec.ram_tokens capacity type speed transfer)).
Proof. apply cleanJoin_tokens, ram_parts_tokens. Qed.

Lemma updateDiscreteGPU_format (doc : document) :
  reactiveLogic.updateDiscreteGPU doc =
    fullName ← reactiveLogic.formatDiscreteGpu
                 (field_checked doc "has_discrete_gpu")
                 (field_value doc "discrete_gpu_brand")
                 (field_value doc "discrete_gpu_model")
                 (field_value doc "discrete_gpu_memory_gb")
                 (field_value doc "discrete_gpu_memory_type");
    Normal (set_target doc "discrete_gpu_full_name" fullName).
Proof.
  unfold reactiveLogic.updateDiscreteGPU, reactiveLogic.formatDiscreteGpu.
  by destruct (field_checked doc "has_discrete_gpu").
Qed.


Lemma field_value_set_target (doc : document) (id v : string) :
  is_Some (doc !! id) -> field_value (set_target doc id v) id = v.
Proof.
  intros [el Hel]. unfold set_target, field_value. rewrite Hel.
  rewrite lookup_insert_eq. simpl. by destruct v.
Qed.

Lemma field_value_set_target_ne (doc : document) (id id' v : string) :
  id <> id' -> field_value (set_target doc id v) id' = field_value doc id'.
Proof.
  intros Hne. unfold set_target, field_value.
  destruct (doc !! id); [|done]. by rewrite lookup_insert_ne.
Qed.



End formatters.

Section processor.

Lemma Forall_blank_plain (s : string) :
  Forall Spec.blank (Some <$> Spec.plain s) <-> JS.trim s = "".
Proof.
  unfold Spec.plain. destruct s as [|c s]; [done|]. cbn [JS.truthy].
  rewrite fmap_cons, Forall_cons. simpl. rewrite Forall_nil. tauto.
Qed.

(** A family that occurs in a blank generation is blank itself. *)
Lemma ci_substring_blank (family generation : string) :
  Spec.ci_substring family generation = true ->
  JS.trim generation = "" -> JS.trim family = "".
Proof.
  unfold Spec.ci_substring. rewrite !trim_empty. intros Hi Hg.
  rewrite <- all_space_toLowerCase in Hg.
  rewrite <- all_space_toLowerCase. by apply (all_space_includes _ _ Hi).
Qed.

Lemma Forall_blank_unless_in (family generation : string) :
  JS.trim generation = "" ->
  Forall Spec.blank (Some <$> Spec.token_unless_in family generation) <->
  JS.trim family = "".
Proof.
  intros Hg. unfold Spec.token_unless_in.
  destruct family as [|c family]; [done|]. cbn [JS.truthy andb].
  destruct (Spec.ci_substring (String c family) generation) eqn:Hi; cbn [negb].
  - split; [|done]. intros _. by apply (ci_substring_blank _ generation).
  - rewrite fmap_cons, Forall_cons. simpl. rewrite Forall_nil. tauto.
Qed.

End processor.

Section importer.

(** The text the importer gives a numeric field: none for null and for 0. *)
Lemma importer_integrated_tokens (g : IcecatScanner.tarjeta_grafica) :
  utils.filter_Boolean (IcecatScanner.integrated_parts g) =
    Spec.integrated_tokens
      (IcecatScanner.or_empty (IcecatScanner.marca_integrada g))
      (IcecatScanner.or_empty (IcecatScanner.modelo_integrado g))
      (IcecatScanner.or_empty (IcecatScanner.familia_integrada g))
      (if JS.truthy_num (IcecatScanner.memoria_integrada_gb g)
       then IcecatScanner.number_text (IcecatScanner.memoria_integrada_gb g)
       else "").
Proof.
  unfold IcecatScanner.integrated_parts.
  destruct (IcecatScanner.or_empty (IcecatScanner.marca_integrada g)),
    (IcecatScanner.or_empty (IcecatScanner.modelo_integrado g)),
    (IcecatScanner.or_empty (IcecatScanner.familia_integrada g)),
    (JS.truthy_num (IcecatScanner.memoria_integrada_gb g)) eqn:Hm;
    try (destruct (IcecatScanner.memoria_integrada_gb g) as [n|]; [|done];
         cbn [IcecatScanner.number_text];
         pose proof (Number_toString_truthy n) as Hn;
         destruct (JS.Number_toString n); [done|]);
    tokens_eq.
Qed.

Lemma filter_Boolean_truthy (parts : list (option string)) :
  Forall (fun t => JS.truthy t = true) (utils.filter_Boolean parts).
Proof.
  induction parts as [|[p|] parts IH]; simpl; [done| |done].
  destruct (JS.truthy p) eqn:Hp; [by constructor | done].
Qed.

Lemma dedup_each_cleanJoin_each (cleanParts : list string) (t : string) :
  JS.trim t = t -> JS.truthy t = true ->
  IcecatScanner.dedup_each cleanParts t = utils.cleanJoin_each cleanParts t.
Proof.
  intros Ht Hne. unfold IcecatScanner.dedup_each, utils.cleanJoin_each.
  by rewrite Ht, Hne.
Qed.

(** Without surrounding white space, the importer's own loop and
    [cleanJoin] keep the same tokens. *)
Lemma dedup_join_cleanJoin (parts : list (option string)) :
  Forall (fun t => JS.trim t = t) (utils.filter_Boolean parts) ->
  IcecatScanner.dedup_join parts = utils.cleanJoin parts.
Proof.
  intros H. unfold IcecatScanner.dedup_join, utils.cleanJoin. f_equal.
  pose proof (filter_Boolean_truthy parts) as Hne.
  generalize (@nil string).
  induction (utils.filter_Boolean parts) as [|t toks IH]; intros cleanParts; [done|].
  apply Forall_cons in H as [Ht H]. apply Forall_cons in Hne as [Hn Hne].
  cbn [forEach]. rewrite (dedup_each_cleanJoin_each _ _ Ht Hn).
  destruct (utils.cleanJoin_each cleanParts t); [|done]. simpl. by apply IH.
Qed.

End importer.

(** * The claims of the specification *)

(** ** Storage capacity *)

(** The capacity token for whole capacities.  For a whole number of
    gigabytes up to Number.MAX_SAFE_INTEGER, written into the capacity field
    as [String(n)], the token is the one 4.6 describes: it is what
    [updateStorage] computes as [capStr], it is the first token of the name
    that [updateStorage] writes, and the importer computes the same token
    from the number. *)
Theorem storage_capacity_token (n : Z) :
  0 < n <= Spec.MAX_SAFE_INTEGER ->
  let token := if 1024 <=? n then Spec.tb_token n else Spec.gb_token n in
  reactiveLogic.storage_capStr (JS.Number_toString n) = token /\
  (forall media nvme formFactor, exists name,
      reactiveLogic.formatStorage (JS.Number_toString n) media nvme formFactor
        = Normal name /\
      Spec.leads token name) /\
  (forall doc : document,
      field_value doc "storage_capacity" = JS.Number_toString n ->
      is_Some (doc !! "storage_full_name") ->
      exists doc',
        reactiveLogic.updateStorage doc = Normal doc' /\
        Spec.leads token (field_value doc' "storage_full_name")) /\
  (forall a, IcecatScanner.capacidad_total_gb a = Some n ->
      IcecatScanner.capacityStr a = token /\
      Spec.leads token (IcecatScanner.storageFullName a)).
Proof.
  intros Hn token.
  assert (Hcap : reactiveLogic.storage_capStr (JS.Number_toString n) = token).
  { unfold token. destruct (Z.leb_spec 1024 n).
    - by apply capStr_terabytes.
    - by apply capStr_gigabytes. }
  destruct (capacity_token_trim n ltac:(lia)) as [Htrim Hne]. fold token in Htrim, Hne.
  assert (Hname : forall media nvme formFactor, exists name,
             reactiveLogic.formatStorage (JS.Number_toString n) media nvme formFactor
               = Normal name /\ Spec.leads token name).
  { intros media nvme formFactor. unfold reactiveLogic.formatStorage.
    rewrite cleanJoin_refines. unfold reactiveLogic.storage_parts. rewrite Hcap.
    eexists. split; [done|]. rewrite <- Htrim at 1.
    apply cleanJoin_first. rewrite Htrim. by apply truthy_true. }
  split; [done|]. split; [done|]. split.
  - intros doc Hdoc Htarget. unfold reactiveLogic.updateStorage. rewrite Hdoc.
    destruct (Hname (field_value doc "storage_media")
                (field_checked doc "storage_nvme")
                (field_value doc "storage_form_factor")) as (name & -> & Hleads).
    eexists. split; [done|]. by rewrite field_value_set_target.
  - intros a Ha.
    assert (Ha' : IcecatScanner.capacityStr a = token).
    { by rewrite (importer_capacityStr a n) by (done || lia). }
    split; [done|]. unfold IcecatScanner.storageFullName. rewrite Ha'.
    cbn [utils.filter_Boolean]. rewrite Hne. apply join_leads.
Qed.

Lemma storage_capacity_token_witness :
  0 < 1536 <= Spec.MAX_SAFE_INTEGER /\ reactiveLogic.storage_capStr "1536" = "1.5TB".
Proof.
  assert (H : 0 < 1536 <= Spec.MAX_SAFE_INTEGER) by (unfold Spec.MAX_SAFE_INTEGER; lia).
  split; [exact H | exact (proj1 (storage_capacity_token 1536 H))].
Defined.

(** The examples of C1. *)
Lemma storage_examples :
  Spec.tb_token 1024 = "1TB" /\ Spec.tb_token 1536 = "1.5TB" /\
  Spec.tb_token 1280 = "1.3TB" /\ Spec.tb_token 10240 = "10TB" /\
  Spec.tb_token 1075 = "1TB" /\ Spec.gb_token 512 = "512GB" /\
  reactiveLogic.formatStorage "1024" "SSD" true "M.2" = Normal "1TB SSD NVMe M.2" /\
  reactiveLogic.formatStorage "512" "SSD" false "" = Normal "512GB SSD".
Proof. by vm_compute. Qed.

(** C1.  For every StorageSpec with a numeric capacityGb >= 1024 the capacity
    token of formatStorage is capacityGb / 1024 to one decimal place, with TB
    appended and a trailing .0 stripped; for 0 < capacityGb < 1024 it is the
    number followed by GB.  [updateStorage] breaks this for a capacity that
    is not a whole number: it reads the field with [parseInt], which drops
    the fractional part before the division.  With 1075.9 in the field it
    computes the token 1TB and writes the name 1TB SSD, where 1075.9 / 1024,
    about 1.0507, is 1.1 to one decimal place; the importer divides the
    number itself and gives 1.1TB. *)
Theorem storage_fraction_truncated :
  let doc : document :=
    {[ "storage_capacity" := {| value := "1075.9"; checked := false |};
       "storage_media" := {| value := "SSD"; checked := false |};
       "storage_full_name" := {| value := ""; checked := false |} ]} in
  JS.parseInt "1075.9" = Some 1075 /\
  reactiveLogic.storage_capStr "1075.9" = "1TB" /\
  (doc' ← reactiveLogic.updateStorage doc;
   Normal (field_value doc' "storage_full_name")) = Normal "1TB SSD" /\
  Spec.nearest_tenth 10759 (10 * 1024) = 11 /\
  Spec.strip_suffix ".0" (Spec.one_decimal 10759 (10 * 1024)) +:+ "TB" = "1.1TB" /\
  populateForm.capacityStr_terabytes 10759 10 = "1.1TB".
Proof. intros doc. repeat split; vm_compute; reflexivity. Qed.

(** Text with a fractional part: [parseInt] reads the whole part, so the
    terabytes are those of the whole part; below 1024 the text is kept. *)
Lemma storage_fraction_examples :
  reactiveLogic.storage_capStr "1536.5" = "1.5TB" /\
  reactiveLogic.storage_capStr "1075.5" = reactiveLogic.storage_capStr "1075" /\
  reactiveLogic.storage_capStr "512.5" = "512.5GB".
Proof. by vm_compute. Qed.

(** ** Resolution labels *)

(** C2.  For every input, mapResolution returns null when the input is absent
    or empty or holds no run of three digits; otherwise it takes the first
    run of three or four consecutive digits and maps the integer it denotes by
    the table of 4.2, every value outside the six ranges giving null.  Every
    text is in one of the two cases, the table is the chain of tests of the
    code, and the copy of the function in the importer computes the same. *)
Theorem mapResolution_buckets :
  utils.mapResolution None = None /\
  utils.mapResolution (Some "") = None /\
  (forall s, Spec.no_run s -> utils.mapResolution (Some s) = None) /\
  (forall s pre m post, Spec.first_run s pre m post ->
      utils.mapResolution (Some s) = Spec.bucket (Spec.decimal m)) /\
  (forall s, Spec.no_run s \/ exists pre m post, Spec.first_run s pre m post) /\
  (forall h,
      (1800 <= h <= 2000 -> Spec.bucket h = Some "FHD") /\
      (2000 < h <= 2600 -> Spec.bucket h = Some "2K") /\
      (2600 < h <= 2900 -> Spec.bucket h = Some "2.5K") /\
      (2900 < h <= 3400 -> Spec.bucket h = Some "3K") /\
      (3400 < h <= 4500 -> Spec.bucket h = Some "4K") /\
      (7000 < h <= 8500 -> Spec.bucket h = Some "8K") /\
      (h < 1800 \/ 4500 < h <= 7000 \/ 8500 < h -> Spec.bucket h = None)) /\
  (forall res, IcecatScanner.mapResolution res = Normal (utils.mapResolution res)).
Proof.
  split; [done|]. split; [done|].
  split; [apply mapResolution_no_run|].
  split; [apply mapResolution_first_run|].
  split; [|split; [|apply importer_mapResolution]].
  - intros s. destruct (run_or_not s) as [[H _]|(pre & m & post & H & _)].
    + by left.
    + right. by exists pre, m, post.
  - intros h. rewrite <- resolution_label_bucket. apply resolution_label_table.
Qed.

Lemma mapResolution_buckets_witness :
  Spec.first_run "1920x1080" "" "1920" "x1080" /\
  utils.mapResolution (Some "1920x1080") = Some "FHD".
Proof.
  assert (H : Spec.first_run "1920x1080" "" "1920" "x1080").
  { split; [reflexivity|]. split; [reflexivity|]. split; [by left|].
    intros p q Hpq Hq. symmetry in Hpq. apply str_app_eq_nil in Hpq. tauto. }
  split; [exact H|].
  exact (proj1 (proj2 (proj2 (proj2 mapResolution_buckets))) _ _ _ _ H).
Defined.

(** The examples of 4.2, and the ends of each range. *)
Lemma mapResolution_examples :
  utils.mapResolution (Some "1920x1080") = Some "FHD" /\
  utils.mapResolution (Some "3840x2160") = Some "4K" /\
  utils.mapResolution (Some "at 5000px") = None /\
  utils.mapResolution (Some "2560 x 1440") = Some "2K" /\
  utils.mapResolution (Some "12x34") = None /\
  Spec.bucket 1799 = None /\ Spec.bucket 1800 = Some "FHD" /\
  Spec.bucket 2000 = Some "FHD" /\ Spec.bucket 2001 = Some "2K" /\
  Spec.bucket 2600 = Some "2K" /\ Spec.bucket 2601 = Some "2.5K" /\
  Spec.bucket 2900 = Some "2.5K" /\ Spec.bucket 2901 = Some "3K" /\
  Spec.bucket 3400 = Some "3K" /\ Spec.bucket 3401 = Some "4K" /\
  Spec.bucket 4500 = Some "4K" /\ Spec.bucket 4501 = None /\
  Spec.bucket 7000 = None /\ Spec.bucket 7001 = Some "8K" /\
  Spec.bucket 8500 = Some "8K" /\ Spec.bucket 8501 = None.
Proof. by vm_compute. Qed.

(** ** The token join *)

(** C3.  For every sequence of optional string tokens, cleanJoin drops the
    null, undefined and empty-after-trim entries and keeps the order of the
    rest (each taken without its surrounding white space), keeps a token only
    if it is not case-insensitively equal to the token kept immediately
    before it, joins the kept tokens with a single space, and always returns
    a string without throwing: the empty string when every entry is blank. *)
Theorem cleanJoin_correct (tokens : list (option string)) :
  utils.cleanJoin tokens = Normal (Spec.cleanJoin tokens) /\
  (Forall Spec.blank tokens -> utils.cleanJoin tokens = Normal "").
Proof.
  split; [apply cleanJoin_refines|].
  intros H. rewrite cleanJoin_refines. f_equal. by apply cleanJoin_empty_iff.
Qed.

Lemma cleanJoin_correct_witness :
  Forall Spec.blank [None; Some ""; Some "  "] /\
  utils.cleanJoin [None; Some ""; Some "  "] = Normal "".
Proof.
  assert (H : Forall Spec.blank [None; Some ""; Some "  "])
    by (repeat constructor).
  split; [exact H | exact (proj2 (cleanJoin_correct _) H)].
Defined.

(** The examples of 4.1: only adjacent duplicates collapse. *)
Lemma cleanJoin_examples :
  utils.cleanJoin [] = Normal "" /\
  utils.cleanJoin [Some "FHD"; Some "FHD"; Some "Touch"] = Normal "FHD Touch" /\
  utils.cleanJoin [Some "A"; Some "B"; Some "A"] = Normal "A B A" /\
  utils.cleanJoin [Some "A"; Some "a"; Some "B"] = Normal "A B" /\
  utils.cleanJoin [Some " Intel "; None; Some "intel"; Some "Core"] = Normal "Intel Core".
Proof. by vm_compute. Qed.

(** What 4.1 keeps is taken from the tokens in their order. *)
Lemma dedup_adjacent_sublist (prev : option string) (toks : list string) :
  sublist (Spec.dedup_adjacent prev toks) toks.
Proof.
  revert prev. induction toks as [|t toks IH]; intros prev; [done|].
  simpl. destruct prev as [p|]; [destruct (Spec.ci_equal t p)|].
  - by apply sublist_cons.
  - by apply sublist_skip.
  - by apply sublist_skip.
Qed.

(** What 4.1 keeps has no two neighbours that are equal up to letter case. *)
Lemma dedup_adjacent_no_repeat (prev : option string) (toks : list string) (i : nat)
    (a b : string) :
  Spec.dedup_adjacent prev toks !! i = Some a ->
  Spec.dedup_adjacent prev toks !! S i = Some b ->
  Spec.ci_equal b a = false.
Proof.
  revert prev i. induction toks as [|t toks IH]; intros prev i; [done|].
  assert (Hkeep : forall i,
    (t :: Spec.dedup_adjacent (Some t) toks) !! i = Some a ->
    (t :: Spec.dedup_adjacent (Some t) toks) !! S i = Some b ->
    Spec.ci_equal b a = false).
  { intros [|j]; simpl; [|by apply IH].
    intros [= ->]. clear IH. induction toks as [|u toks IHt]; [done|].
    simpl. destruct (Spec.ci_equal u a) eqn:E; [done|]. simpl. by intros [= ->]. }
  simpl. destruct prev as [p|]; [|apply Hkeep].
  destruct (Spec.ci_equal t p); [apply IH | apply Hkeep].
Qed.

(** ** Refresh rate *)

(** C4 in the form script: the array that [updateScreen] builds for a refresh
    rate [n] is the array without refresh rate and touch flag, then the Hz
    token exactly when [n] is above 60, then the touch token. *)
Lemma updateScreen_refresh_gate (diagonal resolution hdType panel : string)
    (touch : bool) (n : Z) :
  reactiveLogic.screen_parts diagonal resolution hdType panel (JS.Number_toString n) touch =
    parts ← reactiveLogic.screen_parts diagonal resolution hdType panel "" false;
    Normal (parts ++
            (if 60 <? n then [Some (JS.Number_toString n +:+ "Hz")] else []) ++
            (if touch then [Some "Touch"] else [])).
Proof.
  unfold reactiveLogic.screen_parts. rewrite hdType_differs_normal.
  rewrite parseInt_Number_toString, Number_toString_truthy.
  cbn [JS.truthy JS.gt andb]. unfold push.
  repeat (match goal with
          | |- context [if ?b then _ else _] => destruct b
          end; cbn [mbind completion_bind]);
    by rewrite <- ?List.app_assoc, ?List.app_nil_r.
Qed.

(** C4.  formatScreen includes the Hz token if and only if the refresh rate
    is present and above 60, so that a rate of 60 gives no Hz token.
    [updateScreen] does so; the importer tests the rate for truthiness only
    and writes 60Hz into the name of the same screen. *)
Theorem importer_refresh_rate_ungated :
  IcecatScanner.screenFullName
    {| IcecatScanner.resolucion := Some "1920x1080";
       IcecatScanner.tipo_hd := Some "FHD";
       IcecatScanner.diagonal_pulgadas := Some 14;
       IcecatScanner.tipo := Some "IPS-Level";
       IcecatScanner.tasa_refresco_hz := Some 60;
       IcecatScanner.tactil := false |}
    = Normal ("14" +:+ inch_mark +:+ " FHD IPS 60Hz") /\
  reactiveLogic.formatScreen "14" "1920x1080" "FHD" "IPS-Level" "60" false
    = Normal ("14" +:+ inch_mark +:+ " FHD IPS").
Proof. split; by vm_compute. Qed.

Lemma screen_examples :
  reactiveLogic.formatScreen "15.6" "1920x1080" "FHD" "IPS-Level" "60" false
    = Normal ("15.6" +:+ inch_mark +:+ " FHD IPS") /\
  reactiveLogic.formatScreen "14" "2560x1440" "" "" "120" true
    = Normal ("14" +:+ inch_mark +:+ " 2K 120Hz Touch") /\
  reactiveLogic.formatScreen "" "" "" "" "61" false = Normal "61Hz" /\
  reactiveLogic.formatScreen "" "" "" "" "60" false = Normal "".
Proof. by vm_compute. Qed.

(** ** Discrete GPU *)

(** The flag in the form script and in the importer.  When the discrete-GPU
    box is not ticked [updateDiscreteGPU] writes the empty string and returns
    before it reads brand, model, memory and memory type; the importer
    composes no name for a product without a discrete GPU, and so writes
    none. *)
Theorem discrete_gpu_flag_gates (doc : document) (brand model memory type : string) :
  reactiveLogic.formatDiscreteGpu false brand model memory type = Normal "" /\
  (field_checked doc "has_discrete_gpu" = false ->
   reactiveLogic.updateDiscreteGPU doc
     = Normal (set_target doc "discrete_gpu_full_name" "") /\
   field_value (set_target doc "discrete_gpu_full_name" "") "discrete_gpu_full_name"
     = "") /\
  (forall g, IcecatScanner.tiene_dedicada g = false ->
             IcecatScanner.discreteFullName g = Normal None).
Proof.
  split; [done|]. split.
  - intros H. unfold reactiveLogic.updateDiscreteGPU. rewrite H. split; [done|].
    destruct (doc !! "discrete_gpu_full_name") as [el|] eqn:E.
    + by apply field_value_set_target.
    + unfold set_target, field_value. by rewrite E, E.
  - intros g H. unfold IcecatScanner.discreteFullName. by rewrite H.
Qed.

Lemma discrete_gpu_flag_gates_witness :
  let doc : document :=
    {[ "has_discrete_gpu" := {| value := "on"; checked := false |};
       "discrete_gpu_brand" := {| value := "NVIDIA"; checked := false |};
       "discrete_gpu_model" := {| value := "RTX 4060"; checked := false |};
       "discrete_gpu_full_name" := {| value := "NVIDIA RTX 4060"; checked := false |} ]} in
  field_checked doc "has_discrete_gpu" = false /\
  reactiveLogic.updateDiscreteGPU doc
    = Normal (set_target doc "discrete_gpu_full_name" "").
Proof.
  intros doc.
  assert (H : field_checked doc "has_discrete_gpu" = false) by (by vm_compute).
  split; [exact H|].
  exact (proj1 (proj1 (proj2 (discrete_gpu_flag_gates doc "" "" "" "")) H)).
Defined.

(** C5.  For every GpuSpec with hasDiscrete false, formatDiscreteGpu returns
    the empty string regardless of brand, model, memory and memory type.
    [updateDiscreteGPU] does so.  The graphics block of [populateForm] writes
    the name of the discrete GPU only inside [if (tiene_dedicada)] and has no
    other branch: for a product without a dedicated GPU it leaves in the
    name field what an earlier product has put there, where the form script,
    on the same form, writes the empty string. *)
Theorem importer_discrete_name_kept :
  let doc : document :=
    {[ "has_discrete_gpu" := {| value := "on"; checked := true |};
       "discrete_gpu_brand" := {| value := "NVIDIA"; checked := false |};
       "discrete_gpu_model" := {| value := "GeForce RTX 4060"; checked := false |};
       "discrete_gpu_full_name" :=
         {| value := "NVIDIA GeForce RTX 4060 8GB"; checked := false |} ]} in
  let g :=
    {| IcecatScanner.tiene_dedicada := false;
       IcecatScanner.marca_dedicada := None;
       IcecatScanner.modelo_dedicado := None;
       IcecatScanner.memoria_dedicada_gb := None;
       IcecatScanner.tipo_memoria_dedicada := None;
       IcecatScanner.marca_integrada := Some "Intel";
       IcecatScanner.modelo_integrado := Some "Iris Xe Graphics";
       IcecatScanner.familia_integrada := None;
       IcecatScanner.memoria_integrada_gb := None |} in
  IcecatScanner.discreteFullName g = Normal None /\
  (doc' ← populateForm.tarjeta_grafica_block [] (Some g) doc;
   Normal (field_checked doc' "has_discrete_gpu",
           field_value doc' "discrete_gpu_full_name"))
    = Normal (false, "NVIDIA GeForce RTX 4060 8GB") /\
  (doc' ← populateForm.tarjeta_grafica_block [] (Some g) doc;
   doc'' ← reactiveLogic.updateDiscreteGPU doc';
   Normal (field_value doc'' "discrete_gpu_full_name")) = Normal "".
Proof. intros doc g. repeat split; vm_compute; reflexivity. Qed.

Lemma discrete_gpu_examples :
  reactiveLogic.formatDiscreteGpu false "NVIDIA" "RTX 4060" "" "" = Normal "" /\
  reactiveLogic.formatDiscreteGpu true "NVIDIA" "RTX 4060" "8" "GDDR6"
    = Normal "NVIDIA RTX 4060 8GB GDDR6" /\
  reactiveLogic.formatDiscreteGpu true "NVIDIA" "NVIDIA GeForce RTX 4060" "" ""
    = Normal "NVIDIA GeForce RTX 4060".
Proof. by vm_compute. Qed.

(** ** Processor without a model *)

(** C6, as the code has it.  For a ProcessorSpec whose model is absent or
    empty, formatProcessor returns the join of the generation and family
    tokens alone; the result is the empty string exactly when generation and
    family are blank as well.  The formatter does not require a model. *)
Theorem processor_empty_model (family generation : string) :
  reactiveLogic.formatProcessor family generation "" =
    utils.cleanJoin
      (Some <$> (Spec.plain generation ++ Spec.token_unless_in family generation)) /\
  (reactiveLogic.formatProcessor family generation "" = Normal "" <->
   JS.trim generation = "" /\ JS.trim family = "").
Proof.
  rewrite formatProcessor_tokens, cleanJoin_refines.
  unfold Spec.processor_tokens. change (Spec.plain "") with (@nil string).
  rewrite List.app_nil_r. split; [done|].
  split.
  - intros [= H]. apply cleanJoin_empty_iff in H.
    rewrite fmap_app, Forall_app in H. destruct H as [Hg Hf].
    apply Forall_blank_plain in Hg. split; [done|].
    by apply (Forall_blank_unless_in family generation Hg).
  - intros [Hg Hf]. f_equal. apply cleanJoin_empty_iff.
    rewrite fmap_app, Forall_app. split.
    + by apply Forall_blank_plain.
    + by apply Forall_blank_unless_in.
Qed.

Lemma processor_empty_model_witness :
  reactiveLogic.formatProcessor "  " " " "" = Normal "".
Proof.
  apply (processor_empty_model "  " " "). split; reflexivity.
Defined.

(** C6 as stated fails: with an empty model and a non-empty generation the
    output is the generation, not the empty string. *)
Lemma processor_empty_model_counterexample :
  reactiveLogic.formatProcessor "Intel" "Intel Core i7" "" = Normal "Intel Core i7" /\
  reactiveLogic.formatProcessor "Intel" "Intel Core i7" "" <> Normal "".
Proof. split; [by vm_compute | by vm_compute]. Qed.

Lemma processor_examples :
  reactiveLogic.formatProcessor "Intel" "Intel Core i7" "i7-1260P"
    = Normal "Intel Core i7 i7-1260P" /\
  reactiveLogic.formatProcessor "Ryzen 7" "AMD" "7840U" = Normal "AMD Ryzen 7 7840U" /\
  reactiveLogic.formatProcessor "" "" "" = Normal "".
Proof. by vm_compute. Qed.

(** ** Totality and leniency *)




(** ** Integrated GPU *)

(** The tokens of the integrated GPU.  formatIntegratedGpu hands cleanJoin
    the tokens brand, model, family and memory with GB, in that order; brand
    and family are each left out when they occur in the raw model text,
    letter case aside, and the test is never made the other way round: a
    family that contains the model is kept.  The importer builds the same
    token list from the product and joins it with its own copy of the loop
    of cleanJoin, which gives the same result on tokens without surrounding
    white space. *)
Theorem integrated_gpu_token_order (brand model family memory : string) :
  reactiveLogic.onboardGpu_parts brand model family memory =
    Some <$> (Spec.token_unless_in brand model ++ [model] ++
              Spec.token_unless_in family model ++ Spec.token memory "GB") /\
  reactiveLogic.formatIntegratedGpu brand model family memory =
    utils.cleanJoin (Some <$> Spec.integrated_tokens brand model family memory) /\
  reactiveLogic.formatIntegratedGpu "" "Iris" "Iris Xe" "" = Normal "Iris Iris Xe" /\
  (forall g,
      utils.filter_Boolean (IcecatScanner.integrated_parts g) =
        Spec.integrated_tokens
          (IcecatScanner.or_empty (IcecatScanner.marca_integrada g))
          (IcecatScanner.or_empty (IcecatScanner.modelo_integrado g))
          (IcecatScanner.or_empty (IcecatScanner.familia_integrada g))
          (if JS.truthy_num (IcecatScanner.memoria_integrada_gb g)
           then IcecatScanner.number_text (IcecatScanner.memoria_integrada_gb g)
           else "")) /\
  (forall g,
      Forall (fun t => JS.trim t = t)
        (utils.filter_Boolean (IcecatScanner.integrated_parts g)) ->
      IcecatScanner.integratedFullName g =
        utils.cleanJoin (IcecatScanner.integrated_parts g)).
Proof.
  split.
  { unfold reactiveLogic.onboardGpu_parts, Spec.token_unless_in, Spec.ci_substring,
      Spec.token, push.
    by destruct (JS.truthy brand && _), (JS.truthy family && _), (JS.truthy memory). }
  split.
  { by rewrite formatIntegratedGpu_tokens, cleanJoin_refines. }
  split; [by vm_compute|].
  split; [apply importer_integrated_tokens|].
  intros g H. by apply dedup_join_cleanJoin.
Qed.

Lemma integrated_gpu_token_order_witness :
  let g :=
    {| IcecatScanner.tiene_dedicada := false;
       IcecatScanner.marca_dedicada := None;
       IcecatScanner.modelo_dedicado := None;
       IcecatScanner.memoria_dedicada_gb := None;
       IcecatScanner.tipo_memoria_dedicada := None;
       IcecatScanner.marca_integrada := Some "Intel";
       IcecatScanner.modelo_integrado := Some "Intel Iris Xe Graphics";
       IcecatScanner.familia_integrada := Some "Iris Xe";
       IcecatScanner.memoria_integrada_gb := None |} in
  Forall (fun t => JS.trim t = t)
    (utils.filter_Boolean (IcecatScanner.integrated_parts g)) /\
  IcecatScanner.integratedFullName g = Normal "Intel Iris Xe Graphics".
Proof.
  intros g.
  assert (H : Forall (fun t => JS.trim t = t)
                (utils.filter_Boolean (IcecatScanner.integrated_parts g)))
    by (repeat constructor).
  pose proof (integrated_gpu_token_order "" "" "" "") as (_ & _ & _ & _ & Hjoin).
  split; [exact H | exact (Hjoin g H)].
Defined.

(** C8.  For every integrated GpuSpec, formatIntegratedGpu emits the tokens
    brand, model, family and memory with GB, brand and family being left out
    when they occur in the model, and the result passes through the
    cleanJoin utility.  [updateOnboardGPU] does so.  [populateForm] does not
    call cleanJoin: it joins the tokens by its own copy of the loop, which
    neither trims a token nor drops one that is blank after the trim.  For a
    brand and a family that end with a space the importer keeps the spaces
    and the repeated token, where cleanJoin, and the form script on the same
    texts, give Intel UHD. *)
Theorem importer_integrated_name_untrimmed :
  let g :=
    {| IcecatScanner.tiene_dedicada := false;
       IcecatScanner.marca_dedicada := None;
       IcecatScanner.modelo_dedicado := None;
       IcecatScanner.memoria_dedicada_gb := None;
       IcecatScanner.tipo_memoria_dedicada := None;
       IcecatScanner.marca_integrada := Some "Intel ";
       IcecatScanner.modelo_integrado := Some "UHD";
       IcecatScanner.familia_integrada := Some "UHD ";
       IcecatScanner.memoria_integrada_gb := None |} in
  utils.filter_Boolean (IcecatScanner.integrated_parts g) = ["Intel "; "UHD"; "UHD "] /\
  IcecatScanner.integratedFullName g = Normal "Intel  UHD UHD " /\
  utils.cleanJoin (IcecatScanner.integrated_parts g) = Normal "Intel UHD" /\
  reactiveLogic.formatIntegratedGpu "Intel " "UHD" "UHD " "" = Normal "Intel UHD".
Proof. intros g. repeat split; vm_compute; reflexivity. Qed.

Lemma integrated_gpu_examples :
  reactiveLogic.formatIntegratedGpu "Intel" "Iris Xe" "Intel" "" = Normal "Intel Iris Xe Intel" /\
  reactiveLogic.formatIntegratedGpu "Intel" "Intel Iris Xe" "Iris" "" = Normal "Intel Iris Xe" /\
  reactiveLogic.formatIntegratedGpu "AMD" "Radeon 780M" "RDNA 3" "4" = Normal "AMD Radeon 780M RDNA 3 4GB" /\
  reactiveLogic.formatIntegratedGpu "INTEL" "intel uhd" "UHD" "" = Normal "intel uhd".
Proof. by vm_compute. Qed.

(** ** Fields that hold 0 *)

(** C9, as the code has it.  In the form script a field is text, and it is
    present when the text is not empty: the text 0 contributes its token like
    any other number (the inch token of the screen, 0GB of the integrated
    GPU, 0GB and 0MHz of the RAM).  In the importer the fields are numbers,
    and there a 0 contributes no token, like null. *)
Theorem zero_field_tokens :
  (forall resolution hdType panel refresh touch,
      reactiveLogic.formatScreen (JS.Number_toString 0) resolution hdType panel refresh touch =
        Normal (Spec.cleanJoin
                  (Some <$> ("0" +:+ inch_mark) ::
                            Spec.screen_tokens "" resolution hdType panel refresh touch))) /\
  (forall brand model family,
      reactiveLogic.formatIntegratedGpu brand model family (JS.Number_toString 0) =
        Normal (Spec.cleanJoin
                  (Some <$> Spec.integrated_tokens brand model family "" ++ ["0GB"]))) /\
  (forall type transfer,
      reactiveLogic.formatRam (JS.Number_toString 0) type (JS.Number_toString 0) transfer =
        Normal (Spec.cleanJoin
                  (Some <$> "0GB" :: Spec.plain type ++ "0MHz" :: Spec.token transfer "MT/s"))) /\
  (forall res hd ti hz ta,
      IcecatScanner.screenFullName
        {| IcecatScanner.resolucion := res; IcecatScanner.tipo_hd := hd;
           IcecatScanner.diagonal_pulgadas := Some 0; IcecatScanner.tipo := ti;
           IcecatScanner.tasa_refresco_hz := hz; IcecatScanner.tactil := ta |} =
      IcecatScanner.screenFullName
        {| IcecatScanner.resolucion := res; IcecatScanner.tipo_hd := hd;
           IcecatScanner.diagonal_pulgadas := None; IcecatScanner.tipo := ti;
           IcecatScanner.tasa_refresco_hz := hz; IcecatScanner.tactil := ta |}) /\
  (forall g,
      IcecatScanner.memoria_integrada_gb g = Some 0 ->
      utils.filter_Boolean (IcecatScanner.integrated_parts g) =
        Spec.integrated_tokens
          (IcecatScanner.or_empty (IcecatScanner.marca_integrada g))
          (IcecatScanner.or_empty (IcecatScanner.modelo_integrado g))
          (IcecatScanner.or_empty (IcecatScanner.familia_integrada g)) "") /\
  (forall type transfer,
      IcecatScanner.ramFullName
        {| IcecatScanner.capacidad_gb := Some 0; IcecatScanner.ram_tipo := type;
           IcecatScanner.velocidad_mhz := Some 0;
           IcecatScanner.tasa_transferencia := transfer |} =
      IcecatScanner.ramFullName
        {| IcecatScanner.capacidad_gb := None; IcecatScanner.ram_tipo := type;
           IcecatScanner.velocidad_mhz := None;
           IcecatScanner.tasa_transferencia := transfer |}).
Proof.
  change (JS.Number_toString 0) with "0".
  split; [intros; by rewrite formatScreen_tokens|].
  split.
  { intros. rewrite formatIntegratedGpu_tokens. unfold Spec.integrated_tokens.
    change (Spec.token "" "GB") with (@nil string).
    change (Spec.token "0" "GB") with ["0GB"].
    by rewrite List.app_nil_r, <- !List.app_assoc. }
  split; [intros; by rewrite formatRam_tokens|].
  split; [done|].
  split; [|done].
  intros g Hg. rewrite importer_integrated_tokens. by rewrite Hg.
Qed.

Lemma zero_field_tokens_witness :
  let g :=
    {| IcecatScanner.tiene_dedicada := false;
       IcecatScanner.marca_dedicada := None;
       IcecatScanner.modelo_dedicado := None;
       IcecatScanner.memoria_dedicada_gb := None;
       IcecatScanner.tipo_memoria_dedicada := None;
       IcecatScanner.marca_integrada := Some "Intel";
       IcecatScanner.modelo_integrado := Some "Iris Xe";
       IcecatScanner.familia_integrada := None;
       IcecatScanner.memoria_integrada_gb := Some 0 |} in
  IcecatScanner.memoria_integrada_gb g = Some 0 /\
  utils.filter_Boolean (IcecatScanner.integrated_parts g) = ["Intel"; "Iris Xe"].
Proof.
  intros g.
  assert (H0 : IcecatScanner.memoria_integrada_gb g = Some 0) by reflexivity.
  pose proof zero_field_tokens as (_ & _ & _ & _ & H & _).
  split; [exact H0 | exact (H g H0)].
Defined.

(** C9 as stated fails: in the form script a field that holds 0 does
    contribute its token. *)
Lemma zero_text_counterexample :
  reactiveLogic.formatRam "0" "" "0" "" = Normal "0GB 0MHz" /\
  reactiveLogic.formatIntegratedGpu "" "" "" "0" = Normal "0GB" /\
  reactiveLogic.formatScreen "0" "" "" "" "" false = Normal ("0" +:+ inch_mark) /\
  reactiveLogic.formatRam "0" "" "0" "" <> reactiveLogic.formatRam "" "" "" "".
Proof. repeat split; by vm_compute. Qed.

(** ** Digit runs longer than four *)

(** C10.  When the first digit run of the input is longer than four digits,
    mapResolution does not return null for want of a run of three or four
    digits: it takes the first four digits of that run and maps them by the
    table. *)
Theorem mapResolution_long_run (pre ds post : string) :
  Spec.no_digit pre = true -> Spec.all_digits ds = true ->
  (4 < String.length ds)%nat ->
  utils.mapResolution (Some (pre +:+ ds +:+ post)) =
    Spec.bucket (Spec.decimal (String.substring 0 4 ds)).
Proof.
  intros Hpre Hds Hlen.
  apply (mapResolution_first_run _ pre _ (JS.drop 4 ds +:+ post)).
  by apply long_run_first_run.
Qed.

Lemma mapResolution_long_run_witness :
  utils.mapResolution (Some "w18000px") = Some "FHD" /\
  utils.mapResolution (Some "10000") = None.
Proof.
  split.
  - apply (mapResolution_long_run "w" "18000" "px"); [reflexivity | reflexivity |].
    simpl. lia.
  - apply (mapResolution_long_run "" "10000" ""); [reflexivity | reflexivity |].
    simpl. lia.
Defined.

(** * Further properties of the code *)

(** ** [cleanJoin]: the shape of its result *)

Section tight.

Lemma trimEnd_last_ok (s : string) : last_ok (JS.trimEnd s) = true.
Proof.
  induction s as [|c s IH]; [done|]. simpl.
  destruct (JS.trimEnd s) as [|d t] eqn:E.
  - destruct (JS.isWhiteSpace c) eqn:Hc; simpl; by rewrite ?Hc.
  - done.
Qed.

Lemma trimEnd_id (s : string) : last_ok s = true -> JS.trimEnd s = s.
Proof.
  induction s as [|c s IH]; [done|]. simpl.
  destruct s as [|d t].
  - simpl. by intros ->%negb_true_iff.
  - intros H. by rewrite (IH H).
Qed.

Lemma trimEnd_head_ok (s : string) : head_ok s = true -> head_ok (JS.trimEnd s) = true.
Proof.
  destruct s as [|c s]; [done|]. cbn [head_ok]. intros Hc%negb_true_iff.
  rewrite (trimEnd_cons c s Hc). cbn [head_ok]. by rewrite Hc.
Qed.

Lemma trimStart_head_ok (s : string) : head_ok (JS.trimStart s) = true.
Proof.
  pose proof (trimStart_head s) as H.
  destruct (JS.trimStart s); [done|]. cbn [head_ok]. by rewrite H.
Qed.

Lemma trimStart_id (s : string) : head_ok s = true -> JS.trimStart s = s.
Proof. destruct s as [|c s]; [done|]. simpl. by intros ->%negb_true_iff. Qed.

Lemma trim_tight (s : string) :
  head_ok (JS.trim s) = true /\ last_ok (JS.trim s) = true.
Proof.
  unfold JS.trim. split.
  - apply trimEnd_head_ok, trimStart_head_ok.
  - apply trimEnd_last_ok.
Qed.

Lemma tight_trim (s : string) :
  head_ok s = true -> last_ok s = true -> JS.trim s = s.
Proof.
  intros Hh Hl. unfold JS.trim. rewrite (trimStart_id s Hh). by apply trimEnd_id.
Qed.

Lemma head_ok_app (s t : string) :
  JS.truthy s = true -> head_ok (s +:+ t) = head_ok s.
Proof. by destruct s. Qed.

Lemma last_ok_app (s t : string) :
  JS.truthy t = true -> last_ok (s +:+ t) = last_ok t.
Proof.
  intros Ht. induction s as [|c s IH]; [done|].
  rewrite str_app_cons. cbn [last_ok]. rewrite IH.
  destruct (s +:+ t) eqn:E; [|done].
  apply str_app_eq_nil in E as [_ ->]. done.
Qed.

(** Tokens that are tight and not empty join to a tight text. *)
Lemma join_tight (xs : list string) :
  Forall (fun x => JS.truthy x = true /\ head_ok x = true /\ last_ok x = true) xs ->
  head_ok (JS.join " " xs) = true /\ last_ok (JS.join " " xs) = true.
Proof.
  induction xs as [|x [|y ys] IH]; intros H; [done| |].
  - apply Forall_cons in H as [(_ & Hh & Hl) _]. done.
  - apply Forall_cons in H as [(Hx & Hh & Hl) H]. specialize (IH H) as [_ IHl].
    cbn [JS.join]. rewrite head_ok_app by done. split; [done|].
    rewrite last_ok_app, last_ok_app; [done| |].
    + apply Forall_cons in H as [(Hy & _) _]. clear -Hy.
      destruct ys; [done|]. cbn [JS.join]. by apply truthy_app.
    + done.
Qed.

Lemma present_tight (parts : list (option string)) :
  Forall (fun x => JS.truthy x = true /\ head_ok x = true /\ last_ok x = true)
    (Spec.present parts).
Proof.
  induction parts as [|[t|] parts IH]; simpl; [done| |done].
  destruct (String.eqb_spec (JS.trim t) "") as [|Hne]; [done|].
  constructor; [|done]. split; [by apply truthy_true | apply trim_tight].
Qed.

Lemma dedup_adjacent_Forall (P : string -> Prop) (prev : option string)
    (toks : list string) :
  Forall P toks -> Forall P (Spec.dedup_adjacent prev toks).
Proof.
  revert prev. induction toks as [|t toks IH]; intros prev H; [done|].
  apply Forall_cons in H as [Ht H]. simpl.
  destruct prev as [p|]; [destruct (Spec.ci_equal t p)|]; auto.
Qed.

Lemma cleanJoin_tight (parts : list (option string)) :
  JS.trim (Spec.cleanJoin parts) = Spec.cleanJoin parts.
Proof.
  unfold Spec.cleanJoin.
  assert (H : Forall (fun x => JS.truthy x = true /\ head_ok x = true /\ last_ok x = true)
                (Spec.dedup_adjacent None (Spec.present parts))).
  { apply dedup_adjacent_Forall, present_tight. }
  apply join_tight in H as [Hh Hl]. by apply tight_trim.
Qed.

End tight.

(** X1.  The text that cleanJoin returns never starts or ends with white
    space, whatever the tokens are, and joining it once more returns it
    unchanged. *)
Theorem cleanJoin_result_tight (parts : list (option string)) :
  exists out,
    utils.cleanJoin parts = Normal out /\
    JS.trim out = out /\
    utils.cleanJoin [Some out] = Normal out.
Proof.
  exists (Spec.cleanJoin parts). split; [apply cleanJoin_refines|].
  pose proof (cleanJoin_tight parts) as Ht. split; [done|].
  rewrite cleanJoin_refines. f_equal. unfold Spec.cleanJoin at 1. simpl.
  rewrite Ht. by destruct (String.eqb_spec (Spec.cleanJoin parts) "") as [->|].
Qed.

(** ** [mapResolution]: what a label requires *)

Section labels.

Lemma decimal_three_digits (m : string) :
  Spec.all_digits m = true -> String.length m = 3%nat -> 0 <= Spec.decimal m <= 999.
Proof.
  destruct m as [|a [|b [|c [|d m]]]]; try done.
  cbn [Spec.all_digits]. intros H _.
  apply andb_true_iff in H as [Ha H]. apply andb_true_iff in H as [Hb H].
  apply andb_true_iff in H as [Hc _].
  apply isDigit_spec in Ha, Hb, Hc. unfold Spec.decimal. simpl. lia.
Qed.

Lemma bucket_Some (h : Z) (l : string) :
  Spec.bucket h = Some l ->
  (1800 <= h <= 4500 \/ 7000 < h <= 8500) /\
  In l ["FHD"; "2K"; "2.5K"; "3K"; "4K"; "8K"].
Proof.
  unfold Spec.bucket. intros H.
  repeat match type of H with
         | (if ?c then _ else _) = _ =>
             let E := fresh "E" in
             destruct c eqn:E;
             [ apply andb_true_iff in E as [? ?]; injection H as <-;
               repeat match goal with
                      | H' : (_ <=? _) = true |- _ => apply Z.leb_le in H'
                      | H' : (_ <? _) = true |- _ => apply Z.ltb_lt in H'
                      end;
               split; [lia | simpl; tauto] | ]
         end.
  discriminate H.
Qed.

End labels.

(** X2.  mapResolution gives a label only when the first run of three or four
    digits in the text has four digits and denotes a number from 1800 to 4500
    or from 7001 to 8500; the label is one of FHD, 2K, 2.5K, 3K, 4K and 8K.
    A text whose first run has three digits gets no label. *)
Theorem mapResolution_label_requires (s l : string) :
  utils.mapResolution (Some s) = Some l ->
  exists pre m post,
    Spec.first_run s pre m post /\
    String.length m = 4%nat /\
    (1800 <= Spec.decimal m <= 4500 \/ 7000 < Spec.decimal m <= 8500) /\
    In l ["FHD"; "2K"; "2.5K"; "3K"; "4K"; "8K"].
Proof.
  intros H. destruct (run_or_not s) as [[Hno _]|(pre & m & post & Hrun & _)].
  { by rewrite (mapResolution_no_run s Hno) in H. }
  rewrite (mapResolution_first_run _ _ _ _ Hrun) in H.
  apply bucket_Some in H as [Hrange Hl].
  exists pre, m, post. split; [done|]. split; [|done].
  destruct Hrun as (_ & Hd & [Hlen|[Hlen _]] & _); [done|].
  pose proof (decimal_three_digits m Hd Hlen). lia.
Qed.

Lemma mapResolution_label_requires_witness :
  utils.mapResolution (Some "2880 x 1800") = Some "2.5K" /\
  exists pre m post,
    Spec.first_run "2880 x 1800" pre m post /\
    String.length m = 4%nat /\
    (1800 <= Spec.decimal m <= 4500 \/ 7000 < Spec.decimal m <= 8500) /\
    In "2.5K" ["FHD"; "2K"; "2.5K"; "3K"; "4K"; "8K"].
Proof.
  assert (H : utils.mapResolution (Some "2880 x 1800") = Some "2.5K") by reflexivity.
  split; [exact H | exact (mapResolution_label_requires _ _ H)].
Defined.

(** ** The [updateX] on the form: what they touch and how they compose *)

Section set_target.

Lemma lookup_set_target_ne (doc : document) (t id v : string) :
  t <> id -> set_target doc t v !! id = doc !! id.
Proof.
  intros Hne. unfold set_target. destruct (doc !! t); [|done].
  by rewrite lookup_insert_ne.
Qed.

Lemma lookup_set_target (doc : document) (t v : string) :
  set_target doc t v !! t =
    (fun el => {| value := v; checked := checked el |}) <$> doc !! t.
Proof.
  unfold set_target. destruct (doc !! t) as [el|] eqn:E; simpl.
  - by rewrite lookup_insert_eq.
  - by rewrite E.
Qed.

Lemma dom_set_target (doc : document) (t v : string) :
  dom (set_target doc t v) = dom doc.
Proof.
  unfold set_target. destruct (doc !! t) as [el|] eqn:E; [|done].
  by apply dom_insert_lookup_L.
Qed.

Lemma set_target_twice (doc : document) (t a b : string) :
  set_target (set_target doc t a) t b = set_target doc t b.
Proof.
  apply map_eq. intros id. destruct (decide (t = id)) as [<-|Hne].
  - rewrite !lookup_set_target. by destruct (doc !! t).
  - by rewrite !lookup_set_target_ne.
Qed.

Lemma set_target_comm (doc : document) (t1 t2 a b : string) :
  t1 <> t2 ->
  set_target (set_target doc t1 a) t2 b = set_target (set_target doc t2 b) t1 a.
Proof.
  intros Hne. apply map_eq. intros id.
  destruct (decide (t1 = id)) as [<-|H1].
  - rewrite lookup_set_target_ne, !lookup_set_target by done.
    by rewrite lookup_set_target_ne by done.
  - destruct (decide (t2 = id)) as [<-|H2].
    + rewrite lookup_set_target, !lookup_set_target_ne, lookup_set_target by done.
      done.
    + by rewrite !lookup_set_target_ne.
Qed.

Lemma field_checked_set_target (doc : document) (t v id : string) :
  field_checked (set_target doc t v) id = field_checked doc id.
Proof.
  unfold field_checked. destruct (decide (t = id)) as [<-|Hne].
  - rewrite lookup_set_target. by destruct (doc !! t).
  - by rewrite lookup_set_target_ne.
Qed.

End set_target.

Section updates.

Lemma not_name_field (id : string) :
  bool_decide (id ∈ name_fields) = false -> id ∉ name_fields.
Proof. by intros H%bool_decide_eq_false. Qed.

Lemma field_value_set_name (doc : document) (t v id : string) :
  t ∈ name_fields -> id ∉ name_fields ->
  field_value (set_target doc t v) id = field_value doc id.
Proof.
  intros Ht Hid. apply field_value_set_target_ne. by intros ->.
Qed.

(** Every [updateX] writes a text computed from fields other than the name
    fields into its own name field, and that text is tight. *)
Lemma update_shape (t : string) (u : document -> completion document) :
  (t, u) ∈ updates ->
  exists f : document -> string,
    (forall doc, u doc = Normal (set_target doc t (f doc))) /\
    (forall doc t' v, t' ∈ name_fields -> f (set_target doc t' v) = f doc) /\
    (forall doc, JS.trim (f doc) = f doc).
Proof.
  unfold updates. rewrite !elem_of_cons, elem_of_nil.
  intros [H|[H|[H|[H|[H|[H|[]]]]]]]; injection H as -> ->.
  - eexists (fun doc => Spec.cleanJoin _). split; [|split].
    + intros doc. unfold reactiveLogic.updateProcessor.
      rewrite formatProcessor_tokens. reflexivity.
    + intros doc t' v Ht'. cbv beta.
      by rewrite !(field_value_set_name doc t' v) by (done || by apply not_name_field).
    + intros doc. apply cleanJoin_tight.
  - eexists (fun doc => Spec.cleanJoin _). split; [|split].
    + intros doc. unfold reactiveLogic.updateScreen.
      rewrite formatScreen_tokens. reflexivity.
    + intros doc t' v Ht'. cbv beta.
      rewrite !(field_value_set_name doc t' v) by (done || by apply not_name_field).
      by rewrite field_checked_set_target.
    + intros doc. apply cleanJoin_tight.
  - eexists (fun doc =>
      if field_checked doc "has_discrete_gpu" then Spec.cleanJoin _ else "").
    split; [|split].
    + intros doc. rewrite updateDiscreteGPU_format.
      destruct (field_checked doc "has_discrete_gpu").
      * rewrite formatDiscreteGpu_tokens. reflexivity.
      * reflexivity.
    + intros doc t' v Ht'. cbv beta.
      rewrite !(field_value_set_name doc t' v) by (done || by apply not_name_field).
      by rewrite field_checked_set_target.
    + intros doc. destruct (field_checked doc "has_discrete_gpu"); [|done].
      apply cleanJoin_tight.
  - eexists (fun doc => Spec.cleanJoin _). split; [|split].
    + intros doc. unfold reactiveLogic.updateOnboardGPU.
      rewrite formatIntegratedGpu_tokens. reflexivity.
    + intros doc t' v Ht'. cbv beta.
      by rewrite !(field_value_set_name doc t' v) by (done || by apply not_name_field).
    + intros doc. apply cleanJoin_tight.
  - eexists (fun doc => Spec.cleanJoin _). split; [|split].
    + intros doc. unfold reactiveLogic.updateStorage.
      rewrite formatStorage_tokens. reflexivity.
    + intros doc t' v Ht'. cbv beta.
      rewrite !(field_value_set_name doc t' v) by (done || by apply not_name_field).
      by rewrite field_checked_set_target.
    + intros doc. apply cleanJoin_tight.
  - eexists (fun doc => Spec.cleanJoin _). split; [|split].
    + intros doc. unfold reactiveLogic.updateRAM.
      rewrite formatRam_tokens. reflexivity.
    + intros doc t' v Ht'. cbv beta.
      by rewrite !(field_value_set_name doc t' v) by (done || by apply not_name_field).
    + intros doc. apply cleanJoin_tight.
Qed.

End updates.

(** X3.  An updateX changes nothing but the value of its own name field: it
    never throws, it neither adds nor removes an element, every other
    element is left as it was, and the checked flag of the name field is
    kept. *)
Theorem update_frame (t : string) (u : document -> completion document)
    (doc : document) :
  (t, u) ∈ updates ->
  exists doc',
    u doc = Normal doc' /\
    dom doc' = dom doc /\
    (forall id, id <> t -> doc' !! id = doc !! id) /\
    checked <$> doc' !! t = checked <$> doc !! t.
Proof.
  intros Hu. destruct (update_shape t u Hu) as (f & Hf & _ & _).
  exists (set_target doc t (f doc)). split; [apply Hf|].
  split; [apply dom_set_target|]. split.
  - intros id Hne. by apply lookup_set_target_ne.
  - rewrite lookup_set_target. by destruct (doc !! t).
Qed.

Lemma update_frame_witness :
  let doc : document :=
    {[ "ram_capacity" := {| value := "16"; checked := false |};
       "ram_type_detailed" := {| value := "DDR5"; checked := false |};
       "ram_full_name" := {| value := ""; checked := true |} ]} in
  ("ram_full_name", reactiveLogic.updateRAM) ∈ updates /\
  exists doc',
    reactiveLogic.updateRAM doc = Normal doc' /\
    dom doc' = dom doc /\
    (forall id, id <> "ram_full_name" -> doc' !! id = doc !! id) /\
    checked <$> doc' !! "ram_full_name" = checked <$> doc !! "ram_full_name".
Proof.
  intros doc.
  assert (H : ("ram_full_name", reactiveLogic.updateRAM) ∈ updates)
    by (unfold updates; rewrite !elem_of_cons; tauto).
  split; [exact H | exact (update_frame _ _ doc H)].
Defined.

(** X4.  An updateX is idempotent: run a second time, it leaves the form as
    the first run left it. *)
Theorem update_idempotent (t : string) (u : document -> completion document)
    (doc : document) :
  (t, u) ∈ updates -> (doc' ← u doc; u doc') = u doc.
Proof.
  intros Hu. destruct (update_shape t u Hu) as (f & Hf & Hnames & _).
  rewrite (Hf doc). cbn [mbind completion_bind]. rewrite Hf.
  assert (Ht : t ∈ name_fields).
  { unfold name_fields. apply (list_elem_of_fmap_2 fst) in Hu. exact Hu. }
  by rewrite Hnames, set_target_twice.
Qed.

Lemma update_idempotent_witness :
  let doc : document :=
    {[ "screen_diagonal_inches" := {| value := "14"; checked := false |};
       "screen_resolution" := {| value := "2560x1440"; checked := false |};
       "screen_full_name" := {| value := "old"; checked := false |} ]} in
  ("screen_full_name", reactiveLogic.updateScreen) ∈ updates /\
  (doc' ← reactiveLogic.updateScreen doc; reactiveLogic.updateScreen doc')
    = reactiveLogic.updateScreen doc.
Proof.
  intros doc.
  assert (H : ("screen_full_name", reactiveLogic.updateScreen) ∈ updates)
    by (unfold updates; rewrite !elem_of_cons; tauto).
  split; [exact H | exact (update_idempotent _ _ doc H)].
Defined.

Section commute.

Lemma updates_functional (t : string) (u1 u2 : document -> completion document) :
  (t, u1) ∈ updates -> (t, u2) ∈ updates -> u1 = u2.
Proof.
  unfold updates. intros H1 H2.
  repeat (apply elem_of_cons in H1 as [H1|H1]; [apply pair_equal_spec in H1 as [-> ->]|]);
    try (by apply elem_of_nil in H1);
    repeat (apply elem_of_cons in H2 as [H2|H2];
            [apply pair_equal_spec in H2 as [E ->]; first [done | discriminate E]|]);
    by apply elem_of_nil in H2.
Qed.

Lemma updates_name (t : string) (u : document -> completion document) :
  (t, u) ∈ updates -> t ∈ name_fields.
Proof. intros Hu. unfold name_fields. by apply (list_elem_of_fmap_2 fst) in Hu. Qed.

End commute.

(** X5.  Any two of the updateX commute: the form they leave does not depend
    on the order in which they run. *)
Theorem updates_commute (t1 t2 : string)
    (u1 u2 : document -> completion document) (doc : document) :
  (t1, u1) ∈ updates -> (t2, u2) ∈ updates ->
  (doc' ← u1 doc; u2 doc') = (doc' ← u2 doc; u1 doc').
Proof.
  intros H1 H2. destruct (decide (t1 = t2)) as [->|Hne].
  { by rewrite (updates_functional t2 u1 u2 H1 H2). }
  destruct (update_shape t1 u1 H1) as (f1 & Hf1 & Hn1 & _).
  destruct (update_shape t2 u2 H2) as (f2 & Hf2 & Hn2 & _).
  rewrite (Hf1 doc), (Hf2 doc). cbn [mbind completion_bind].
  rewrite Hf1, Hf2.
  rewrite (Hn1 doc t2) by (by apply (updates_name t2 u2)).
  rewrite (Hn2 doc t1) by (by apply (updates_name t1 u1)).
  by rewrite set_target_comm.
Qed.

Lemma updates_commute_witness :
  let doc : document :=
    {[ "storage_capacity" := {| value := "1024"; checked := false |};
       "storage_full_name" := {| value := ""; checked := false |};
       "ram_capacity" := {| value := "16"; checked := false |};
       "ram_full_name" := {| value := ""; checked := false |} ]} in
  ("storage_full_name", reactiveLogic.updateStorage) ∈ updates /\
  ("ram_full_name", reactiveLogic.updateRAM) ∈ updates /\
  (doc' ← reactiveLogic.updateStorage doc; reactiveLogic.updateRAM doc')
    = (doc' ← reactiveLogic.updateRAM doc; reactiveLogic.updateStorage doc').
Proof.
  intros doc.
  assert (H1 : ("storage_full_name", reactiveLogic.updateStorage) ∈ updates)
    by (unfold updates; rewrite !elem_of_cons; tauto).
  assert (H2 : ("ram_full_name", reactiveLogic.updateRAM) ∈ updates)
    by (unfold updates; rewrite !elem_of_cons; tauto).
  split; [exact H1 | split; [exact H2 | exact (updates_commute _ _ _ _ doc H1 H2)]].
Defined.

(** ** [init]: the initial run *)

Section init.

Import LaptopReactiveNames.

Lemma bind_Normal {A : Type} (m : completion A) : (x ← m; Normal x) = m.
Proof. by destruct m. Qed.

Lemma initial_run_each (doc : document) : initial_run doc = run_each updates doc.
Proof.
  unfold initial_run, updates. cbn [run_each].
  destruct (run_if_empty "processor_full_name" _ doc) as [d1|]; [|done].
  cbn [mbind completion_bind].
  destruct (run_if_empty "screen_full_name" _ d1) as [d2|]; [|done].
  cbn [mbind completion_bind].
  destruct (run_if_empty "discrete_gpu_full_name" _ d2) as [d3|]; [|done].
  cbn [mbind completion_bind].
  destruct (run_if_empty "onboard_gpu_full_name" _ d3) as [d4|]; [|done].
  cbn [mbind completion_bind].
  destruct (run_if_empty "storage_full_name" _ d4) as [d5|]; [|done].
  cbn [mbind completion_bind].
  by destruct (run_if_empty "ram_full_name" _ d5).
Qed.

Lemma field_value_lookup (d1 d2 : document) (id : string) :
  d1 !! id = d2 !! id -> field_value d1 id = field_value d2 id.
Proof. unfold field_value. by intros ->. Qed.

Lemma truthy_opt_value (doc : document) (id : string) :
  JS.truthy_opt (value <$> doc !! id) = JS.truthy (field_value doc id).
Proof.
  unfold field_value. destruct (doc !! id) as [el|]; [|done]. simpl.
  by destruct (JS.truthy (value el)) eqn:E.
Qed.

Lemma run_each_spec (us : list (string * (document -> completion document))) :
  (forall t u, (t, u) ∈ us -> (t, u) ∈ updates) ->
  NoDup us.*1 ->
  forall doc, exists doc',
    run_each us doc = Normal doc' /\
    dom doc' = dom doc /\
    (forall id, id ∉ us.*1 -> doc' !! id = doc !! id) /\
    (forall t u, (t, u) ∈ us ->
       if JS.truthy (field_value doc t) then doc' !! t = doc !! t
       else exists d, u doc = Normal d /\ doc' !! t = d !! t).
Proof.
  induction us as [|[t u] us IH]; intros Hsub Hnd doc.
  { exists doc. repeat split; try done. intros t u H. by apply elem_of_nil in H. }
  rewrite fmap_cons in Hnd. cbn [fst] in Hnd.
  apply NoDup_cons in Hnd as [Ht Hnd].
  assert (Hu : (t, u) ∈ updates) by (apply Hsub; left).
  destruct (update_shape t u Hu) as (f & Hf & Hn & _).
  assert (exists d1, run_if_empty t u doc = Normal d1 /\
            dom d1 = dom doc /\
            (forall id, t <> id -> d1 !! id = doc !! id) /\
            (if JS.truthy (field_value doc t) then d1 = doc else u doc = Normal d1) /\
            (forall g : document -> string,
               (forall doc t' v, t' ∈ name_fields -> g (set_target doc t' v) = g doc) ->
               g d1 = g doc))
    as (d1 & Hrun & Hdom1 & Hne1 & Hself & Hg).
  { unfold run_if_empty. rewrite truthy_opt_value.
    destruct (JS.truthy (field_value doc t)); cbn [negb].
    - exists doc. by repeat split.
    - exists (set_target doc t (f doc)). repeat split.
      + apply Hf.
      + apply dom_set_target.
      + intros id Hne. by apply lookup_set_target_ne.
      + apply Hf.
      + intros g Hgn. apply Hgn. by apply (updates_name t u). }
  destruct (IH (fun t' u' H => Hsub t' u' (list_elem_of_further _ _ _ H)) Hnd d1)
    as (doc' & Hrest & Hdom & Hother & Hnames).
  exists doc'. split; [|split; [|split]].
  - cbn [run_each]. by rewrite Hrun.
  - by rewrite Hdom.
  - intros id Hid. rewrite fmap_cons in Hid. cbn [fst] in Hid.
    apply not_elem_of_cons in Hid as [Hidt Hid].
    rewrite Hother by done. by apply Hne1.
  - intros t2 u2 H2. apply elem_of_cons in H2 as [H2|H2].
    + apply pair_equal_spec in H2 as [-> ->].
      rewrite (Hother t Ht).
      destruct (JS.truthy (field_value doc t)).
      * by rewrite Hself.
      * by exists d1.
    + assert (Hne : t <> t2).
      { intros ->. apply Ht. by apply (list_elem_of_fmap_2 fst) in H2. }
      specialize (Hnames t2 u2 H2).
      rewrite (field_value_lookup d1 doc t2) in Hnames by (by apply Hne1).
      destruct (JS.truthy (field_value doc t2)).
      * rewrite Hnames. by apply Hne1.
      * destruct Hnames as (d & Hd & Hl).
        destruct (update_shape t2 u2 (Hsub t2 u2 (list_elem_of_further _ _ _ H2)))
          as (f2 & Hf2 & Hn2 & _).
        exists (set_target doc t2 (f2 doc)). split; [apply Hf2|].
        rewrite Hl. rewrite Hf2 in Hd. injection Hd as <-.
        rewrite !lookup_set_target, (Hg f2 Hn2). by rewrite Hne1.
Qed.

Lemma NoDup_name_fields : NoDup name_fields.
Proof. by apply (bool_decide_unpack _). Qed.

Lemma init_total (is_checkbox : string -> bool) (doc : document) :
  exists doc', init is_checkbox doc = Normal (register_all is_checkbox doc, doc').
Proof.
  destruct (run_each_spec updates (fun _ _ H => H) NoDup_name_fields doc)
    as (doc' & Hrun & _).
  exists doc'. unfold init. by rewrite initial_run_each, Hrun.
Qed.

End init.

(** X6.  [init] never throws and touches only name fields.  A name field
    that holds text when the script starts keeps it; a name field that is
    empty receives what its updateX computes from the form as it stood. *)
Theorem init_fills_empty_names (is_checkbox : string -> bool) (doc : document) :
  exists doc',
    LaptopReactiveNames.init is_checkbox doc
      = Normal (LaptopReactiveNames.register_all is_checkbox doc, doc') /\
    dom doc' = dom doc /\
    (forall id, id ∉ name_fields -> doc' !! id = doc !! id) /\
    (forall t u, (t, u) ∈ updates ->
       if JS.truthy (field_value doc t) then doc' !! t = doc !! t
       else exists d, u doc = Normal d /\ doc' !! t = d !! t).
Proof.
  destruct (run_each_spec updates (fun _ _ H => H) NoDup_name_fields doc)
    as (doc' & Hrun & Hdom & Hother & Hnames).
  exists doc'. split; [|done].
  unfold LaptopReactiveNames.init. by rewrite initial_run_each, Hrun.
Qed.

Lemma init_fills_empty_names_witness :
  let doc : document :=
    {[ "ram_capacity" := {| value := "16"; checked := false |};
       "ram_full_name" := {| value := ""; checked := false |};
       "storage_capacity" := {| value := "512"; checked := false |};
       "storage_full_name" := {| value := "Disco de la base"; checked := false |} ]} in
  exists doc',
    LaptopReactiveNames.init (fun _ => false) doc
      = Normal (LaptopReactiveNames.register_all (fun _ => false) doc, doc') /\
    dom doc' = dom doc /\
    (forall id, id ∉ name_fields -> doc' !! id = doc !! id) /\
    (forall t u, (t, u) ∈ updates ->
       if JS.truthy (field_value doc t) then doc' !! t = doc !! t
       else exists d, u doc = Normal d /\ doc' !! t = d !! t).
Proof. intros doc. exact (init_fills_empty_names (fun _ => false) doc). Defined.

(** ** [init]: the listeners and the events *)

Section dispatch.

Import LaptopReactiveNames.

Context (is_checkbox : string -> bool) (doc0 : document).

Lemma register_id_app (callback : document -> completion document)
    (registered : list listener) (id : string) :
  register_id is_checkbox doc0 callback registered id
    = registered ++ register_id is_checkbox doc0 callback [] id.
Proof.
  unfold register_id. destruct (doc0 !! id); [|by rewrite app_nil_r].
  destruct (is_checkbox id); cbn [event_eqb negb app]; [done|].
  by rewrite <- app_assoc.
Qed.

Lemma register_ids_app (callback : document -> completion document)
    (ids : list string) (registered : list listener) :
  fold_left (register_id is_checkbox doc0 callback) ids registered
    = registered ++ (id ← ids; register_id is_checkbox doc0 callback [] id).
Proof.
  revert registered. induction ids as [|id ids IH]; intros registered.
  - by rewrite app_nil_r.
  - cbn [fold_left]. rewrite IH, bind_cons, register_id_app.
    by rewrite <- app_assoc.
Qed.

Lemma register_groups_app
    (groups : list (list string * (document -> completion document)))
    (registered : list listener) :
  fold_left
    (fun registered group =>
       fold_left (register_id is_checkbox doc0 (snd group)) (fst group) registered)
    groups registered
  = registered ++
      (p ← (group ← groups; (fun id => (id, snd group)) <$> fst group);
       register_id is_checkbox doc0 (snd p) [] (fst p)).
Proof.
  revert registered. induction groups as [|[ids cb] groups IH]; intros registered.
  - by rewrite app_nil_r.
  - cbn [fold_left fst snd]. rewrite IH, register_ids_app, bind_cons, bind_app.
    cbn [fst snd]. rewrite <- app_assoc. do 2 f_equal.
    clear. induction ids as [|id ids IH]; [done|].
    rewrite fmap_cons, !bind_cons. cbn [fst snd]. by rewrite IH.
Qed.

Lemma register_all_listened :
  register_all is_checkbox doc0
    = (p ← listened; register_id is_checkbox doc0 (snd p) [] (fst p)).
Proof. unfold register_all. by rewrite register_groups_app. Qed.

Lemma dispatchEvent_app (r1 r2 : list listener) (id : string) (type : event)
    (doc : document) :
  dispatchEvent (r1 ++ r2) id type doc
    = dispatchEvent r2 id type (dispatchEvent r1 id type doc).
Proof. unfold dispatchEvent. by rewrite fold_left_app. Qed.

Lemma dispatchEvent_other (r : list listener) (id : string) (type : event)
    (doc : document) :
  Forall (fun l => listener_id l <> id) r -> dispatchEvent r id type doc = doc.
Proof.
  induction 1 as [|l r Hl _ IH]; [done|].
  unfold dispatchEvent in *. cbn [fold_left].
  apply String.eqb_neq in Hl. by rewrite Hl.
Qed.

Lemma register_id_ids (callback : document -> completion document) (id : string) :
  Forall (fun l => listener_id l = id)
    (register_id is_checkbox doc0 callback [] id).
Proof.
  unfold register_id. destruct (doc0 !! id); [|done].
  destruct (is_checkbox id); cbn [event_eqb negb app]; by repeat constructor.
Qed.

Lemma dispatchEvent_missing (callback : document -> completion document)
    (id id' : string) (type : event) (doc : document) :
  doc0 !! id = None ->
  dispatchEvent (register_id is_checkbox doc0 callback [] id') id type doc = doc.
Proof.
  intros Hid. destruct (decide (id' = id)) as [->|Hne].
  - unfold register_id. by rewrite Hid.
  - apply dispatchEvent_other. eapply Forall_impl; [apply register_id_ids|].
    intros l ->. done.
Qed.

Lemma dispatchEvent_self (callback : document -> completion document)
    (id : string) (type : event) (doc : document) :
  is_Some (doc0 !! id) ->
  dispatchEvent (register_id is_checkbox doc0 callback [] id) id type doc
    = if event_eqb type change || negb (is_checkbox id)
      then run_listener callback doc else doc.
Proof.
  intros [el Hel]. unfold register_id, dispatchEvent, run_listener. rewrite Hel.
  destruct (is_checkbox id), type;
    cbn [event_eqb negb app fold_left listener_id listener_type listener_callback
         orb andb];
    rewrite ?String.eqb_refl; cbn [andb]; done.
Qed.

Lemma dispatchEvent_listened
    (ps : list (string * (document -> completion document)))
    (id : string) (callback : document -> completion document)
    (type : event) (doc : document) :
  NoDup ps.*1 -> (id, callback) ∈ ps -> is_Some (doc0 !! id) ->
  dispatchEvent (p ← ps; register_id is_checkbox doc0 (snd p) [] (fst p)) id type doc
    = if event_eqb type change || negb (is_checkbox id)
      then run_listener callback doc else doc.
Proof.
  intros Hnd Hin Hel. revert doc.
  induction ps as [|[id' cb'] ps IH]; intros doc.
  { by apply elem_of_nil in Hin. }
  rewrite fmap_cons in Hnd. cbn [fst] in Hnd. apply NoDup_cons in Hnd as [Hid' Hnd].
  rewrite bind_cons, dispatchEvent_app. cbn [fst snd].
  apply elem_of_cons in Hin as [Hin|Hin].
  - apply pair_equal_spec in Hin as [<- <-].
    rewrite dispatchEvent_self by done.
    apply dispatchEvent_other. apply Forall_forall. intros l Hl.
    apply list_elem_of_bind in Hl as ([id2 cb2] & Hl & Hp). cbn [fst snd] in Hl.
    pose proof (register_id_ids cb2 id2) as Hids.
    rewrite Forall_forall in Hids. rewrite (Hids l Hl).
    intros ->. apply Hid'. by apply (list_elem_of_fmap_2 fst) in Hp.
  - rewrite (dispatchEvent_other (register_id _ _ cb' [] id')).
    + by apply IH.
    + eapply Forall_impl; [apply register_id_ids|]. intros l -> ->.
      apply Hid'. by apply (list_elem_of_fmap_2 fst) in Hin.
Qed.

Lemma dispatchEvent_not_listened
    (ps : list (string * (document -> completion document)))
    (id : string) (type : event) (doc : document) :
  id ∉ ps.*1 \/ doc0 !! id = None ->
  dispatchEvent (p ← ps; register_id is_checkbox doc0 (snd p) [] (fst p)) id type doc
    = doc.
Proof.
  intros Hid. induction ps as [|[id' cb'] ps IH]; [done|].
  rewrite bind_cons, dispatchEvent_app. cbn [fst snd].
  destruct Hid as [Hid|Hid].
  - rewrite fmap_cons in Hid. cbn [fst] in Hid.
    apply not_elem_of_cons in Hid as [Hne Hid].
    rewrite (dispatchEvent_other (register_id _ _ cb' [] id')).
    + apply IH. by left.
    + eapply Forall_impl; [apply register_id_ids|]. by intros l ->.
  - rewrite dispatchEvent_missing by done. apply IH. by right.
Qed.

End dispatch.

Section listened.

Import LaptopReactiveNames.

Lemma NoDup_listened : NoDup listened.*1.
Proof. by apply (bool_decide_unpack _). Qed.

Lemma listened_group (ids : list string) (callback : document -> completion document)
    (id : string) :
  (ids, callback) ∈ listeners -> id ∈ ids -> (id, callback) ∈ listened.
Proof.
  intros Hg Hid. unfold listened. apply list_elem_of_bind.
  exists (ids, callback). split; [|done]. cbn [fst snd].
  by apply (list_elem_of_fmap_2 (fun id => (id, callback))).
Qed.

Lemma listened_update (id : string) (callback : document -> completion document) :
  (id, callback) ∈ listened -> exists t, (t, callback) ∈ updates.
Proof.
  unfold listened. intros ([ids cb] & Hid & Hg)%list_elem_of_bind.
  cbn [fst snd] in Hid. apply list_elem_of_fmap in Hid as (id' & Heq & _).
  apply pair_equal_spec in Heq as [_ ->].
  unfold listeners in Hg. unfold updates.
  repeat (apply elem_of_cons in Hg as [Hg|Hg];
          [apply pair_equal_spec in Hg as [_ ->]; eexists; rewrite !elem_of_cons;
           by eauto 10|]).
  by apply elem_of_nil in Hg.
Qed.

Lemma listened_disjoint_names (id : string) :
  id ∈ listened.*1 -> id ∉ name_fields.
Proof.
  intros Hid Hn.
  assert (H : Forall (fun id => id ∉ name_fields) listened.*1).
  { by apply (bool_decide_unpack _). }
  rewrite Forall_forall in H. by apply (H id).
Qed.

End listened.

(** X7.  After [init], an event on a field of a listener group that was on
    the page runs the group's updateX exactly once: a change event always,
    an input event unless the field is a checkbox, on which it runs
    nothing. *)
Theorem dispatch_runs_group (is_checkbox : string -> bool) (doc0 doc : document)
    (ids : list string) (callback : document -> completion document) (id : string) :
  (ids, callback) ∈ LaptopReactiveNames.listeners ->
  id ∈ ids ->
  is_Some (doc0 !! id) ->
  exists registered doc1 doc',
    LaptopReactiveNames.init is_checkbox doc0 = Normal (registered, doc1) /\
    callback doc = Normal doc' /\
    LaptopReactiveNames.dispatchEvent registered id LaptopReactiveNames.change doc
      = doc' /\
    LaptopReactiveNames.dispatchEvent registered id LaptopReactiveNames.input doc
      = if is_checkbox id then doc else doc'.
Proof.
  intros Hg Hid Hel.
  destruct (init_total is_checkbox doc0) as (doc1 & Hinit).
  pose proof (listened_group ids callback id Hg Hid) as Hl.
  destruct (listened_update id callback Hl) as (t & Hu).
  destruct (update_shape t callback Hu) as (f & Hf & _).
  exists (LaptopReactiveNames.register_all is_checkbox doc0), doc1,
    (set_target doc t (f doc)).
  split; [done|]. split; [apply Hf|].
  rewrite register_all_listened.
  rewrite !(dispatchEvent_listened is_checkbox doc0 _ id callback)
    by (done || apply NoDup_listened).
  unfold run_listener. rewrite Hf. cbn [LaptopReactiveNames.event_eqb orb].
  by destruct (is_checkbox id).
Qed.

Lemma dispatch_runs_group_witness :
  let is_checkbox := fun id => String.eqb id "storage_nvme" in
  let doc0 : document :=
    {[ "storage_capacity" := {| value := "512"; checked := false |};
       "storage_nvme" := {| value := "on"; checked := true |};
       "storage_full_name" := {| value := ""; checked := false |} ]} in
  let ids := ["storage_capacity"; "storage_media"; "storage_nvme";
              "storage_form_factor"] in
  (ids, reactiveLogic.updateStorage) ∈ LaptopReactiveNames.listeners /\
  "storage_nvme" ∈ ids /\
  is_Some (doc0 !! "storage_nvme") /\
  exists registered doc1 doc',
    LaptopReactiveNames.init is_checkbox doc0 = Normal (registered, doc1) /\
    reactiveLogic.updateStorage doc0 = Normal doc' /\
    LaptopReactiveNames.dispatchEvent registered "storage_nvme"
      LaptopReactiveNames.change doc0 = doc' /\
    LaptopReactiveNames.dispatchEvent registered "storage_nvme"
      LaptopReactiveNames.input doc0
      = if is_checkbox "storage_nvme" then doc0 else doc'.
Proof.
  intros is_checkbox doc0 ids.
  assert (H1 : (ids, reactiveLogic.updateStorage) ∈ LaptopReactiveNames.listeners)
    by (unfold LaptopReactiveNames.listeners; rewrite !elem_of_cons; tauto).
  assert (H2 : "storage_nvme" ∈ ids)
    by (unfold ids; rewrite !elem_of_cons; tauto).
  assert (H3 : is_Some (doc0 !! "storage_nvme")) by (vm_compute; eauto).
  split; [exact H1 | split; [exact H2 | split; [exact H3|]]].
  exact (dispatch_runs_group is_checkbox doc0 doc0 ids _ "storage_nvme" H1 H2 H3).
Defined.

(** X8.  After [init], an event has no effect on the form when its target is
    a name field, or belongs to no listener group, or was not on the page
    when [init] ran. *)
Theorem dispatch_elsewhere (is_checkbox : string -> bool) (doc0 doc : document)
    (id : string) (type : LaptopReactiveNames.event) :
  id ∈ name_fields \/
  (forall ids callback,
     (ids, callback) ∈ LaptopReactiveNames.listeners -> id ∉ ids) \/
  doc0 !! id = None ->
  exists registered doc1,
    LaptopReactiveNames.init is_checkbox doc0 = Normal (registered, doc1) /\
    LaptopReactiveNames.dispatchEvent registered id type doc = doc.
Proof.
  intros Hid. destruct (init_total is_checkbox doc0) as (doc1 & Hinit).
  exists (LaptopReactiveNames.register_all is_checkbox doc0), doc1.
  split; [done|]. rewrite register_all_listened.
  apply dispatchEvent_not_listened. destruct Hid as [Hid|[Hid|Hid]].
  - left. intros Hl. by apply (listened_disjoint_names id).
  - left. intros Hl. apply list_elem_of_fmap in Hl as ([id' cb] & -> & Hl).
    unfold listened in Hl. apply list_elem_of_bind in Hl as ([ids cb'] & Hin & Hg).
    cbn [fst snd] in Hin. apply list_elem_of_fmap in Hin as (id2 & Heq & Hin).
    apply pair_equal_spec in Heq as [-> ->]. by apply (Hid ids cb').
  - by right.
Qed.

Lemma dispatch_elsewhere_witness :
  let doc0 : document :=
    {[ "ram_capacity" := {| value := "16"; checked := false |};
       "ram_full_name" := {| value := ""; checked := false |} ]} in
  let doc : document :=
    {[ "ram_capacity" := {| value := "16"; checked := false |};
       "ram_full_name" := {| value := "escrito a mano"; checked := false |} ]} in
  ("ram_full_name" ∈ name_fields \/
   (forall ids callback,
      (ids, callback) ∈ LaptopReactiveNames.listeners -> "ram_full_name" ∉ ids) \/
   doc0 !! "ram_full_name" = None) /\
  exists registered doc1,
    LaptopReactiveNames.init (fun _ => false) doc0 = Normal (registered, doc1) /\
    LaptopReactiveNames.dispatchEvent registered "ram_full_name"
      LaptopReactiveNames.input doc = doc.
Proof.
  intros doc0 doc.
  assert (H : "ram_full_name" ∈ name_fields \/
    (forall ids callback,
       (ids, callback) ∈ LaptopReactiveNames.listeners -> "ram_full_name" ∉ ids) \/
    doc0 !! "ram_full_name" = None).
  { left. unfold name_fields, updates. rewrite !fmap_cons. cbn [fst].
    rewrite !elem_of_cons. tauto. }
  split; [exact H|].
  exact (dispatch_elsewhere (fun _ => false) doc0 doc "ram_full_name"
           LaptopReactiveNames.input H).
Defined.

(** ** [populateForm]: its blocks on the form *)

Section touches.

Lemma touches_refl (ids : list string) (doc : document) : touches ids doc doc.
Proof. by split. Qed.

Lemma touches_trans (ids : list string) (d1 d2 d3 : document) :
  touches ids d1 d2 -> touches ids d2 d3 -> touches ids d1 d3.
Proof.
  intros [Hd1 H1] [Hd2 H2]. split; [congruence|].
  intros id Hid. by rewrite H2, H1.
Qed.

Lemma touches_set_target (ids : list string) (doc : document) (t v : string) :
  t ∈ ids -> touches ids doc (set_target doc t v).
Proof.
  intros Ht. split; [apply dom_set_target|].
  intros id Hid. apply lookup_set_target_ne. by intros ->.
Qed.

Lemma lookup_set_checked_ne (doc : document) (t id : string) (b : bool) :
  t <> id -> set_checked doc t b !! id = doc !! id.
Proof.
  intros Hne. unfold set_checked. destruct (doc !! t); [|done].
  by rewrite lookup_insert_ne.
Qed.

Lemma lookup_set_checked (doc : document) (t : string) (b : bool) :
  set_checked doc t b !! t =
    (fun el => {| value := value el; checked := b |}) <$> doc !! t.
Proof.
  unfold set_checked. destruct (doc !! t) as [el|] eqn:E; simpl.
  - by rewrite lookup_insert_eq.
  - by rewrite E.
Qed.

Lemma dom_set_checked (doc : document) (t : string) (b : bool) :
  dom (set_checked doc t b) = dom doc.
Proof.
  unfold set_checked. destruct (doc !! t) as [el|] eqn:E; [|done].
  by apply dom_insert_lookup_L.
Qed.

Lemma touches_set_checked (ids : list string) (doc : document) (t : string) (b : bool) :
  t ∈ ids -> touches ids doc (set_checked doc t b).
Proof.
  intros Ht. split; [apply dom_set_checked|].
  intros id Hid. apply lookup_set_checked_ne. by intros ->.
Qed.

Lemma touches_is_Some (ids : list string) (d d' : document) (id : string) :
  touches ids d d' -> is_Some (d' !! id) <-> is_Some (d !! id).
Proof.
  intros [Hdom _]. by rewrite <- !elem_of_dom, Hdom.
Qed.

End touches.

Section importer_page.

Import LaptopReactiveNames.

Context (is_checkbox : string -> bool) (doc0 : document).

(** The only effect an event may have is that one name field is rewritten. *)
Lemma dispatch_change_listened (id t : string)
    (callback : document -> completion document) (doc : document) :
  (id, callback) ∈ listened -> (t, callback) ∈ updates ->
  dispatchEvent (register_all is_checkbox doc0) id change doc
    = if bool_decide (is_Some (doc0 !! id)) then run_listener callback doc else doc.
Proof.
  intros Hl Hu. rewrite register_all_listened. case_bool_decide as Hel.
  - by rewrite (dispatchEvent_listened is_checkbox doc0 _ id callback)
      by (done || apply NoDup_listened).
  - apply dispatchEvent_not_listened. right.
    by apply eq_None_not_Some.
Qed.

Lemma dispatch_unlistened (id : string) (type : event) (doc : document) :
  id ∉ listened.*1 ->
  dispatchEvent (register_all is_checkbox doc0) id type doc = doc.
Proof.
  intros Hid. rewrite register_all_listened.
  apply dispatchEvent_not_listened. by left.
Qed.

Lemma run_listener_update (t : string) (callback : document -> completion document)
    (doc : document) :
  (t, callback) ∈ updates ->
  exists v, run_listener callback doc = set_target doc t v.
Proof.
  intros Hu. destruct (update_shape t callback Hu) as (f & Hf & _).
  exists (f doc). unfold run_listener. by rewrite Hf.
Qed.

Lemma setVal_set_target (registered : list listener) (id : string)
    (val : option string) (doc : document) :
  (populateForm.setVal registered id val doc).1 =
    match doc !! id with
    | Some _ =>
        dispatchEvent registered id change
          (set_target doc id (IcecatScanner.or_empty val))
    | None => doc
    end.
Proof.
  unfold populateForm.setVal, set_target. by destruct (doc !! id).
Qed.

Lemma setCheck_set_checked (registered : list listener) (id : string)
    (b : bool) (doc : document) :
  (populateForm.setCheck registered id b doc).1 =
    match doc !! id with
    | Some _ => dispatchEvent registered id change (set_checked doc id b)
    | None => doc
    end.
Proof.
  unfold populateForm.setCheck, set_checked. by destruct (doc !! id).
Qed.

Lemma setVal_unlistened (id : string) (val : option string) (doc : document) :
  id ∉ listened.*1 ->
  (populateForm.setVal (register_all is_checkbox doc0) id val doc).1
    = set_target doc id (IcecatScanner.or_empty val).
Proof.
  intros Hid. rewrite setVal_set_target.
  destruct (doc !! id) eqn:E.
  - by apply dispatch_unlistened.
  - unfold set_target. by rewrite E.
Qed.

Lemma setCheck_unlistened (id : string) (b : bool) (doc : document) :
  id ∉ listened.*1 ->
  (populateForm.setCheck (register_all is_checkbox doc0) id b doc).1
    = set_checked doc id b.
Proof.
  intros Hid. rewrite setCheck_set_checked.
  destruct (doc !! id) eqn:E.
  - by apply dispatch_unlistened.
  - unfold set_checked. by rewrite E.
Qed.

Lemma touches_dispatch (ids : list string) (id t : string)
    (callback : document -> completion document) (doc : document) :
  (id, callback) ∈ listened -> (t, callback) ∈ updates -> t ∈ ids ->
  touches ids doc (dispatchEvent (register_all is_checkbox doc0) id change doc).
Proof.
  intros Hl Hu Ht. rewrite (dispatch_change_listened id t callback) by done.
  case_bool_decide; [|apply touches_refl].
  destruct (run_listener_update t callback doc Hu) as (v & ->).
  by apply touches_set_target.
Qed.

Lemma touches_setVal_listened (ids : list string) (id t : string)
    (callback : document -> completion document) (val : option string)
    (doc : document) :
  (id, callback) ∈ listened -> (t, callback) ∈ updates -> id ∈ ids -> t ∈ ids ->
  touches ids doc (populateForm.setVal (register_all is_checkbox doc0) id val doc).1.
Proof.
  intros Hl Hu Hid Ht. rewrite setVal_set_target.
  destruct (doc !! id) eqn:E; [|apply touches_refl].
  eapply touches_trans; [by apply (touches_set_target ids doc id)|].
  by apply (touches_dispatch ids id t callback).
Qed.

Lemma touches_setCheck_listened (ids : list string) (id t : string)
    (callback : document -> completion document) (b : bool) (doc : document) :
  (id, callback) ∈ listened -> (t, callback) ∈ updates -> id ∈ ids -> t ∈ ids ->
  touches ids doc (populateForm.setCheck (register_all is_checkbox doc0) id b doc).1.
Proof.
  intros Hl Hu Hid Ht. rewrite setCheck_set_checked.
  destruct (doc !! id) eqn:E; [|apply touches_refl].
  eapply touches_trans; [by apply (touches_set_checked ids doc id)|].
  by apply (touches_dispatch ids id t callback).
Qed.

Lemma touches_setVal_unlistened (ids : list string) (id : string)
    (val : option string) (doc : document) :
  id ∉ listened.*1 -> id ∈ ids ->
  touches ids doc (populateForm.setVal (register_all is_checkbox doc0) id val doc).1.
Proof.
  intros Hl Hid. rewrite setVal_unlistened by done. by apply touches_set_target.
Qed.

Lemma touches_setCheck_unlistened (ids : list string) (id : string)
    (b : bool) (doc : document) :
  id ∉ listened.*1 -> id ∈ ids ->
  touches ids doc (populateForm.setCheck (register_all is_checkbox doc0) id b doc).1.
Proof.
  intros Hl Hid. rewrite setCheck_unlistened by done. by apply touches_set_checked.
Qed.

(** The name a block writes last is the name the field holds. *)
Lemma setVal_name (ids : list string) (t : string) (name : string)
    (doc d : document) :
  t ∈ name_fields -> t ∈ ids -> touches ids doc d ->
  let d' := (populateForm.setVal (register_all is_checkbox doc0) t (Some name) d).1 in
  touches ids doc d' /\
  (is_Some (doc !! t) -> value <$> d' !! t = Some name).
Proof.
  intros Ht Hin Hd d'. unfold d'.
  assert (Hun : t ∉ listened.*1).
  { intros Hl. by apply (listened_disjoint_names t). }
  rewrite setVal_unlistened by done. cbn [IcecatScanner.or_empty]. split.
  - eapply touches_trans; [exact Hd|]. by apply touches_set_target.
  - intros Hs. apply (touches_is_Some ids doc d t Hd) in Hs as [el Hel].
    by rewrite lookup_set_target, Hel.
Qed.

End importer_page.

Section importer_total.

Lemma dedup_each_total (cleanParts : list string) (p : string) :
  exists cleanParts', IcecatScanner.dedup_each cleanParts p = Normal cleanParts'.
Proof.
  unfold IcecatScanner.dedup_each.
  destruct (Nat.eqb_spec (length cleanParts) 0) as [H0|H0]; [by eexists|].
  destruct (lookup_lt_is_Some_2 cleanParts (length cleanParts - 1)) as [x Hx]; [lia|].
  rewrite Hx. by eexists.
Qed.

Lemma dedup_join_total (parts : list (option string)) :
  exists name, IcecatScanner.dedup_join parts = Normal name.
Proof.
  unfold IcecatScanner.dedup_join. generalize (@nil string).
  induction (utils.filter_Boolean parts) as [|t toks IH]; intros cleanParts.
  - by eexists.
  - cbn [forEach]. destruct (dedup_each_total cleanParts t) as (c & ->).
    apply IH.
Qed.


End importer_total.

Ltac listed := apply (bool_decide_unpack _); vm_compute; exact I.

Ltac found_at n :=
  first [ apply (list_elem_of_lookup_2 _ n); reflexivity
        | match n with
          | S ?m => found_at m
          end ].

(** One [setVal] or [setCheck] of a block whose listened fields have the
    callback [cb], which writes the name field [t]. *)
Ltac block_step t cb :=
  eapply touches_trans;
  [| first
       [ apply touches_setVal_unlistened; [listed | listed]
       | apply touches_setCheck_unlistened; [listed | listed]
       | apply (touches_setVal_listened _ _ _ _ t cb);
         [found_at 25%nat | found_at 5%nat | listed | listed]
       | apply (touches_setCheck_listened _ _ _ _ t cb);
         [found_at 25%nat | found_at 5%nat | listed | listed] ] ].

Ltac block_steps t cb := repeat block_step t cb; apply touches_refl.

Section blocks.

Import LaptopReactiveNames.

Lemma touches_mono (ids ids' : list string) (d d' : document) :
  ids ⊆ ids' -> touches ids d d' -> touches ids' d d'.
Proof.
  intros Hsub [Hdom H]. split; [done|]. intros id Hid. apply H.
  intros Hin. by apply Hid, Hsub.
Qed.

Lemma memoria_ram_block_written (is_checkbox : string -> bool)
    (doc0 doc : document) (r : IcecatScanner.memoria_ram) (ampliable : bool) :
  let doc' :=
    populateForm.memoria_ram_block (register_all is_checkbox doc0) (Some r)
      ampliable doc in
  touches ["ram_id"; "ram_capacity"; "ram_type_detailed"; "ram_speed_mhz";
           "ram_transfer_rate"; "ram_upgradeable"; "ram_full_name"] doc doc' /\
  (is_Some (doc !! "ram_full_name") ->
   value <$> doc' !! "ram_full_name" = Some (IcecatScanner.ramFullName r)).
Proof.
  cbn [populateForm.memoria_ram_block].
  apply setVal_name; [listed | listed |].
  block_steps "ram_full_name" reactiveLogic.updateRAM.
Qed.


End blocks.









(** ** [populateForm]: the name of the discrete GPU *)

Section graphics.

Import LaptopReactiveNames.

Context (is_checkbox : string -> bool) (doc0 : document).

Lemma setVal_nil (id : string) (val : option string) (doc : document) :
  (populateForm.setVal [] id val doc).1
    = set_target doc id (IcecatScanner.or_empty val).
Proof.
  rewrite setVal_set_target. unfold set_target. by destruct (doc !! id).
Qed.

Lemma setCheck_nil (id : string) (b : bool) (doc : document) :
  (populateForm.setCheck [] id b doc).1 = set_checked doc id b.
Proof.
  rewrite setCheck_set_checked. unfold set_checked. by destruct (doc !! id).
Qed.

Lemma field_checked_lookup (d1 d2 : document) (id : string) :
  d1 !! id = d2 !! id -> field_checked d1 id = field_checked d2 id.
Proof. unfold field_checked. by intros ->. Qed.

Lemma no_discrete_set_target (cleared : bool) (d : document) (id v : string) :
  id <> "discrete_gpu_full_name" ->
  no_discrete cleared d -> no_discrete cleared (set_target d id v).
Proof.
  intros Hne [Hq Hc]. split.
  - by rewrite field_checked_set_target.
  - intros Hcl. rewrite lookup_set_target_ne by done. by apply Hc.
Qed.

Lemma no_discrete_update (cleared : bool) (d : document) (t : string)
    (u : document -> completion document) :
  (t, u) ∈ updates ->
  no_discrete cleared d -> no_discrete cleared (run_listener u d).
Proof.
  intros Hu Hd. destruct (decide (t = "discrete_gpu_full_name")) as [->|Hne].
  - assert (Hdis : ("discrete_gpu_full_name", reactiveLogic.updateDiscreteGPU) ∈ updates)
      by found_at 5%nat.
    rewrite (updates_functional _ _ _ Hu Hdis).
    unfold run_listener, reactiveLogic.updateDiscreteGPU.
    destruct Hd as [Hq Hc]. rewrite Hq. cbn [negb]. split.
    + by rewrite field_checked_set_target.
    + intros Hcl. specialize (Hc Hcl). rewrite lookup_set_target.
      destruct (d !! "discrete_gpu_full_name") as [el|]; [done|].
      by inversion Hc.
  - destruct (run_listener_update t u d Hu) as (v & ->).
    by apply no_discrete_set_target.
Qed.

(** A [setVal] on a field other than the tick box and the name keeps
    [no_discrete]. *)
Lemma no_discrete_setVal (cleared : bool) (d : document) (id : string)
    (val : option string) :
  id <> "discrete_gpu_full_name" -> id <> "has_discrete_gpu" ->
  no_discrete cleared d ->
  no_discrete cleared
    (populateForm.setVal (register_all is_checkbox doc0) id val d).1.
Proof.
  intros Hn Hh Hd. rewrite setVal_set_target.
  destruct (d !! id) eqn:E; [|done].
  destruct (decide (id ∈ listened.*1)) as [Hl|Hl].
  - apply list_elem_of_fmap in Hl as ([id' cb] & -> & Hl). cbn [fst] in *.
    destruct (listened_update id' cb Hl) as (t & Hu).
    rewrite (dispatch_change_listened _ _ id' t cb) by done.
    case_bool_decide.
    + apply (no_discrete_update _ _ t); [done|].
      by apply no_discrete_set_target.
    + by apply no_discrete_set_target.
  - rewrite dispatch_unlistened by done. by apply no_discrete_set_target.
Qed.

(** A [setVal] on a field of the discrete GPU that is on the page and is
    listened to clears the name. *)
Lemma no_discrete_setVal_clears (cleared : bool) (d : document) (id : string)
    (val : option string) :
  (id, reactiveLogic.updateDiscreteGPU) ∈ listened ->
  id <> "discrete_gpu_full_name" -> id <> "has_discrete_gpu" ->
  is_Some (doc0 !! id) -> is_Some (d !! id) ->
  is_Some (d !! "discrete_gpu_full_name") ->
  no_discrete cleared d ->
  no_discrete true
    (populateForm.setVal (register_all is_checkbox doc0) id val d).1.
Proof.
  intros Hl Hn Hh H0 [el Hel] [nm Hnm] Hd. rewrite setVal_set_target, Hel.
  rewrite (dispatch_change_listened _ _ id "discrete_gpu_full_name"
             reactiveLogic.updateDiscreteGPU) by (done || found_at 5%nat).
  rewrite bool_decide_eq_true_2 by done.
  apply (no_discrete_set_target cleared _ id (IcecatScanner.or_empty val)) in Hd;
    [|done].
  destruct Hd as [Hq _].
  unfold run_listener, reactiveLogic.updateDiscreteGPU. rewrite Hq. cbn [negb].
  split.
  - by rewrite field_checked_set_target.
  - intros _. rewrite lookup_set_target, lookup_set_target_ne by done.
    by rewrite Hnm.
Qed.

(** The [setCheck] on the tick box with [false]. *)
Lemma no_discrete_setCheck (d : document) :
  no_discrete false
    (populateForm.setCheck (register_all is_checkbox doc0)
       "has_discrete_gpu" false d).1.
Proof.
  rewrite setCheck_set_checked.
  destruct (d !! "has_discrete_gpu") as [el|] eqn:E.
  - assert (Hq : field_checked (set_checked d "has_discrete_gpu" false)
                   "has_discrete_gpu" = false).
    { unfold field_checked. by rewrite lookup_set_checked, E. }
    rewrite (dispatch_change_listened _ _ "has_discrete_gpu" "discrete_gpu_full_name"
               reactiveLogic.updateDiscreteGPU) by (found_at 25%nat || found_at 5%nat).
    case_bool_decide; [|by split].
    apply (no_discrete_update _ _ "discrete_gpu_full_name"); [found_at 5%nat|].
    by split.
  - split; [|done]. unfold field_checked. by rewrite E.
Qed.

Lemma no_discrete_setCheck_clears (d : document) :
  is_Some (doc0 !! "has_discrete_gpu") -> is_Some (d !! "has_discrete_gpu") ->
  is_Some (d !! "discrete_gpu_full_name") ->
  no_discrete true
    (populateForm.setCheck (register_all is_checkbox doc0)
       "has_discrete_gpu" false d).1.
Proof.
  intros H0 [el Hel] [nm Hnm]. rewrite setCheck_set_checked, Hel.
  rewrite (dispatch_change_listened _ _ "has_discrete_gpu" "discrete_gpu_full_name"
             reactiveLogic.updateDiscreteGPU) by (found_at 25%nat || found_at 5%nat).
  rewrite bool_decide_eq_true_2 by done.
  assert (Hq : field_checked (set_checked d "has_discrete_gpu" false)
                 "has_discrete_gpu" = false).
  { unfold field_checked. by rewrite lookup_set_checked, Hel. }
  unfold run_listener, reactiveLogic.updateDiscreteGPU. rewrite Hq. cbn [negb].
  split.
  - by rewrite field_checked_set_target.
  - intros _. rewrite lookup_set_target, lookup_set_checked_ne by done.
    by rewrite Hnm.
Qed.

Lemma no_discrete_weaken (d : document) (cleared : bool) :
  no_discrete true d -> no_discrete cleared d.
Proof. intros [Hq Hc]. split; [done|]. intros _. by apply Hc. Qed.

End graphics.

Section graphics_block.

Import LaptopReactiveNames.

Context (is_checkbox : string -> bool) (doc0 doc : document).

Lemma dom_setVal (id : string) (val : option string) (d : document) :
  dom (populateForm.setVal (register_all is_checkbox doc0) id val d).1 = dom d.
Proof.
  destruct (decide (id ∈ listened.*1)) as [Hl|Hl].
  - apply list_elem_of_fmap in Hl as ([id' cb] & -> & Hl). cbn [fst] in *.
    destruct (listened_update id' cb Hl) as (t & Hu).
    by apply (touches_setVal_listened is_checkbox doc0 [id'; t] id' t cb val d);
      rewrite ?elem_of_cons; auto.
  - by apply (touches_setVal_unlistened is_checkbox doc0 [id] id val d);
      rewrite ?elem_of_cons; auto.
Qed.

Lemma dom_setCheck (id : string) (b : bool) (d : document) :
  dom (populateForm.setCheck (register_all is_checkbox doc0) id b d).1 = dom d.
Proof.
  destruct (decide (id ∈ listened.*1)) as [Hl|Hl].
  - apply list_elem_of_fmap in Hl as ([id' cb] & -> & Hl). cbn [fst] in *.
    destruct (listened_update id' cb Hl) as (t & Hu).
    by apply (touches_setCheck_listened is_checkbox doc0 [id'; t] id' t cb b d);
      rewrite ?elem_of_cons; auto.
  - by apply (touches_setCheck_unlistened is_checkbox doc0 [id] id b d);
      rewrite ?elem_of_cons; auto.
Qed.

Lemma same_dom_is_Some (d : document) (id : string) :
  dom d = dom doc -> is_Some (doc !! id) -> is_Some (d !! id).
Proof. intros Hdom. by rewrite <- !elem_of_dom, Hdom. Qed.

Lemma graphics_keep (cleared : bool) (d : document) (id : string)
    (val : option string) :
  id <> "discrete_gpu_full_name" -> id <> "has_discrete_gpu" ->
  dom d = dom doc /\ no_discrete cleared d ->
  let d' := (populateForm.setVal (register_all is_checkbox doc0) id val d).1 in
  dom d' = dom doc /\ no_discrete cleared d'.
Proof.
  intros Hn Hh [Hdom Hd]. split.
  - by rewrite dom_setVal.
  - by apply no_discrete_setVal.
Qed.

Lemma graphics_clear (cleared : bool) (d : document) (id : string)
    (val : option string) :
  (id, reactiveLogic.updateDiscreteGPU) ∈ listened ->
  id <> "discrete_gpu_full_name" -> id <> "has_discrete_gpu" ->
  is_Some (doc0 !! id) -> is_Some (doc !! id) ->
  is_Some (doc !! "discrete_gpu_full_name") ->
  dom d = dom doc /\ no_discrete cleared d ->
  let d' := (populateForm.setVal (register_all is_checkbox doc0) id val d).1 in
  dom d' = dom doc /\ no_discrete true d'.
Proof.
  intros Hl Hn Hh H0 Hid Hnm [Hdom Hd]. split.
  - by rewrite dom_setVal.
  - apply (no_discrete_setVal_clears _ _ cleared); try done;
      by apply same_dom_is_Some.
Qed.

Lemma graphics_tick (d : document) :
  dom d = dom doc ->
  let d' := (populateForm.setCheck (register_all is_checkbox doc0)
               "has_discrete_gpu" false d).1 in
  dom d' = dom doc /\ no_discrete false d'.
Proof.
  intros Hdom. split.
  - by rewrite dom_setCheck.
  - apply no_discrete_setCheck.
Qed.

Lemma graphics_tick_clear (d : document) :
  is_Some (doc0 !! "has_discrete_gpu") -> is_Some (doc !! "has_discrete_gpu") ->
  is_Some (doc !! "discrete_gpu_full_name") ->
  dom d = dom doc ->
  let d' := (populateForm.setCheck (register_all is_checkbox doc0)
               "has_discrete_gpu" false d).1 in
  dom d' = dom doc /\ no_discrete true d'.
Proof.
  intros H0 Hid Hnm Hdom. split.
  - by rewrite dom_setCheck.
  - apply no_discrete_setCheck_clears; try done; by apply same_dom_is_Some.
Qed.

End graphics_block.

(** X13.  The graphics block of [populateForm] never throws; with the
    listeners of the form script registered it leaves in the name field of
    the integrated GPU the name it has composed itself and, for a product
    with a dedicated GPU, likewise in the name field of the discrete GPU; it
    changes nothing but the twelve fields it names. *)
Theorem tarjeta_grafica_block_names (is_checkbox : string -> bool)
    (doc0 doc : document) (g : IcecatScanner.tarjeta_grafica) :
  exists integrated doc',
    IcecatScanner.integratedFullName g = Normal integrated /\
    populateForm.tarjeta_grafica_block
      (LaptopReactiveNames.register_all is_checkbox doc0) (Some g) doc
      = Normal doc' /\
    (dom doc' = dom doc /\
     forall id,
       id ∉ ["graphics_card_id"; "has_discrete_gpu"; "discrete_gpu_brand";
             "discrete_gpu_model"; "discrete_gpu_memory_gb";
             "discrete_gpu_memory_type"; "discrete_gpu_full_name";
             "onboard_gpu_brand"; "onboard_gpu_model"; "onboard_gpu_family";
             "onboard_gpu_memory_gb"; "onboard_gpu_full_name"] ->
       doc' !! id = doc !! id) /\
    (is_Some (doc !! "onboard_gpu_full_name") ->
     value <$> doc' !! "onboard_gpu_full_name" = Some integrated) /\
    (IcecatScanner.tiene_dedicada g = true ->
     is_Some (doc !! "discrete_gpu_full_name") ->
     exists discrete,
       IcecatScanner.discreteFullName g = Normal (Some discrete) /\
       value <$> doc' !! "discrete_gpu_full_name" = Some discrete).
Proof.
  destruct (dedup_join_total (IcecatScanner.integrated_parts g)) as (iname & Hi).
  destruct (dedup_join_total (IcecatScanner.discrete_parts g)) as (dname & Hdn).
  set (ids1 := ["graphics_card_id"; "has_discrete_gpu"; "discrete_gpu_brand";
                "discrete_gpu_model"; "discrete_gpu_memory_gb";
                "discrete_gpu_memory_type"; "discrete_gpu_full_name"]).
  set (ids2 := ["onboard_gpu_brand"; "onboard_gpu_model"; "onboard_gpu_family";
                "onboard_gpu_memory_gb"; "onboard_gpu_full_name"]).
  assert (Hsub1 : ids1 ⊆ ids1 ++ ids2) by (intros x Hx; apply elem_of_app; by left).
  assert (Hsub2 : ids2 ⊆ ids1 ++ ids2) by (intros x Hx; apply elem_of_app; by right).
  cbn [populateForm.tarjeta_grafica_block].
  unfold IcecatScanner.integratedFullName, IcecatScanner.discreteFullName.
  rewrite Hi.
  match goal with
  | |- context [populateForm.setVal ?reg "discrete_gpu_memory_type" ?v ?d] =>
      set (d5 := (populateForm.setVal reg "discrete_gpu_memory_type" v d).1)
  end.
  assert (H5 : touches ids1 doc d5).
  { unfold d5, ids1.
    block_steps "discrete_gpu_full_name" reactiveLogic.updateDiscreteGPU. }
  destruct (IcecatScanner.tiene_dedicada g) eqn:Hded.
  - rewrite Hdn. cbn [mbind completion_bind].
    destruct (setVal_name is_checkbox doc0 ids1 "discrete_gpu_full_name" dname
                doc d5) as [H6 Hv6]; [listed | listed | done |].
    set (d6 := (populateForm.setVal _ "discrete_gpu_full_name" (Some dname) d5).1)
      in *.
    match goal with
    | |- context [populateForm.setVal ?reg "onboard_gpu_full_name" ?v ?d] =>
        destruct (setVal_name is_checkbox doc0 ids2 "onboard_gpu_full_name" iname
                    d6 d) as [H11 Hv11]; [listed | listed | |]
    end.
    { unfold ids2. block_steps "onboard_gpu_full_name" reactiveLogic.updateOnboardGPU. }
    eexists iname, _. split; [done|]. split; [done|]. split; [|split].
    + apply (touches_trans (ids1 ++ ids2) doc d6);
        [by apply (touches_mono ids1) | by apply (touches_mono ids2)].
    + intros Hs. apply Hv11. by apply (touches_is_Some ids1 doc d6).
    + intros _ Hs. exists dname. split; [done|].
      destruct H11 as [_ H11]. rewrite H11 by listed. by apply Hv6.
  - cbn [mbind completion_bind].
    match goal with
    | |- context [populateForm.setVal ?reg "onboard_gpu_full_name" ?v ?d] =>
        destruct (setVal_name is_checkbox doc0 ids2 "onboard_gpu_full_name" iname
                    d5 d) as [H11 Hv11]; [listed | listed | |]
    end.
    { unfold ids2. block_steps "onboard_gpu_full_name" reactiveLogic.updateOnboardGPU. }
    eexists iname, _. split; [done|]. split; [done|]. split; [|split].
    + apply (touches_trans (ids1 ++ ids2) doc d5);
        [by apply (touches_mono ids1) | by apply (touches_mono ids2)].
    + intros Hs. apply Hv11. by apply (touches_is_Some ids1 doc d5).
    + intros H. discriminate H.
Qed.

Lemma tarjeta_grafica_block_names_witness :
  let doc : document :=
    {[ "discrete_gpu_model" := {| value := ""; checked := false |};
       "discrete_gpu_full_name" := {| value := ""; checked := false |};
       "onboard_gpu_full_name" := {| value := ""; checked := false |} ]} in
  let g := {| IcecatScanner.tiene_dedicada := true;
              IcecatScanner.marca_dedicada := Some "NVIDIA";
              IcecatScanner.modelo_dedicado := Some "GeForce RTX 4060";
              IcecatScanner.memoria_dedicada_gb := Some 8;
              IcecatScanner.tipo_memoria_dedicada := Some "GDDR6";
              IcecatScanner.marca_integrada := Some "Intel";
              IcecatScanner.modelo_integrado := Some "Iris Xe Graphics";
              IcecatScanner.familia_integrada := None;
              IcecatScanner.memoria_integrada_gb := None |} in
  exists integrated doc',
    IcecatScanner.integratedFullName g = Normal integrated /\
    populateForm.tarjeta_grafica_block
      (LaptopReactiveNames.register_all (fun _ => false) doc) (Some g) doc
      = Normal doc' /\
    (dom doc' = dom doc /\
     forall id,
       id ∉ ["graphics_card_id"; "has_discrete_gpu"; "discrete_gpu_brand";
             "discrete_gpu_model"; "discrete_gpu_memory_gb";
             "discrete_gpu_memory_type"; "discrete_gpu_full_name";
             "onboard_gpu_brand"; "onboard_gpu_model"; "onboard_gpu_family";
             "onboard_gpu_memory_gb"; "onboard_gpu_full_name"] ->
       doc' !! id = doc !! id) /\
    (is_Some (doc !! "onboard_gpu_full_name") ->
     value <$> doc' !! "onboard_gpu_full_name" = Some integrated) /\
    (IcecatScanner.tiene_dedicada g = true ->
     is_Some (doc !! "discrete_gpu_full_name") ->
     exists discrete,
       IcecatScanner.discreteFullName g = Normal (Some discrete) /\
       value <$> doc' !! "discrete_gpu_full_name" = Some discrete).
Proof.
  intros doc g. exact (tarjeta_grafica_block_names (fun _ => false) doc doc g).
Defined.

(** X14.  For a product without a dedicated GPU the graphics block of
    [populateForm] does not write the name of the discrete GPU; the name is
    emptied all the same by the listeners of the form script, as soon as one
    field of the discrete GPU is on the page and was there when [init]
    ran. *)
Theorem tarjeta_grafica_block_clears (is_checkbox : string -> bool)
    (doc0 doc : document) (g : IcecatScanner.tarjeta_grafica) (id : string) :
  IcecatScanner.tiene_dedicada g = false ->
  id ∈ ["has_discrete_gpu"; "discrete_gpu_brand"; "discrete_gpu_model";
        "discrete_gpu_memory_gb"; "discrete_gpu_memory_type"] ->
  is_Some (doc0 !! id) -> is_Some (doc !! id) ->
  is_Some (doc !! "discrete_gpu_full_name") ->
  exists doc',
    populateForm.tarjeta_grafica_block
      (LaptopReactiveNames.register_all is_checkbox doc0) (Some g) doc
      = Normal doc' /\
    value <$> doc' !! "discrete_gpu_full_name" = Some "".
Proof.
  intros Hded Hid H0 Hdoc Hname.
  destruct (dedup_join_total (IcecatScanner.integrated_parts g)) as (iname & Hi).
  cbn [populateForm.tarjeta_grafica_block].
  unfold IcecatScanner.integratedFullName, IcecatScanner.discreteFullName.
  rewrite Hi, Hded. cbn [mbind completion_bind].
  eexists. split; [done|].
  match goal with
  | |- value <$> ?d !! _ = _ =>
      cut (dom d = dom doc /\ no_discrete true d); [intros [_ [_ Hc]]; by apply Hc|]
  end.
  assert (Hstart : forall v,
    dom (populateForm.setVal (LaptopReactiveNames.register_all is_checkbox doc0)
           "graphics_card_id" v doc).1 = dom doc) by (intros v; apply dom_setVal).
  repeat (apply elem_of_cons in Hid as [->|Hid]);
    [..|by apply elem_of_nil in Hid];
    repeat first
      [ apply graphics_tick_clear; [done | done | done | apply Hstart]
      | apply graphics_tick; apply Hstart
      | apply (graphics_clear is_checkbox doc0 doc false);
        [found_at 25%nat | done | done | done | done | done |]
      | apply graphics_keep; [done | done |] ].
Qed.

Lemma tarjeta_grafica_block_clears_witness :
  let doc : document :=
    {[ "discrete_gpu_model" := {| value := "GeForce RTX 4060"; checked := false |};
       "discrete_gpu_full_name" :=
         {| value := "NVIDIA GeForce RTX 4060 8GB"; checked := false |} ]} in
  let g := {| IcecatScanner.tiene_dedicada := false;
              IcecatScanner.marca_dedicada := None;
              IcecatScanner.modelo_dedicado := None;
              IcecatScanner.memoria_dedicada_gb := None;
              IcecatScanner.tipo_memoria_dedicada := None;
              IcecatScanner.marca_integrada := Some "Intel";
              IcecatScanner.modelo_integrado := Some "Iris Xe Graphics";
              IcecatScanner.familia_integrada := None;
              IcecatScanner.memoria_integrada_gb := None |} in
  exists doc',
    populateForm.tarjeta_grafica_block
      (LaptopReactiveNames.register_all (fun _ => false) doc) (Some g) doc
      = Normal doc' /\
    value <$> doc' !! "discrete_gpu_full_name" = Some "".
Proof.
  intros doc g.
  assert (H1 : IcecatScanner.tiene_dedicada g = false) by reflexivity.
  assert (H2 : "discrete_gpu_model" ∈
            ["has_discrete_gpu"; "discrete_gpu_brand"; "discrete_gpu_model";
             "discrete_gpu_memory_gb"; "discrete_gpu_memory_type"])
    by (rewrite !elem_of_cons; tauto).
  assert (H3 : is_Some (doc !! "discrete_gpu_model")) by (vm_compute; eauto).
  assert (H4 : is_Some (doc !! "discrete_gpu_full_name")) by (vm_compute; eauto).
  exact (tarjeta_grafica_block_clears (fun _ => false) doc doc g
           "discrete_gpu_model" H1 H2 H3 H3 H4).
Defined.

(** X15.  On a page where no listener is registered, the graphics block of
    [populateForm] leaves the name field of the discrete GPU as it was when
    the product has no dedicated GPU: a name left by an earlier product is
    not removed by [populateForm] itself. *)
Theorem tarjeta_grafica_block_stale (doc : document)
    (g : IcecatScanner.tarjeta_grafica) :
  IcecatScanner.tiene_dedicada g = false ->
  exists doc',
    populateForm.tarjeta_grafica_block [] (Some g) doc = Normal doc' /\
    doc' !! "discrete_gpu_full_name" = doc !! "discrete_gpu_full_name".
Proof.
  intros Hded.
  destruct (dedup_join_total (IcecatScanner.integrated_parts g)) as (iname & Hi).
  cbn [populateForm.tarjeta_grafica_block].
  unfold IcecatScanner.integratedFullName, IcecatScanner.discreteFullName.
  rewrite Hi, Hded. cbn [mbind completion_bind].
  eexists. split; [done|].
  rewrite !setVal_nil, setCheck_nil.
  rewrite !lookup_set_target_ne by done.
  by rewrite lookup_set_checked_ne, lookup_set_target_ne by done.
Qed.

Lemma tarjeta_grafica_block_stale_witness :
  let doc : document :=
    {[ "discrete_gpu_full_name" :=
         {| value := "NVIDIA GeForce RTX 4060 8GB"; checked := false |} ]} in
  let g := {| IcecatScanner.tiene_dedicada := false;
              IcecatScanner.marca_dedicada := None;
              IcecatScanner.modelo_dedicado := None;
              IcecatScanner.memoria_dedicada_gb := None;
              IcecatScanner.tipo_memoria_dedicada := None;
              IcecatScanner.marca_integrada := Some "Intel";
              IcecatScanner.modelo_integrado := Some "Iris Xe Graphics";
              IcecatScanner.familia_integrada := None;
              IcecatScanner.memoria_integrada_gb := None |} in
  exists doc',
    populateForm.tarjeta_grafica_block [] (Some g) doc = Normal doc' /\
    doc' !! "discrete_gpu_full_name" = doc !! "discrete_gpu_full_name".
Proof.
  intros doc g.
  assert (H1 : IcecatScanner.tiene_dedicada g = false) by reflexivity.
  exact (tarjeta_grafica_block_stale doc g H1).
Defined.

(** ** [fetchData] and the loading indicator *)

Section indicator.

Import IcecatScannerPage.

Lemma classList_add_remove (token : string) (el : node) :
  classList_remove token (classList_add token el) = classList_remove token el.
Proof.
  unfold classList_remove, classList_add. cbn. f_equal.
  apply set_eq. intros x.
  rewrite !elem_of_difference, elem_of_union, elem_of_singleton. tauto.
Qed.

Lemma classList_remove_add (token : string) (el : node) :
  classList_add token (classList_remove token el) = classList_add token el.
Proof.
  unfold classList_remove, classList_add. cbn. f_equal.
  apply set_eq. intros x.
  rewrite !elem_of_union, elem_of_difference, elem_of_singleton.
  destruct (decide (x = token)); tauto.
Qed.

Lemma button_restored (token : string) (el : node) :
  classList_remove token (set_disabled false (classList_add token (set_disabled true el)))
    = classList_remove token (set_disabled false el).
Proof.
  unfold classList_remove, classList_add, set_disabled. cbn. f_equal.
  apply set_eq. intros x.
  rewrite !elem_of_difference, elem_of_union, elem_of_singleton. tauto.
Qed.

Lemma setLoading_run (isLoading : bool) (s : page) (text spinner button : node) :
  indicator s = (Some text, Some spinner, Some button) ->
  exists s',
    setLoading isLoading s = (Normal tt, s') /\
    output s' = output s /\
    indicator s' =
      if isLoading
      then (Some (classList_add "hidden" text),
            Some (classList_remove "hidden" spinner),
            Some (classList_add "opacity-70" (set_disabled true button)))
      else (Some (classList_remove "hidden" text),
            Some (classList_add "hidden" spinner),
            Some (classList_remove "opacity-70" (set_disabled false button))).
Proof.
  unfold indicator. intros [= Ht Hs Hb].
  destruct isLoading; unfold setLoading, on_fetch_text, on_fetch_spinner,
    on_btnFetchIcecat, mbind, action_bind; cbn; rewrite Ht; cbn; rewrite Hs; cbn;
    rewrite Hb; cbn; by eexists.
Qed.

Lemma setLoading_missing (s : page) :
  fetch_text s = None \/ fetch_spinner s = None \/ btnFetchIcecat s = None ->
  exists s', setLoading true s = (Throw, s') /\ output s' = output s.
Proof.
  intros H. unfold setLoading, on_fetch_text, on_fetch_spinner,
    on_btnFetchIcecat, mbind, action_bind.
  destruct (fetch_text s) as [t|] eqn:Ht; cbn; [|by eexists].
  destruct (fetch_spinner s) as [sp|] eqn:Hs; cbn; [|by eexists].
  destruct (btnFetchIcecat s) as [b|] eqn:Hb; cbn; [|by eexists].
  by destruct H as [H|[H|H]].
Qed.

Lemma emit_run (e : io) (s : page) :
  exists s', emit e s = (Normal tt, s') /\
    output s' = output s ++ [e] /\ indicator s' = indicator s.
Proof. by eexists. Qed.

Lemma trim_truthy (v : string) : JS.trim v <> "" -> JS.truthy (JS.trim v) = true.
Proof. by destruct (JS.trim v). Qed.

End indicator.

Section fetchData.

Import IcecatScannerPage.

Context {Product : Type} (server : string -> @response Product)
  (populateForm : Product -> action page unit).

(** [populateForm] does not touch the loading indicator. *)
Hypothesis populateForm_indicator :
  forall product s, indicator (populateForm product s).2 = indicator s.

(** The [try ... catch] of [fetchData] always completes, the indicator being
    as it was; if [populateForm] throws, the last thing the user is told is
    that the connection failed. *)
Lemma fetch_attempt (gtin : string) (s : page) :
  exists s',
    try_catch
      (let url := "/api/icecat/fetch/" +:+ gtin in
       emit (fetch url);;
       match server url with
       | rejects => throw
       | resolves None => throw
       | resolves (Some (succeeded product)) => populateForm product;; notify_loaded
       | resolves (Some (failed message)) =>
           emit (alert ("Error: " +:+
                        (if JS.truthy_opt message
                         then IcecatScanner.or_empty message
                         else msg_not_found)))
       end)
      (emit (alert msg_connection)) s = (Normal tt, s') /\
    indicator s' = indicator s /\
    (forall product,
       server ("/api/icecat/fetch/" +:+ gtin) = resolves (Some (succeeded product)) ->
       (forall s0, (populateForm product s0).1 = Throw) ->
       last (output s') = Some (alert msg_connection)).
Proof.
  unfold try_catch, mbind, action_bind. cbn zeta.
  destruct (emit_run (fetch ("/api/icecat/fetch/" +:+ gtin)) s) as (s1 & -> & Ho1 & Hi1).
  destruct (server ("/api/icecat/fetch/" +:+ gtin)) as [|[[product|message]|]] eqn:Hsrv.
  - unfold throw. destruct (emit_run (alert msg_connection) s1) as (s2 & -> & _ & Hi2).
    exists s2. repeat split; [congruence|]. intros p Hp. discriminate Hp.
  - pose proof (populateForm_indicator product s1) as Hi.
    destruct (populateForm product s1) as [[[]|] s2] eqn:Hpop; cbn [snd] in Hi.
    + unfold notify_loaded. destruct (has_showNotification s2).
      * destruct (emit_run (showNotification
                              "Datos cargados desde Icecat exitosamente" "success") s2)
          as (s3 & -> & _ & Hi3).
        exists s3. repeat split; [congruence|]. intros p Hp Hthrow.
        injection Hp as <-. specialize (Hthrow s1). by rewrite Hpop in Hthrow.
      * destruct (emit_run (alert "Datos cargados exitosamente") s2)
          as (s3 & -> & _ & Hi3).
        exists s3. repeat split; [congruence|]. intros p Hp Hthrow.
        injection Hp as <-. specialize (Hthrow s1). by rewrite Hpop in Hthrow.
    + destruct (emit_run (alert msg_connection) s2) as (s3 & -> & Ho3 & Hi3).
      exists s3. repeat split; [congruence|]. intros _ _ _.
      by rewrite Ho3, last_snoc.
  - destruct (emit_run (alert ("Error: " +:+
                 (if JS.truthy_opt message then IcecatScanner.or_empty message
                  else msg_not_found))) s1) as (s2 & -> & _ & Hi2).
    exists s2. repeat split; [congruence|]. intros p Hp. discriminate Hp.
  - unfold throw. destruct (emit_run (alert msg_connection) s1) as (s2 & -> & _ & Hi2).
    exists s2. repeat split; [congruence|]. intros p Hp. discriminate Hp.
Qed.

Lemma fetchData_run (s : page) (v : string) (text spinner button : node) :
  gtinInput s = Some v -> JS.trim v <> "" ->
  indicator s = (Some text, Some spinner, Some button) ->
  exists s',
    fetchData server populateForm s = (Normal tt, s') /\
    indicator s' =
      (Some (classList_remove "hidden" text),
       Some (classList_add "hidden" spinner),
       Some (classList_remove "opacity-70" (set_disabled false button))) /\
    (forall product,
       server ("/api/icecat/fetch/" +:+ JS.trim v)
         = resolves (Some (succeeded product)) ->
       (forall s0, (populateForm product s0).1 = Throw) ->
       last (output s') = Some (alert msg_connection)).
Proof.
  intros Hg Hv Hi. unfold fetchData. rewrite Hg. cbn zeta.
  rewrite (trim_truthy v Hv). cbn [negb].
  unfold mbind at 1. unfold action_bind at 1.
  destruct (setLoading_run true s text spinner button Hi) as (s1 & -> & Ho1 & Hi1).
  unfold try_finally.
  destruct (fetch_attempt (JS.trim v) s1) as (s2 & Hrun & Hi2 & Hlast).
  cbn zeta in Hrun. rewrite Hrun.
  rewrite Hi1 in Hi2.
  destruct (setLoading_run false s2 _ _ _ Hi2) as (s3 & -> & Ho3 & Hi3).
  exists s3. split; [done|]. split.
  - rewrite Hi3. by rewrite classList_add_remove, classList_remove_add, button_restored.
  - intros product Hsrv Hthrow. rewrite Ho3. by apply (Hlast product).
Qed.

End fetchData.

(** X16.  Whatever the server answers and whatever [populateForm] does to
    the form, a call of [fetchData] with a GTIN returns normally and leaves
    the loading indicator off: the text shown, the spinner hidden, the
    button enabled and not dimmed, their other class tokens as they
    were. *)
Theorem fetchData_restores_indicator {Product : Type}
    (server : string -> @IcecatScannerPage.response Product)
    (populateForm : Product -> action IcecatScannerPage.page unit)
    (s : IcecatScannerPage.page) (v : string)
    (text spinner button : IcecatScannerPage.node) :
  (forall product s0, indicator (populateForm product s0).2 = indicator s0) ->
  IcecatScannerPage.gtinInput s = Some v ->
  JS.trim v <> "" ->
  IcecatScannerPage.fetch_text s = Some text ->
  IcecatScannerPage.fetch_spinner s = Some spinner ->
  IcecatScannerPage.btnFetchIcecat s = Some button ->
  exists s',
    IcecatScannerPage.fetchData server populateForm s = (Normal tt, s') /\
    IcecatScannerPage.fetch_text s'
      = Some (IcecatScannerPage.classList_remove "hidden" text) /\
    IcecatScannerPage.fetch_spinner s'
      = Some (IcecatScannerPage.classList_add "hidden" spinner) /\
    IcecatScannerPage.btnFetchIcecat s'
      = Some (IcecatScannerPage.classList_remove "opacity-70"
                (IcecatScannerPage.set_disabled false button)).
Proof.
  intros Hpop Hg Hv Ht Hs Hb.
  destruct (fetchData_run server populateForm Hpop s v text spinner button Hg Hv)
    as (s' & Hrun & Hi & _).
  { unfold indicator. by rewrite Ht, Hs, Hb. }
  exists s'. split; [done|]. unfold indicator in Hi. by injection Hi as -> -> ->.
Qed.

Lemma fetchData_restores_indicator_witness :
  let el := {| IcecatScannerPage.classList := {["btn"]};
               IcecatScannerPage.disabled := false;
               IcecatScannerPage.textContent := "" |} in
  let s := {| IcecatScannerPage.gtinInput := Some " 0194850553189 ";
              IcecatScannerPage.btnFetchIcecat := Some el;
              IcecatScannerPage.fetch_text := Some el;
              IcecatScannerPage.fetch_spinner := Some el;
              IcecatScannerPage.has_showNotification := false;
              IcecatScannerPage.form := ∅;
              IcecatScannerPage.laptop_form := true;
              IcecatScannerPage.images_container := None;
              IcecatScannerPage.has_LaptopGalleryHybrid := false;
              IcecatScannerPage.output := [] |} in
  let server := fun _ : string =>
    IcecatScannerPage.resolves (Some (IcecatScannerPage.failed None)) in
  let populateForm := fun (_ : unit) (s0 : IcecatScannerPage.page) =>
    (Normal tt, s0) in
  exists s',
    IcecatScannerPage.fetchData server populateForm s = (Normal tt, s') /\
    IcecatScannerPage.fetch_text s'
      = Some (IcecatScannerPage.classList_remove "hidden" el) /\
    IcecatScannerPage.fetch_spinner s'
      = Some (IcecatScannerPage.classList_add "hidden" el) /\
    IcecatScannerPage.btnFetchIcecat s'
      = Some (IcecatScannerPage.classList_remove "opacity-70"
                (IcecatScannerPage.set_disabled false el)).
Proof.
  intros el s server populateForm.
  assert (H0 : forall (product : unit) s0,
            indicator (populateForm product s0).2 = indicator s0)
    by (intros; reflexivity).
  assert (H1 : IcecatScannerPage.gtinInput s = Some " 0194850553189 ")
    by reflexivity.
  assert (H2 : JS.trim " 0194850553189 " <> "") by (vm_compute; discriminate).
  exact (fetchData_restores_indicator server populateForm s " 0194850553189 "
           el el el H0 H1 H2 eq_refl eq_refl eq_refl).
Defined.

(** X17.  When the server has answered with a product and [populateForm]
    throws, [fetchData] still returns normally, and the last thing it tells
    the user is that the connection to the server failed. *)
Theorem fetchData_populateForm_throws {Product : Type}
    (server : string -> @IcecatScannerPage.response Product)
    (populateForm : Product -> action IcecatScannerPage.page unit)
    (s : IcecatScannerPage.page) (v : string) (product : Product) :
  (forall product s0, indicator (populateForm product s0).2 = indicator s0) ->
  IcecatScannerPage.gtinInput s = Some v ->
  JS.trim v <> "" ->
  is_Some (IcecatScannerPage.fetch_text s) ->
  is_Some (IcecatScannerPage.fetch_spinner s) ->
  is_Some (IcecatScannerPage.btnFetchIcecat s) ->
  server ("/api/icecat/fetch/" +:+ JS.trim v)
    = IcecatScannerPage.resolves (Some (IcecatScannerPage.succeeded product)) ->
  (forall s0, (populateForm product s0).1 = Throw) ->
  exists s',
    IcecatScannerPage.fetchData server populateForm s = (Normal tt, s') /\
    last (IcecatScannerPage.output s')
      = Some (IcecatScannerPage.alert IcecatScannerPage.msg_connection).
Proof.
  intros Hpop Hg Hv [text Ht] [spinner Hs] [button Hb] Hsrv Hthrow.
  destruct (fetchData_run server populateForm Hpop s v text spinner button Hg Hv)
    as (s' & Hrun & _ & Hlast).
  { unfold indicator. by rewrite Ht, Hs, Hb. }
  exists s'. split; [done|]. by apply (Hlast product).
Qed.

Lemma fetchData_populateForm_throws_witness :
  let el := {| IcecatScannerPage.classList := ∅;
               IcecatScannerPage.disabled := false;
               IcecatScannerPage.textContent := "" |} in
  let s := {| IcecatScannerPage.gtinInput := Some "0194850553189";
              IcecatScannerPage.btnFetchIcecat := Some el;
              IcecatScannerPage.fetch_text := Some el;
              IcecatScannerPage.fetch_spinner := Some el;
              IcecatScannerPage.has_showNotification := true;
              IcecatScannerPage.form := ∅;
              IcecatScannerPage.laptop_form := true;
              IcecatScannerPage.images_container := None;
              IcecatScannerPage.has_LaptopGalleryHybrid := false;
              IcecatScannerPage.output := [] |} in
  let server := fun _ : string =>
    IcecatScannerPage.resolves (Some (IcecatScannerPage.succeeded tt)) in
  let populateForm := fun (_ : unit) => @throw IcecatScannerPage.page unit in
  exists s',
    IcecatScannerPage.fetchData server populateForm s = (Normal tt, s') /\
    last (IcecatScannerPage.output s')
      = Some (IcecatScannerPage.alert IcecatScannerPage.msg_connection).
Proof.
  intros el s server populateForm.
  assert (H0 : forall (product : unit) s0,
            indicator (populateForm product s0).2 = indicator s0)
    by (intros; reflexivity).
  assert (H1 : IcecatScannerPage.gtinInput s = Some "0194850553189")
    by reflexivity.
  assert (H2 : JS.trim "0194850553189" <> "") by (vm_compute; discriminate).
  assert (H3 : is_Some (Some el)) by eauto.
  assert (H4 : forall s0, (populateForm tt s0).1 = Throw) by (intros; reflexivity).
  exact (fetchData_populateForm_throws server populateForm s "0194850553189" tt
           H0 H1 H2 H3 H3 H3 eq_refl H4).
Defined.

(** X18.  For a GTIN that is empty or white space only, [fetchData] sends no
    request: it asks the user for a GTIN and changes nothing else on the
    page, the loading indicator included. *)
Theorem fetchData_blank_gtin {Product : Type}
    (server : string -> @IcecatScannerPage.response Product)
    (populateForm : Product -> action IcecatScannerPage.page unit)
    (s : IcecatScannerPage.page) (v : string) :
  IcecatScannerPage.gtinInput s = Some v ->
  all_space v = true ->
  exists s',
    IcecatScannerPage.fetchData server populateForm s = (Normal tt, s') /\
    IcecatScannerPage.output s'
      = IcecatScannerPage.output s
          ++ [IcecatScannerPage.alert IcecatScannerPage.msg_gtin] /\
    IcecatScannerPage.form s' = IcecatScannerPage.form s /\
    indicator s' = indicator s.
Proof.
  intros Hg Hv. apply trim_empty in Hv.
  unfold IcecatScannerPage.fetchData. rewrite Hg. cbn zeta. rewrite Hv.
  cbn [JS.truthy negb]. by eexists.
Qed.

Lemma fetchData_blank_gtin_witness :
  let s := {| IcecatScannerPage.gtinInput := Some "   ";
              IcecatScannerPage.btnFetchIcecat := None;
              IcecatScannerPage.fetch_text := None;
              IcecatScannerPage.fetch_spinner := None;
              IcecatScannerPage.has_showNotification := false;
              IcecatScannerPage.form := ∅;
              IcecatScannerPage.laptop_form := false;
              IcecatScannerPage.images_container := None;
              IcecatScannerPage.has_LaptopGalleryHybrid := false;
              IcecatScannerPage.output := [] |} in
  let server := fun _ : string => @IcecatScannerPage.rejects unit in
  let populateForm := fun (_ : unit) => @throw IcecatScannerPage.page unit in
  exists s',
    IcecatScannerPage.fetchData server populateForm s = (Normal tt, s') /\
    IcecatScannerPage.output s'
      = IcecatScannerPage.output s
          ++ [IcecatScannerPage.alert IcecatScannerPage.msg_gtin] /\
    IcecatScannerPage.form s' = IcecatScannerPage.form s /\
    indicator s' = indicator s.
Proof.
  intros s server populateForm.
  exact (fetchData_blank_gtin server populateForm s "   " eq_refl eq_refl).
Defined.

(** X19.  With a GTIN entered and one of the three elements of the loading
    indicator missing from the page, [fetchData] throws before it has sent a
    request, and the user is told nothing. *)
Theorem fetchData_indicator_missing {Product : Type}
    (server : string -> @IcecatScannerPage.response Product)
    (populateForm : Product -> action IcecatScannerPage.page unit)
    (s : IcecatScannerPage.page) (v : string) :
  IcecatScannerPage.gtinInput s = Some v ->
  JS.trim v <> "" ->
  IcecatScannerPage.fetch_text s = None \/
  IcecatScannerPage.fetch_spinner s = None \/
  IcecatScannerPage.btnFetchIcecat s = None ->
  exists s',
    IcecatScannerPage.fetchData server populateForm s = (Throw, s') /\
    IcecatScannerPage.output s' = IcecatScannerPage.output s.
Proof.
  intros Hg Hv Hmiss. unfold IcecatScannerPage.fetchData. rewrite Hg. cbn zeta.
  rewrite (trim_truthy v Hv). cbn [negb].
  unfold mbind at 1. unfold action_bind at 1.
  destruct (setLoading_missing s Hmiss) as (s' & -> & Ho).
  by exists s'.
Qed.

Lemma fetchData_indicator_missing_witness :
  let el := {| IcecatScannerPage.classList := ∅;
               IcecatScannerPage.disabled := false;
               IcecatScannerPage.textContent := "" |} in
  let s := {| IcecatScannerPage.gtinInput := Some "0194850553189";
              IcecatScannerPage.btnFetchIcecat := Some el;
              IcecatScannerPage.fetch_text := Some el;
              IcecatScannerPage.fetch_spinner := None;
              IcecatScannerPage.has_showNotification := false;
              IcecatScannerPage.form := ∅;
              IcecatScannerPage.laptop_form := false;
              IcecatScannerPage.images_container := None;
              IcecatScannerPage.has_LaptopGalleryHybrid := false;
              IcecatScannerPage.output := [] |} in
  let server := fun _ : string => @IcecatScannerPage.rejects unit in
  let populateForm := fun (_ : unit) => @throw IcecatScannerPage.page unit in
  exists s',
    IcecatScannerPage.fetchData server populateForm s = (Throw, s') /\
    IcecatScannerPage.output s' = IcecatScannerPage.output s.
Proof.
  intros el s server populateForm.
  assert (H2 : JS.trim "0194850553189" <> "") by (vm_compute; discriminate).
  assert (H3 : IcecatScannerPage.fetch_text s = None \/
               IcecatScannerPage.fetch_spinner s = None \/
               IcecatScannerPage.btnFetchIcecat s = None)
    by (right; left; reflexivity).
  exact (fetchData_indicator_missing server populateForm s "0194850553189"
           eq_refl H2 H3).
Defined.

(** ** [loadImages] and the gallery *)

Section images.

Import IcecatScannerPage.

Lemma str_app_inv_head (s a b : string) : s +:+ a = s +:+ b -> a = b.
Proof.
  induction s as [|c s IH]; [by rewrite !str_app_nil_l|].
  rewrite !str_app_cons. intros H. injection H as H. by apply IH.
Qed.

Lemma str_app_inv_tail (a b t : string) : a +:+ t = b +:+ t -> a = b.
Proof.
  revert b. induction a as [|c a IH]; intros [|d b]; rewrite ?str_app_nil_l, ?str_app_cons.
  - done.
  - intros H. apply (f_equal String.length) in H. cbn [String.length] in H.
    rewrite str_length_app in H. lia.
  - intros H. apply (f_equal String.length) in H. cbn [String.length] in H.
    rewrite str_length_app in H. lia.
  - intros H. injection H as -> H. f_equal. by apply IH.
Qed.

Lemma Number_toString_inj (a b : Z) :
  JS.Number_toString a = JS.Number_toString b -> a = b.
Proof.
  intros H. apply (f_equal JS.parseInt) in H.
  rewrite !parseInt_Number_toString in H. by injection H.
Qed.

Lemma image_url_id_inj (a b : Z) : image_url_id a = image_url_id b -> a = b.
Proof.
  unfold image_url_id. intros H. apply str_app_inv_head, str_app_inv_tail in H.
  by apply Number_toString_inj.
Qed.

Lemma image_url_id_slot (i j : nat) :
  image_url_id (Z.of_nat i + 1) = image_url_id (Z.of_nat j + 1) -> i = j.
Proof. intros H%image_url_id_inj. lia. Qed.

Lemma find_None {A : Type} (p : A -> bool) (xs : list A) :
  List.find p xs = None <-> forall x, x ∈ xs -> p x = false.
Proof.
  induction xs as [|y xs IH]; cbn [List.find].
  - split; [|done]. intros _ x Hx. by apply elem_of_nil in Hx.
  - destruct (p y) eqn:Hy.
    + split; [done|]. intros H. rewrite H in Hy; [done|]. left.
    + rewrite IH. split.
      * intros H x [->|Hx]%elem_of_cons; [done|]. by apply H.
      * intros H x Hx. apply H. by right.
Qed.

(** One round of the fallback. *)
Lemma loadImages_each_run (url : string) (index : nat) (s : page)
    (cards : list card) :
  images_container s = Some cards ->
  laptop_form s = true \/ is_Some (form s !! image_url_id (Z.of_nat index + 1)) ->
  exists s',
    loadImages_each url index s = (Normal tt, s') /\
    value <$> form s' !! image_url_id (Z.of_nat index + 1) = Some url /\
    (forall id, id <> image_url_id (Z.of_nat index + 1) ->
                form s' !! id = form s !! id) /\
    laptop_form s' = laptop_form s /\
    output s' = output s /\
    images_container s' =
      Some (cards ++
            match List.find (fun c => String.eqb (data_index c)
                                        (JS.Number_toString (Z.of_nat index + 1)))
                            cards with
            | Some _ => []
            | None => [preview index url]
            end).
Proof.
  intros Hc Hform. unfold loadImages_each. cbn zeta.
  set (id := image_url_id (Z.of_nat index + 1)) in *.
  unfold mbind, action_bind, addGalleryPreview.
  destruct (form s !! id) as [el|] eqn:Hel.
  - cbn -[set_target]. rewrite Hc.
    destruct (List.find _ cards) eqn:Hfind; cbn -[set_target];
      (eexists; split; [done|]);
      unfold set_form, set_images_container;
      cbn [form images_container laptop_form output];
      rewrite lookup_set_target, Hel, ?app_nil_r;
      (repeat split; try done); intros id' Hne; by apply lookup_set_target_ne.
  - destruct Hform as [Hlf|[? [=]]]. rewrite Hlf. cbn -[set_target]. rewrite Hc.
    destruct (List.find _ cards) eqn:Hfind; cbn -[set_target];
      (eexists; split; [done|]);
      unfold set_form, set_images_container;
      cbn [form images_container laptop_form output];
      rewrite lookup_set_target, lookup_insert_eq, ?app_nil_r;
      (repeat split; try done); intros id' Hne;
      by rewrite lookup_set_target_ne, lookup_insert_ne.
Qed.

Lemma forEach_loadImages (imageUrls : list string) (i : nat) (s : page)
    (cards : list card) :
  images_container s = Some cards ->
  (forall j, (j < length imageUrls)%nat ->
     laptop_form s = true \/
     is_Some (form s !! image_url_id (Z.of_nat (i + j) + 1))) ->
  exists s' added,
    forEach_from loadImages_each i imageUrls s = (Normal tt, s') /\
    (forall j url, imageUrls !! j = Some url ->
       value <$> form s' !! image_url_id (Z.of_nat (i + j) + 1) = Some url) /\
    (forall id,
       (forall j, (j < length imageUrls)%nat ->
                  id <> image_url_id (Z.of_nat (i + j) + 1)) ->
       form s' !! id = form s !! id) /\
    output s' = output s /\
    images_container s' = Some (cards ++ added) /\
    (forall c, c ∈ added <->
       exists j url, imageUrls !! j = Some url /\ c = preview (i + j) url /\
         forall c0, c0 ∈ cards -> data_index c0 <> data_index c).
Proof.
  revert i s cards. induction imageUrls as [|url urls IH]; intros i s cards Hc Hform.
  { exists s, []. rewrite app_nil_r. repeat split; try done.
    - intros Hin. by apply elem_of_nil in Hin.
    - by intros (j & u & Hj & _). }
  cbn [forEach_from]. unfold mbind at 1. unfold action_bind at 1.
  destruct (loadImages_each_run url i s cards Hc) as
    (s1 & -> & Hv1 & Hother1 & Hlf1 & Ho1 & Hc1).
  { specialize (Hform 0%nat). rewrite Nat.add_0_r in Hform. apply Hform.
    cbn [length]. lia. }
  set (new := match List.find _ cards with Some _ => [] | None => [preview i url] end)
    in Hc1.
  destruct (IH (S i) s1 (cards ++ new) Hc1) as
    (s' & added & Hrun & Hv & Hother & Ho & Hc' & Hadded).
  { intros j Hj. destruct (Hform (S j)) as [H|H]; [cbn [length]; lia|left|right].
    - by rewrite Hlf1.
    - replace (S i + j)%nat with (i + S j)%nat by lia.
      rewrite Hother1; [done|]. intros Heq%image_url_id_slot. lia. }
  exists s', (new ++ added). split; [done|]. split; [|split; [|split; [|split]]].
  - intros [|j] u Hj.
    + injection Hj as <-. rewrite Hother.
      * by rewrite Nat.add_0_r.
      * intros j Hj Heq%image_url_id_slot. lia.
    + replace (i + S j)%nat with (S i + j)%nat by lia. by apply Hv.
  - intros id Hid. rewrite Hother, Hother1; [done| |].
    + specialize (Hid 0%nat). rewrite Nat.add_0_r in Hid. apply Hid. cbn [length]. lia.
    + intros j Hj. replace (S i + j)%nat with (i + S j)%nat by lia.
      apply Hid. cbn [length]. lia.
  - by rewrite Ho.
  - by rewrite Hc', <- app_assoc.
  - intros c. rewrite elem_of_app, Hadded. split.
    + intros [Hnew|(j & u & Hj & -> & Hfree)].
      * subst new. destruct (List.find _ cards) eqn:Hfind;
          [by apply elem_of_nil in Hnew|].
        apply list_elem_of_singleton in Hnew as ->.
        exists 0%nat, url. rewrite Nat.add_0_r. split; [done|]. split; [done|].
        intros c0 Hc0 Heq. rewrite find_None in Hfind.
        specialize (Hfind c0 Hc0). cbn beta in Hfind.
        apply String.eqb_neq in Hfind. by apply Hfind.
      * exists (S j), u. replace (i + S j)%nat with (S i + j)%nat by lia.
        split; [done|]. split; [done|]. intros c0 Hc0. apply Hfree.
        apply elem_of_app. by left.
    + intros ([|j] & u & Hj & -> & Hfree).
      * left. injection Hj as <-. rewrite Nat.add_0_r in *. subst new.
        destruct (List.find _ cards) as [c0|] eqn:Hfind; [|by left].
        apply List.find_some in Hfind as [Hin Heq].
        apply String.eqb_eq in Heq. exfalso. apply (Hfree c0); [|done].
        by apply list_elem_of_In.
      * right. exists j, u. replace (S i + j)%nat with (i + S j)%nat by lia.
        split; [done|]. split; [done|]. intros c0 [Hc0|Hc0]%elem_of_app.
        -- by apply Hfree.
        -- subst new. destruct (List.find _ cards); [by apply elem_of_nil in Hc0|].
           apply list_elem_of_singleton in Hc0 as ->. cbn [data_index preview].
           intros Heq%Number_toString_inj. lia.
Qed.

End images.

(** X20.  Without the gallery script, and with the container of the gallery
    on the page, [loadImages] writes the k-th url into the field
    image_k_url, counting from 1, creating the field where it is missing;
    every other field of the form stays as it was, the fields of the slots
    beyond the last url included. *)
Theorem loadImages_fills_slots (imageUrls : list string)
    (s : IcecatScannerPage.page) (cards : list IcecatScannerPage.card) :
  IcecatScannerPage.images_container s = Some cards ->
  IcecatScannerPage.has_LaptopGalleryHybrid s = false ->
  (forall k, (k < length imageUrls)%nat ->
     IcecatScannerPage.laptop_form s = true \/
     is_Some (IcecatScannerPage.form s
                !! IcecatScannerPage.image_url_id (Z.of_nat k + 1))) ->
  exists s',
    IcecatScannerPage.loadImages imageUrls s = (Normal tt, s') /\
    (forall k url, imageUrls !! k = Some url ->
       value <$> IcecatScannerPage.form s'
                   !! IcecatScannerPage.image_url_id (Z.of_nat k + 1) = Some url) /\
    (forall id,
       (forall k, (k < length imageUrls)%nat ->
                  id <> IcecatScannerPage.image_url_id (Z.of_nat k + 1)) ->
       IcecatScannerPage.form s' !! id = IcecatScannerPage.form s !! id) /\
    IcecatScannerPage.output s' = IcecatScannerPage.output s.
Proof.
  intros Hc Hg Hform.
  destruct (forEach_loadImages imageUrls 0 s cards Hc Hform)
    as (s' & added & Hrun & Hv & Hother & Ho & _).
  exists s'. split; [|done].
  unfold IcecatScannerPage.loadImages. by rewrite Hc, Hg.
Qed.

Lemma loadImages_fills_slots_witness :
  let s := {| IcecatScannerPage.gtinInput := None;
              IcecatScannerPage.btnFetchIcecat := None;
              IcecatScannerPage.fetch_text := None;
              IcecatScannerPage.fetch_spinner := None;
              IcecatScannerPage.has_showNotification := false;
              IcecatScannerPage.form :=
                {[ "image_3_url" := {| value := "c.jpg"; checked := false |} ]};
              IcecatScannerPage.laptop_form := true;
              IcecatScannerPage.images_container := Some [];
              IcecatScannerPage.has_LaptopGalleryHybrid := false;
              IcecatScannerPage.output := [] |} in
  exists s',
    IcecatScannerPage.loadImages ["a.jpg"; "b.jpg"] s = (Normal tt, s') /\
    (forall k url, ["a.jpg"; "b.jpg"] !! k = Some url ->
       value <$> IcecatScannerPage.form s'
                   !! IcecatScannerPage.image_url_id (Z.of_nat k + 1) = Some url) /\
    (forall id,
       (forall k, (k < length ["a.jpg"; "b.jpg"])%nat ->
                  id <> IcecatScannerPage.image_url_id (Z.of_nat k + 1)) ->
       IcecatScannerPage.form s' !! id = IcecatScannerPage.form s !! id) /\
    IcecatScannerPage.output s' = IcecatScannerPage.output s.
Proof.
  intros s.
  assert (H : forall k, (k < length ["a.jpg"; "b.jpg"])%nat ->
     IcecatScannerPage.laptop_form s = true \/
     is_Some (IcecatScannerPage.form s
                !! IcecatScannerPage.image_url_id (Z.of_nat k + 1)))
    by (intros k _; left; reflexivity).
  exact (loadImages_fills_slots ["a.jpg"; "b.jpg"] s [] eq_refl eq_refl H).
Defined.

(** X21.  In the same run [loadImages] only appends to the gallery: the
    cards that were there stay, in their order, and a card is added for the
    k-th url exactly when no card carried the index k before.  So the
    preview of an occupied slot keeps its old image, although the url field
    of the slot is overwritten. *)
Theorem loadImages_previews (imageUrls : list string)
    (s : IcecatScannerPage.page) (cards : list IcecatScannerPage.card) :
  IcecatScannerPage.images_container s = Some cards ->
  IcecatScannerPage.has_LaptopGalleryHybrid s = false ->
  (forall k, (k < length imageUrls)%nat ->
     IcecatScannerPage.laptop_form s = true \/
     is_Some (IcecatScannerPage.form s
                !! IcecatScannerPage.image_url_id (Z.of_nat k + 1))) ->
  exists s' added,
    IcecatScannerPage.loadImages imageUrls s = (Normal tt, s') /\
    IcecatScannerPage.images_container s' = Some (cards ++ added) /\
    (forall c, c ∈ added <->
       exists k url, imageUrls !! k = Some url /\ c = preview k url /\
         forall c0, c0 ∈ cards ->
           IcecatScannerPage.data_index c0 <> IcecatScannerPage.data_index c).
Proof.
  intros Hc Hg Hform.
  destruct (forEach_loadImages imageUrls 0 s cards Hc Hform)
    as (s' & added & Hrun & _ & _ & _ & Hc' & Hadded).
  exists s', added. split; [|done].
  unfold IcecatScannerPage.loadImages. by rewrite Hc, Hg.
Qed.

Lemma loadImages_previews_witness :
  let old := {| IcecatScannerPage.data_index := "1";
                IcecatScannerPage.src := "old.jpg" |} in
  let s := {| IcecatScannerPage.gtinInput := None;
              IcecatScannerPage.btnFetchIcecat := None;
              IcecatScannerPage.fetch_text := None;
              IcecatScannerPage.fetch_spinner := None;
              IcecatScannerPage.has_showNotification := false;
              IcecatScannerPage.form := ∅;
              IcecatScannerPage.laptop_form := true;
              IcecatScannerPage.images_container := Some [old];
              IcecatScannerPage.has_LaptopGalleryHybrid := false;
              IcecatScannerPage.output := [] |} in
  exists s' added,
    IcecatScannerPage.loadImages ["a.jpg"; "b.jpg"] s = (Normal tt, s') /\
    IcecatScannerPage.images_container s' = Some ([old] ++ added) /\
    (forall c, c ∈ added <->
       exists k url, ["a.jpg"; "b.jpg"] !! k = Some url /\ c = preview k url /\
         forall c0, c0 ∈ [old] ->
           IcecatScannerPage.data_index c0 <> IcecatScannerPage.data_index c).
Proof.
  intros old s.
  assert (H : forall k, (k < length ["a.jpg"; "b.jpg"])%nat ->
     IcecatScannerPage.laptop_form s = true \/
     is_Some (IcecatScannerPage.form s
                !! IcecatScannerPage.image_url_id (Z.of_nat k + 1)))
    by (intros k _; left; reflexivity).
  exact (loadImages_previews ["a.jpg"; "b.jpg"] s [old] eq_refl eq_refl H).
Defined.

(** ** The imported names under the listeners *)

Section agreement.

Import LaptopReactiveNames.

Context (is_checkbox : string -> bool) (doc0 : document).

Lemma setVal_value (id t : string) (callback : document -> completion document)
    (val : option string) (d : document) :
  (id, callback) ∈ listened -> (t, callback) ∈ updates -> is_Some (d !! id) ->
  value <$> (populateForm.setVal (register_all is_checkbox doc0) id val d).1 !! id
    = Some (IcecatScanner.or_empty val).
Proof.
  intros Hl Hu [el Hel]. rewrite setVal_set_target, Hel.
  rewrite (dispatch_change_listened _ _ id t callback) by done.
  assert (Hne : t <> id).
  { intros ->. apply (listened_disjoint_names id).
    - by apply (list_elem_of_fmap_2 fst) in Hl.
    - by apply (updates_name id callback). }
  assert (Hv : value <$> set_target d id (IcecatScanner.or_empty val) !! id
               = Some (IcecatScanner.or_empty val))
    by (by rewrite lookup_set_target, Hel).
  case_bool_decide; [|done].
  destruct (run_listener_update t callback
              (set_target d id (IcecatScanner.or_empty val)) Hu) as (v & ->).
  by rewrite lookup_set_target_ne.
Qed.


Lemma touches_lookup (ids : list string) (d d' : document) (id : string) :
  touches ids d d' -> id ∉ ids -> d' !! id = d !! id.
Proof. intros [_ H] Hid. by apply H. Qed.

Lemma field_value_or_empty (d : document) (id : string) (val : option string) :
  value <$> d !! id = Some (IcecatScanner.or_empty val) ->
  field_value d id = IcecatScanner.or_empty val.
Proof.
  unfold field_value. intros ->. by destruct (IcecatScanner.or_empty val).
Qed.


Lemma set_target_id (d : document) (t v : string) :
  (is_Some (d !! t) -> value <$> d !! t = Some v) -> set_target d t v = d.
Proof.
  intros H. unfold set_target. destruct (d !! t) as [[v' c]|] eqn:E; [|done].
  specialize (H (ltac:(eauto))). cbn in H. injection H as ->.
  by apply insert_id.
Qed.

Lemma present_None (rest : list (option string)) :
  Spec.present (None :: rest) = Spec.present rest.
Proof. done. Qed.

Lemma present_empty (rest : list (option string)) :
  Spec.present (Some "" :: rest) = Spec.present rest.
Proof. done. Qed.

(** A text token of the form and the entry of the importer it stands for. *)
Lemma present_plain (v : option string) :
  Spec.present (Some <$> Spec.plain (IcecatScanner.or_empty v)) = Spec.present [v].
Proof. by destruct v as [[|c s]|]. Qed.

(** A number token of the form and the entry of the importer it stands for,
    the number not being 0. *)
Lemma present_token (n : option Z) (suffix : string) :
  n <> Some 0 ->
  Spec.present (Some <$> Spec.token
                  (IcecatScanner.or_empty (populateForm.number_value n)) suffix)
    = Spec.present
        [Some (if JS.truthy_num n
               then IcecatScanner.number_text n +:+ suffix else "")].
Proof.
  intros Hn. destruct n as [n|]; [|done].
  cbn [populateForm.number_value fmap option_fmap option_map
       IcecatScanner.or_empty JS.truthy_num IcecatScanner.number_text].
  unfold Spec.token. rewrite Number_toString_truthy.
  destruct (Z.eqb_spec n 0) as [->|_]; [done|]. done.
Qed.

Lemma present_four (a b c d : option string) :
  Spec.present [a; b; c; d]
    = Spec.present [a] ++ Spec.present [b] ++ Spec.present [c] ++ Spec.present [d].
Proof. by rewrite <- !present_app. Qed.

End agreement.

(** The value a block has written into a listened field is still there at
    the end of the block; [rest] are the fields written after it. *)
Ltac field_kept id t cb all rest :=
  match goal with
  | |- context [(populateForm.setVal ?reg id ?v ?d).1] =>
      let Hk := fresh "Hk" in
      assert (Hk : value <$> (populateForm.setVal reg id v d).1 !! id
                   = Some (IcecatScanner.or_empty v));
      [ apply (setVal_value _ _ id t cb);
        [ found_at 25%nat | found_at 5%nat
        | match goal with
          | H : is_Some (?base !! id) |- _ =>
              apply (touches_is_Some all base d id); [block_steps t cb | exact H]
          end ]
      | let dk := fresh "dk" in
        let Edk := fresh "Edk" in
        remember (populateForm.setVal reg id v d).1 as dk eqn:Edk; clear Edk;
        rewrite (touches_lookup rest dk _ id); [exact Hk | block_steps t cb | listed] ]
  end.


Section block_fields.

Import LaptopReactiveNames.

Context (is_checkbox : string -> bool) (doc0 doc : document).

Lemma memoria_ram_block_fields (r : IcecatScanner.memoria_ram) (ampliable : bool) :
  let doc' :=
    populateForm.memoria_ram_block (register_all is_checkbox doc0) (Some r)
      ampliable doc in
  is_Some (doc !! "ram_capacity") -> is_Some (doc !! "ram_type_detailed") ->
  is_Some (doc !! "ram_speed_mhz") -> is_Some (doc !! "ram_transfer_rate") ->
  field_value doc' "ram_capacity"
    = IcecatScanner.or_empty (populateForm.number_value (IcecatScanner.capacidad_gb r)) /\
  field_value doc' "ram_type_detailed"
    = IcecatScanner.or_empty (IcecatScanner.ram_tipo r) /\
  field_value doc' "ram_speed_mhz"
    = IcecatScanner.or_empty (populateForm.number_value (IcecatScanner.velocidad_mhz r)) /\
  field_value doc' "ram_transfer_rate"
    = IcecatScanner.or_empty
        (populateForm.number_value (IcecatScanner.tasa_transferencia r)).
Proof.
  intros doc' H1 H2 H3 H4. subst doc'. cbn [populateForm.memoria_ram_block].
  set (all := ["ram_id"; "ram_capacity"; "ram_type_detailed"; "ram_speed_mhz";
               "ram_transfer_rate"; "ram_upgradeable"; "ram_full_name"]).
  repeat split; apply field_value_or_empty.
  - field_kept "ram_capacity" "ram_full_name" reactiveLogic.updateRAM all
      ["ram_type_detailed"; "ram_speed_mhz"; "ram_transfer_rate";
       "ram_upgradeable"; "ram_full_name"].
  - field_kept "ram_type_detailed" "ram_full_name" reactiveLogic.updateRAM all
      ["ram_speed_mhz"; "ram_transfer_rate"; "ram_upgradeable"; "ram_full_name"].
  - field_kept "ram_speed_mhz" "ram_full_name" reactiveLogic.updateRAM all
      ["ram_transfer_rate"; "ram_upgradeable"; "ram_full_name"].
  - field_kept "ram_transfer_rate" "ram_full_name" reactiveLogic.updateRAM all
      ["ram_upgradeable"; "ram_full_name"].
Qed.

End block_fields.

Section block_fields_storage.

Import LaptopReactiveNames.

Context (is_checkbox : string -> bool) (doc0 doc : document).



End block_fields_storage.

(** X22.  After the RAM block of [populateForm] the listener of the RAM
    fields would compute the name that stands in the name field: the form
    is a fixed point of updateRAM, so the next edit of a RAM field does not
    change the imported name.  This holds when the four fields are on the
    page, no number of the product is 0, and cleanJoin has nothing to trim
    or to drop in the tokens of the importer. *)
Theorem memoria_ram_block_agrees (is_checkbox : string -> bool)
    (doc0 doc : document) (r : IcecatScanner.memoria_ram) (ampliable : bool) :
  let doc' :=
    populateForm.memoria_ram_block
      (LaptopReactiveNames.register_all is_checkbox doc0) (Some r) ampliable doc in
  is_Some (doc !! "ram_capacity") -> is_Some (doc !! "ram_type_detailed") ->
  is_Some (doc !! "ram_speed_mhz") -> is_Some (doc !! "ram_transfer_rate") ->
  IcecatScanner.capacidad_gb r <> Some 0 ->
  IcecatScanner.velocidad_mhz r <> Some 0 ->
  IcecatScanner.tasa_transferencia r <> Some 0 ->
  utils.cleanJoin
    [Some (if JS.truthy_num (IcecatScanner.capacidad_gb r)
           then IcecatScanner.number_text (IcecatScanner.capacidad_gb r) +:+ "GB"
           else "");
     IcecatScanner.ram_tipo r;
     Some (if JS.truthy_num (IcecatScanner.velocidad_mhz r)
           then IcecatScanner.number_text (IcecatScanner.velocidad_mhz r) +:+ "MHz"
           else "");
     Some (if JS.truthy_num (IcecatScanner.tasa_transferencia r)
           then IcecatScanner.number_text (IcecatScanner.tasa_transferencia r)
                +:+ "MT/s"
           else "")]
    = Normal (IcecatScanner.ramFullName r) ->
  reactiveLogic.updateRAM doc' = Normal doc'.
Proof.
  intros doc' H1 H2 H3 H4 Hn1 Hn2 Hn3 Hjoin.
  destruct (memoria_ram_block_fields is_checkbox doc0 doc r ampliable H1 H2 H3 H4)
    as (Hc & Ht & Hs & Htr).
  fold doc' in Hc, Ht, Hs, Htr.
  unfold reactiveLogic.updateRAM. cbn zeta. rewrite Hc, Ht, Hs, Htr.
  rewrite formatRam_tokens. cbn [mbind completion_bind]. f_equal.
  apply set_target_id. intros Hname.
  destruct (memoria_ram_block_written is_checkbox doc0 doc r ampliable) as [[Hdom _] Hv].
  fold doc' in Hdom, Hv.
  rewrite Hv by (by rewrite <- elem_of_dom, <- Hdom, elem_of_dom).
  f_equal. rewrite cleanJoin_refines in Hjoin. injection Hjoin as <-.
  unfold Spec.cleanJoin, Spec.ram_tokens. do 2 f_equal.
  rewrite !fmap_app, !present_app, present_four.
  by rewrite !present_token, present_plain by done.
Qed.

Lemma memoria_ram_block_agrees_witness :
  let doc : document :=
    {[ "ram_capacity" := {| value := ""; checked := false |};
       "ram_type_detailed" := {| value := ""; checked := false |};
       "ram_speed_mhz" := {| value := ""; checked := false |};
       "ram_transfer_rate" := {| value := ""; checked := false |};
       "ram_full_name" := {| value := ""; checked := false |} ]} in
  let r := {| IcecatScanner.capacidad_gb := Some 16;
              IcecatScanner.ram_tipo := Some "DDR5";
              IcecatScanner.velocidad_mhz := Some 4800;
              IcecatScanner.tasa_transferencia := None |} in
  let doc' :=
    populateForm.memoria_ram_block
      (LaptopReactiveNames.register_all (fun _ => false) doc) (Some r) false doc in
  value <$> doc' !! "ram_full_name" = Some "16GB DDR5 4800MHz" /\
  reactiveLogic.updateRAM doc' = Normal doc'.
Proof.
  intros doc r doc'. split; [by vm_compute|].
  assert (H1 : is_Some (doc !! "ram_capacity")) by (vm_compute; eauto).
  assert (H2 : is_Some (doc !! "ram_type_detailed")) by (vm_compute; eauto).
  assert (H3 : is_Some (doc !! "ram_speed_mhz")) by (vm_compute; eauto).
  assert (H4 : is_Some (doc !! "ram_transfer_rate")) by (vm_compute; eauto).
  assert (H5 : Some 16 <> Some 0) by discriminate.
  assert (H6 : Some 4800 <> Some 0) by discriminate.
  assert (H7 : @None Z <> Some 0) by discriminate.
  exact (memoria_ram_block_agrees (fun _ => false) doc doc r false
           H1 H2 H3 H4 H5 H6 H7 eq_refl).
Defined.



(** ** The camera scanner *)

(** Equality of two sets of tokens built from the tokens [a], [b] (and [c],
    [d]) by union and difference. *)
Ltac tokens_eq2 a b :=
  apply set_eq; intro; set_unfold;
  match goal with
  | |- context [?y ∈ _] =>
      destruct (decide (y = a)) as [?|?], (decide (y = b)) as [?|?];
      subst; intuition congruence
  end.

Ltac tokens_eq4 a b c d :=
  apply set_eq; intro; set_unfold;
  match goal with
  | |- context [?y ∈ _] =>
      destruct (decide (y = a)) as [?|?], (decide (y = b)) as [?|?],
        (decide (y = c)) as [?|?], (decide (y = d)) as [?|?];
      subst; intuition congruence
  end.

Section tokens_replace.

Import IcecatScannerPage IcecatScannerCamera.

Lemma classList_replace_tokens (oldToken newToken : string) (el : node) :
  classList_replace oldToken newToken el =
    {| classList := replace_token oldToken newToken (classList el);
       disabled := disabled el; textContent := textContent el |}.
Proof.
  unfold classList_replace, replace_token. case_bool_decide; [done|].
  by destruct el.
Qed.

Lemma replace_token_back (a b : string) (tokens : gset string) :
  a <> b ->
  replace_token b a (replace_token a b tokens) = replace_token b a tokens.
Proof.
  intros Hne. unfold replace_token.
  repeat case_bool_decide; tokens_eq2 a b.
Qed.

Lemma replace_token_comm (a b c d : string) (tokens : gset string) :
  a <> c -> a <> d -> b <> c -> b <> d ->
  replace_token a b (replace_token c d tokens)
    = replace_token c d (replace_token a b tokens).
Proof.
  intros H1 H2 H3 H4. unfold replace_token.
  repeat case_bool_decide; tokens_eq4 a b c d.
Qed.

End tokens_replace.

Section camera.

Import IcecatScannerPage IcecatScannerCamera.

Context (stop : bool).

Lemma stopScanner_run (s : scanner) (container placeholder button : node) :
  scannerContainer s = Some container ->
  scannerPlaceholder s = Some placeholder ->
  btnToggleScanner s = Some button ->
  stopScanner stop s =
    (Normal tt,
     {| html5QrCode := false; isScannerRunning := false;
        scannerContainer := Some (classList_add "hidden" container);
        scannerPlaceholder := Some (classList_remove "hidden" placeholder);
        btnToggleScanner :=
          Some (classList_replace "hover:bg-red-400" "hover:bg-indigo-400"
                  (classList_replace "bg-red-500" "bg-indigo-500"
                     (set_textContent ("Iniciar C" +:+ a_acute +:+ "mara Scanner")
                        button)));
        alerts := alerts s |}).
Proof.
  intros Hc Hp Hb. unfold stopScanner, mbind, action_bind, try_catch, throw, mret,
    action_ret, set_html5QrCode, set_isScannerRunning, on_scannerContainer,
    on_scannerPlaceholder, on_btnToggleScanner.
  destruct s as [h r c p b al]. cbn in Hc, Hp, Hb. subst c p b.
  by destruct h, stop.
Qed.

End camera.

Section camera_start.

Import IcecatScannerPage IcecatScannerCamera.

Lemma button_stopped (text1 text2 : string) (button : node) :
  classList_replace "hover:bg-red-400" "hover:bg-indigo-400"
    (classList_replace "bg-red-500" "bg-indigo-500"
       (set_textContent text2
          (classList_replace "hover:bg-indigo-400" "hover:bg-red-400"
             (classList_replace "bg-indigo-500" "bg-red-500"
                (set_textContent text1 button)))))
  = classList_replace "hover:bg-red-400" "hover:bg-indigo-400"
      (classList_replace "bg-red-500" "bg-indigo-500"
         (set_textContent text2 button)).
Proof.
  rewrite !classList_replace_tokens. unfold set_textContent.
  cbn [classList disabled textContent]. f_equal.
  rewrite (replace_token_comm "bg-red-500" "bg-indigo-500"
             "hover:bg-indigo-400" "hover:bg-red-400") by done.
  by rewrite (replace_token_back "bg-indigo-500" "bg-red-500"),
    (replace_token_back "hover:bg-indigo-400" "hover:bg-red-400") by done.
Qed.

Lemma startScanner_fails (stop : bool) (err : error) (s : scanner)
    (container placeholder button : node) :
  scannerContainer s = Some container ->
  scannerPlaceholder s = Some placeholder ->
  btnToggleScanner s = Some button ->
  startScanner true true true (Some err) stop s =
    (Normal tt,
     {| html5QrCode := false; isScannerRunning := false;
        scannerContainer := Some (classList_add "hidden" container);
        scannerPlaceholder := Some (classList_remove "hidden" placeholder);
        btnToggleScanner :=
          Some (classList_replace "hover:bg-red-400" "hover:bg-indigo-400"
                  (classList_replace "bg-red-500" "bg-indigo-500"
                     (set_textContent ("Iniciar C" +:+ a_acute +:+ "mara Scanner")
                        button)));
        alerts := alerts s ++ [start_message err] |}).
Proof.
  intros Hc Hp Hb. destruct s as [h r c p b al]. cbn in Hc, Hp, Hb. subst c p b.
  unfold startScanner. cbn [negb].
  unfold mbind, action_bind, try_catch, throw, mret, action_ret, set_html5QrCode,
    set_isScannerRunning, on_scannerContainer, on_scannerPlaceholder,
    on_btnToggleScanner, show_alert, detached.
  cbn [html5QrCode isScannerRunning scannerContainer scannerPlaceholder
       btnToggleScanner alerts].
  erewrite stopScanner_run by reflexivity.
  cbn [snd html5QrCode isScannerRunning scannerContainer scannerPlaceholder
       btnToggleScanner alerts].
  by rewrite classList_remove_add, classList_add_remove, button_stopped.
Qed.

End camera_start.

(** X24.  When the camera cannot be started (the promise of [start] is
    rejected), [startScanner] leaves the scanner and the page exactly as
    [stopScanner] leaves them, after one alert: not running, no camera
    object, the container hidden, the placeholder shown, the button with
    its start text and colours.  The context is secure, the browser has the
    camera interface, and the three elements are on the page. *)
Theorem startScanner_failure_as_stopped (stop : bool)
    (err : IcecatScannerCamera.error) (s : IcecatScannerCamera.scanner) :
  is_Some (IcecatScannerCamera.scannerContainer s) ->
  is_Some (IcecatScannerCamera.scannerPlaceholder s) ->
  is_Some (IcecatScannerCamera.btnToggleScanner s) ->
  IcecatScannerCamera.startScanner true true true (Some err) stop s
    = IcecatScannerCamera.stopScanner stop
        (IcecatScannerCamera.show_alert
           (IcecatScannerCamera.start_message err) s).2.
Proof.
  intros [container Hc] [placeholder Hp] [button Hb].
  rewrite (startScanner_fails stop err s container placeholder button) by done.
  by rewrite (stopScanner_run stop _ container placeholder button).
Qed.

Lemma startScanner_failure_as_stopped_witness :
  let el := {| IcecatScannerPage.classList := {["bg-indigo-500"]};
               IcecatScannerPage.disabled := false;
               IcecatScannerPage.textContent := "" |} in
  let s := {| IcecatScannerCamera.html5QrCode := false;
              IcecatScannerCamera.isScannerRunning := false;
              IcecatScannerCamera.scannerContainer := Some el;
              IcecatScannerCamera.scannerPlaceholder := Some el;
              IcecatScannerCamera.btnToggleScanner := Some el;
              IcecatScannerCamera.alerts := [] |} in
  let err := {| IcecatScannerCamera.name := Some "NotAllowedError";
                IcecatScannerCamera.message := None |} in
  IcecatScannerCamera.startScanner true true true (Some err) true s
    = IcecatScannerCamera.stopScanner true
        (IcecatScannerCamera.show_alert
           (IcecatScannerCamera.start_message err) s).2.
Proof.
  intros el s err.
  assert (H : is_Some (Some el)) by eauto.
  exact (startScanner_failure_as_stopped true err s H H H).
Defined.

Section camera_toggle.

Import IcecatScannerPage IcecatScannerCamera.

Context (isSecureContext getUserMedia Html5Qrcode : bool)
  (start : option error) (stop : bool).

(** The scanner is running only when [startScanner] has gone through. *)
Lemma startScanner_running (s : scanner) :
  isScannerRunning s = false ->
  let s' := (startScanner isSecureContext getUserMedia Html5Qrcode start stop s).2 in
  isScannerRunning s' = true ->
  isSecureContext = true /\ getUserMedia = true /\ Html5Qrcode = true /\
  start = None /\
  html5QrCode s' = true /\
  exists container placeholder button,
    scannerContainer s = Some container /\
    scannerPlaceholder s = Some placeholder /\
    btnToggleScanner s = Some button /\
    scannerContainer s' = Some (classList_remove "hidden" container) /\
    scannerPlaceholder s' = Some (classList_add "hidden" placeholder) /\
    textContent <$> btnToggleScanner s' = Some "Detener Scanner".
Proof.
  destruct s as [h r c p b al]. cbn [isScannerRunning]. intros ->.
  unfold startScanner, stopScanner.
  unfold mbind, action_bind, try_catch, throw, mret, action_ret, set_html5QrCode,
    set_isScannerRunning, on_scannerContainer, on_scannerPlaceholder,
    on_btnToggleScanner, show_alert, detached.
  destruct isSecureContext, getUserMedia; cbn; try done.
  destruct c as [c|]; cbn; [|done]. destruct p as [p|]; cbn; [|done].
  destruct b as [b|]; cbn; [|done].
  destruct Html5Qrcode; cbn; [|done].
  destruct start as [err|]; cbn.
  - by destruct stop.
  - intros _. repeat split. exists c, p, b. repeat split.
    by rewrite !classList_replace_tokens.
Qed.

Lemma startScanner_starts (s : scanner) (container placeholder button : node) :
  scannerContainer s = Some container ->
  scannerPlaceholder s = Some placeholder ->
  btnToggleScanner s = Some button ->
  isScannerRunning (startScanner true true true None stop s).2 = true.
Proof.
  destruct s as [h r c p b al]. cbn. by intros -> -> ->.
Qed.

Lemma stopScanner_not_running (s : scanner) :
  isScannerRunning (stopScanner stop s).2 = false /\
  html5QrCode (stopScanner stop s).2 = false.
Proof.
  destruct s as [h r c p b al]. unfold stopScanner.
  unfold mbind, action_bind, try_catch, throw, mret, action_ret, set_html5QrCode,
    set_isScannerRunning, on_scannerContainer, on_scannerPlaceholder,
    on_btnToggleScanner.
  by destruct h, stop, c, p, b.
Qed.

End camera_toggle.

(** X25.  After [toggleScanner] the scanner is running only if it was not
    running before, the context is secure, the browser has the camera
    interface, [new Html5Qrcode] returned and the promise of [start] was
    resolved; the scanner then holds the camera object, the container is
    shown, the placeholder hidden, and the button reads Detener Scanner.
    In every other case, a missing element included, the scanner is not
    running afterwards. *)
Theorem toggleScanner_running (isSecureContext getUserMedia Html5Qrcode : bool)
    (start : option IcecatScannerCamera.error) (stop : bool)
    (s : IcecatScannerCamera.scanner) :
  let s' :=
    (IcecatScannerCamera.toggleScanner isSecureContext getUserMedia Html5Qrcode
       start stop s).2 in
  IcecatScannerCamera.isScannerRunning s' = true ->
  IcecatScannerCamera.isScannerRunning s = false /\
  isSecureContext = true /\ getUserMedia = true /\ Html5Qrcode = true /\
  start = None /\
  IcecatScannerCamera.html5QrCode s' = true /\
  exists container placeholder button,
    IcecatScannerCamera.scannerContainer s = Some container /\
    IcecatScannerCamera.scannerPlaceholder s = Some placeholder /\
    IcecatScannerCamera.btnToggleScanner s = Some button /\
    IcecatScannerCamera.scannerContainer s'
      = Some (IcecatScannerPage.classList_remove "hidden" container) /\
    IcecatScannerCamera.scannerPlaceholder s'
      = Some (IcecatScannerPage.classList_add "hidden" placeholder) /\
    IcecatScannerPage.textContent <$> IcecatScannerCamera.btnToggleScanner s'
      = Some "Detener Scanner".
Proof.
  intros s'. subst s'. unfold IcecatScannerCamera.toggleScanner.
  destruct (IcecatScannerCamera.isScannerRunning s) eqn:Hr.
  - intros H. by rewrite (proj1 (stopScanner_not_running stop s)) in H.
  - unfold IcecatScannerCamera.detached. cbn [snd]. intros H. split; [done|].
    by apply (startScanner_running _ _ _ _ stop s Hr).
Qed.

Lemma toggleScanner_running_witness :
  let el := {| IcecatScannerPage.classList := {["hidden"]};
               IcecatScannerPage.disabled := false;
               IcecatScannerPage.textContent := "" |} in
  let s := {| IcecatScannerCamera.html5QrCode := false;
              IcecatScannerCamera.isScannerRunning := false;
              IcecatScannerCamera.scannerContainer := Some el;
              IcecatScannerCamera.scannerPlaceholder := Some el;
              IcecatScannerCamera.btnToggleScanner := Some el;
              IcecatScannerCamera.alerts := [] |} in
  let s' := (IcecatScannerCamera.toggleScanner true true true None true s).2 in
  IcecatScannerCamera.isScannerRunning s' = true /\
  IcecatScannerCamera.html5QrCode s' = true.
Proof.
  intros el s s'.
  assert (H : IcecatScannerCamera.isScannerRunning s' = true) by reflexivity.
  split; [exact H|].
  exact (proj1 (proj2 (proj2 (proj2 (proj2 (proj2
    (toggleScanner_running true true true None true s H))))))).
Defined.
